(** * Project Hub: the in-memory store, its HTTP boundary, the calendar
      timeline and the budget figures.

    What is embedded, and from where:
    - [server/storage.ts]: the class [MemStorage], method by method;
    - [shared/schema.ts]: the tables, the zod schemas derived from them, and
      the template catalog [projectTemplates];
    - [server/routes.ts]: the POST, PATCH and DELETE handlers;
    - [client/src/pages/calendar.tsx]: [getAllEventsForDate], the day view,
      the week view and [navigateDate];
    - [client/src/components/budget-tracker.tsx]: the totals and the margin
      line;
    - [client/src/pages/dashboard.tsx], [client/src/pages/project-detail.tsx]
      and [client/src/components/task-management.tsx]: the lists derived
      from the fetched records.

    The first part of the file holds the definitions, the second part the
    lemmas and theorems about them. *)

From Stdlib Require Import ZArith Floats.
From stdpp Require Import strings gmap list pretty sorting.

Open Scope Z_scope.

(** ** JavaScript values and objects *)

(** The values that occur in the records of the application.  A [Date]
    object and its ISO-8601 rendering on the wire are identified: [VDate t]
    is the instant [t] (milliseconds since the epoch), and a string of that
    shape is taken to occur where a date is meant only; [VInvalidDate] is
    the result of [new Date(x)] on something that is not a date. *)
Inductive val :=
| VUndef
| VNull
| VBool (b : bool)
| VNum (n : Z)
| VStr (s : string)
| VDate (t : Z)
| VInvalidDate.

#[global] Instance val_eq_dec : EqDecision val.
Proof. solve_decision. Defined.

(** [ToBoolean]: what [if (v)], [v && ...] and [v ? a : b] test. *)
Definition truthy (v : val) : bool :=
  match v with
  | VUndef | VNull => false
  | VBool b => b
  | VNum n => negb (n =? 0)
  | VStr s => negb (String.eqb s "")
  | VDate _ | VInvalidDate => true
  end.

(** [v === s] for a string [s]. *)
Definition strict_eq_str (v : val) (s : string) : bool :=
  match v with
  | VStr s' => String.eqb s' s
  | _ => false
  end.

(** A plain object: own enumerable properties.  A key bound to [VUndef] is
    present (it shows in [Object.keys] and is copied by a spread), unlike a
    key that is not bound at all. *)
Abbreviation obj := (gmap string val).

(** Property read [o.k]: [undefined] for a key that is not there. *)
Definition prop (o : obj) (k : string) : val := default VUndef (o !! k).

(** Object spread [{ ...a, ...b }]: every own key of [b] wins over [a]. *)
Definition spread (a b : obj) : obj := b ∪ a.

(** [new Date(v)], for the values a request body can carry.  A number is a
    time value when it is within 8.64e15 milliseconds of the epoch; a string
    that [Date.parse] accepts is a [VDate] here, so that a [VStr] in this
    place is a string it does not accept. *)
Definition newDate (v : val) : val :=
  match v with
  | VDate t => VDate t
  | VNum n => if Z.abs n <=? 8640000000000000 then VDate n else VInvalidDate
  | VNull => VDate 0
  | VBool b => VDate (if b then 1 else 0)
  | VUndef | VStr _ | VInvalidDate => VInvalidDate
  end.

(** ** The built-in [Map]: insertion-ordered, keyed by string *)

(** A [Map<string, V>] is the list of its entries, oldest key first. *)
Abbreviation JsMap V := (list (string * V)).

Section JsMap.
Context {V : Type}.
Implicit Types m : JsMap V.

Fixpoint Map_get (k : string) m : option V :=
  match m with
  | [] => None
  | (k', v) :: m' => if String.eqb k' k then Some v else Map_get k m'
  end.

Definition Map_has (k : string) m : bool :=
  match Map_get k m with Some _ => true | None => false end.

(** [m.set(k, v)]: an existing key keeps its position, a new one goes last. *)
Fixpoint Map_set (k : string) (v : V) m : JsMap V :=
  match m with
  | [] => [(k, v)]
  | (k', v') :: m' =>
      if String.eqb k' k then (k, v) :: m' else (k', v') :: Map_set k v m'
  end.

Fixpoint Map_remove (k : string) m : JsMap V :=
  match m with
  | [] => []
  | (k', v') :: m' =>
      if String.eqb k' k then Map_remove k m' else (k', v') :: Map_remove k m'
  end.

(** [m.delete(k)]: whether the key was there, and the map without it. *)
Definition Map_delete (k : string) m : bool * JsMap V :=
  (Map_has k m, Map_remove k m).

(** [Array.from(m.values())] *)
Definition Map_values m : list V := m.*2.

Definition Map_keys m : list string := m.*1.
End JsMap.

(** ** shared/schema.ts: the template catalog *)

Definition Wedding_template : list (string * string) :=
  [ ("Book venue", "Pre-Production");
    ("Create shot list", "Pre-Production");
    ("Send questionnaire to couple", "Pre-Production");
    ("Scout location", "Pre-Production");
    ("Confirm timeline with couple", "Pre-Production");
    ("Charge batteries", "Shoot Day");
    ("Pack equipment", "Shoot Day");
    ("Conduct ceremony shots", "Shoot Day");
    ("Capture reception moments", "Shoot Day");
    ("Import and backup photos", "Post-Production");
    ("Cull images", "Post-Production");
    ("Edit selected photos", "Post-Production");
    ("Deliver final gallery", "Post-Production") ]%string.

Definition Portrait_template : list (string * string) :=
  [ ("Discuss vision with client", "Pre-Production");
    ("Choose location or studio", "Pre-Production");
    ("Plan wardrobe and props", "Pre-Production");
    ("Book makeup artist (if needed)", "Pre-Production");
    ("Set up lighting", "Shoot Day");
    ("Conduct portrait session", "Shoot Day");
    ("Review shots with client", "Shoot Day");
    ("Import and backup photos", "Post-Production");
    ("Retouch selected images", "Post-Production");
    ("Deliver finals to client", "Post-Production") ]%string.

Definition Commercial_template : list (string * string) :=
  [ ("Review creative brief", "Pre-Production");
    ("Create shot list", "Pre-Production");
    ("Secure permits if needed", "Pre-Production");
    ("Hire crew/assistants", "Pre-Production");
    ("Scout and prepare location", "Pre-Production");
    ("Conduct product/brand shoot", "Shoot Day");
    ("Review shots with client", "Shoot Day");
    ("Import and organize files", "Post-Production");
    ("Edit to brand guidelines", "Post-Production");
    ("Submit for client approval", "Post-Production");
    ("Deliver final assets", "Post-Production") ]%string.

Definition Event_template : list (string * string) :=
  [ ("Discuss event details with client", "Pre-Production");
    ("Create shot list", "Pre-Production");
    ("Scout venue", "Pre-Production");
    ("Plan equipment needs", "Pre-Production");
    ("Arrive early for setup", "Shoot Day");
    ("Capture key moments", "Shoot Day");
    ("Photograph attendees", "Shoot Day");
    ("Import and backup photos", "Post-Production");
    ("Cull and organize images", "Post-Production");
    ("Edit selected photos", "Post-Production");
    ("Deliver event gallery", "Post-Production") ]%string.

(** What a property read on the [projectTemplates] literal can give: one of
    its five arrays, a member inherited from [Object.prototype] (a function
    or an object: truthy, and not iterable), or [undefined]. *)
Inductive template_prop :=
| TplArray (entries : list (string * string))
| TplInherited
| TplUndefined.

(** The property names every plain object inherits from [Object.prototype]. *)
Definition Object_prototype_keys : list string :=
  [ "constructor"; "hasOwnProperty"; "isPrototypeOf"; "propertyIsEnumerable";
    "toLocaleString"; "toString"; "valueOf"; "__proto__";
    "__defineGetter__"; "__defineSetter__"; "__lookupGetter__";
    "__lookupSetter__" ]%string.

(** [projectTemplates[type]] *)
Definition projectTemplates (type : val) : template_prop :=
  match type with
  | VStr s =>
      if String.eqb s "Wedding" then TplArray Wedding_template
      else if String.eqb s "Portrait" then TplArray Portrait_template
      else if String.eqb s "Commercial" then TplArray Commercial_template
      else if String.eqb s "Event" then TplArray Event_template
      else if String.eqb s "Blank" then TplArray []
      else if bool_decide (s ∈ Object_prototype_keys) then TplInherited
      else TplUndefined
  | _ => TplUndefined
  end.

(** ** server/storage.ts: [MemStorage] *)

(** The five collections of the class, and [uuidCalls]: how many times
    [randomUUID()] has been called so far, that is the position reached in
    the generator's output sequence. *)
Record MemStorage := mkStorage {
  projects : JsMap obj;
  tasks : JsMap obj;
  contacts : JsMap obj;
  budgetItems : JsMap obj;
  calendarEvents : JsMap obj;
  uuidCalls : nat
}.

(** [new MemStorage()] *)
Definition emptyStorage : MemStorage := mkStorage [] [] [] [] [] 0.

Definition with_projects (m : JsMap obj) (s : MemStorage) : MemStorage :=
  mkStorage m (tasks s) (contacts s) (budgetItems s) (calendarEvents s) (uuidCalls s).
Definition with_tasks (m : JsMap obj) (s : MemStorage) : MemStorage :=
  mkStorage (projects s) m (contacts s) (budgetItems s) (calendarEvents s) (uuidCalls s).
Definition with_contacts (m : JsMap obj) (s : MemStorage) : MemStorage :=
  mkStorage (projects s) (tasks s) m (budgetItems s) (calendarEvents s) (uuidCalls s).
Definition with_budgetItems (m : JsMap obj) (s : MemStorage) : MemStorage :=
  mkStorage (projects s) (tasks s) (contacts s) m (calendarEvents s) (uuidCalls s).
Definition with_calendarEvents (m : JsMap obj) (s : MemStorage) : MemStorage :=
  mkStorage (projects s) (tasks s) (contacts s) (budgetItems s) m (uuidCalls s).
Definition next_uuid (s : MemStorage) : MemStorage :=
  mkStorage (projects s) (tasks s) (contacts s) (budgetItems s) (calendarEvents s)
            (S (uuidCalls s)).

(** How a method of the class ends: with a value, or with a thrown
    [TypeError]. *)
Inductive outcome (A : Type) :=
| Returns (a : A)
| Throws.
Arguments Returns {A} a.
Arguments Throws {A}.

(** [m.delete(v)] for a key read from a record: only a string can be a key
    of these maps. *)
Definition Map_delete_val (v : val) (m : JsMap obj) : JsMap obj :=
  match v with
  | VStr k => (Map_delete k m).2
  | _ => m
  end.

(** The two lines of [deleteProject] for one dependent collection:
    [Array.from(m.values()).filter(r => r.projectId === id)] and then
    [forEach(r => m.delete(r.id))]. *)
Definition sweep (id : string) (m : JsMap obj) : JsMap obj :=
  let owned := base.filter (λ r, strict_eq_str (prop r "projectId") id = true) (Map_values m) in
  foldl (λ m' r, Map_delete_val (prop r "id") m') m owned.

(** [Array.from(m.values()).filter(r => r.projectId === projectId)] *)
Definition byProject (projectId : string) (m : JsMap obj) : list obj :=
  base.filter (λ r, strict_eq_str (prop r "projectId") projectId = true) (Map_values m).

Section Storage.
(** [randomUUID n] is the string the [n]-th call of crypto's
    [randomUUID()] returns, [clock n] the instant [new Date()] reads in
    the create call that makes the [n]-th draw. *)
Variable randomUUID : nat → string.
Variable clock : nat → Z.

(** *** Projects *)

Definition getProjects (s : MemStorage) : list obj := Map_values (projects s).

Definition getProject (id : string) (s : MemStorage) : option obj :=
  Map_get id (projects s).

Definition createTask (insertTask : obj) (s : MemStorage) : obj * MemStorage :=
  let id := randomUUID (uuidCalls s) in
  let task := <["createdAt" := VDate (clock (uuidCalls s))]>
                (<["id" := VStr id]> insertTask) in
  (task, next_uuid (with_tasks (Map_set id task (tasks s)) s)).

(** The object literal handed to [createTask] for one template entry. *)
Definition templateTask (id : string) (taskTemplate : string * string) : obj :=
  {[ "projectId" := VStr id;
     "title" := VStr taskTemplate.1;
     "section" := VStr taskTemplate.2;
     "status" := VStr "To Do";
     "assignee" := VStr "" ]}.

(** The task [createTask] stores for a template entry when it makes the
    [n]-th draw. *)
Definition seededTask (projectId : string) (n : nat) (taskTemplate : string * string)
  : obj :=
  <["createdAt" := VDate (clock n)]>
    (<["id" := VStr (randomUUID n)]> (templateTask projectId taskTemplate)).

Definition createProject (insertProject : obj) (s : MemStorage)
  : outcome obj * MemStorage :=
  let id := randomUUID (uuidCalls s) in
  let project := <["createdAt" := VDate (clock (uuidCalls s))]>
                   (<["id" := VStr id]> insertProject) in
  let s1 := next_uuid (with_projects (Map_set id project (projects s)) s) in
  let type := prop insertProject "type" in
  if truthy type && negb (strict_eq_str type "Blank") then
    match projectTemplates type with
    | TplArray template =>
        (Returns project,
         foldl (λ s' taskTemplate, (createTask (templateTask id taskTemplate) s').2)
               s1 template)
    | TplInherited => (Throws, s1)
    | TplUndefined => (Returns project, s1)
    end
  else (Returns project, s1).

Definition updateProject (id : string) (data : obj) (s : MemStorage)
  : option obj * MemStorage :=
  match Map_get id (projects s) with
  | None => (None, s)
  | Some project =>
      let updated := spread project data in
      (Some updated, with_projects (Map_set id updated (projects s)) s)
  end.

Definition deleteProject (id : string) (s : MemStorage) : bool * MemStorage :=
  let '(deleted, ps) := Map_delete id (projects s) in
  let s1 := with_projects ps s in
  if deleted then
    let s2 := with_tasks (sweep id (tasks s1)) s1 in
    let s3 := with_contacts (sweep id (contacts s2)) s2 in
    let s4 := with_budgetItems (sweep id (budgetItems s3)) s3 in
    let s5 := with_calendarEvents (sweep id (calendarEvents s4)) s4 in
    (deleted, s5)
  else (deleted, s1).

(** *** Tasks *)

Definition getTasks (s : MemStorage) : list obj := Map_values (tasks s).

Definition getTask (id : string) (s : MemStorage) : option obj :=
  Map_get id (tasks s).

Definition getTasksByProject (projectId : string) (s : MemStorage) : list obj :=
  byProject projectId (tasks s).

Definition updateTask (id : string) (data : obj) (s : MemStorage)
  : option obj * MemStorage :=
  match Map_get id (tasks s) with
  | None => (None, s)
  | Some task =>
      let updated := spread task data in
      (Some updated, with_tasks (Map_set id updated (tasks s)) s)
  end.

Definition deleteTask (id : string) (s : MemStorage) : bool * MemStorage :=
  let '(deleted, m) := Map_delete id (tasks s) in (deleted, with_tasks m s).

(** *** Contacts *)

Definition getContacts (s : MemStorage) : list obj := Map_values (contacts s).

Definition getContact (id : string) (s : MemStorage) : option obj :=
  Map_get id (contacts s).

Definition getContactsByProject (projectId : string) (s : MemStorage) : list obj :=
  byProject projectId (contacts s).

Definition createContact (insertContact : obj) (s : MemStorage) : obj * MemStorage :=
  let id := randomUUID (uuidCalls s) in
  let contact := <["id" := VStr id]> insertContact in
  (contact, next_uuid (with_contacts (Map_set id contact (contacts s)) s)).

Definition updateContact (id : string) (data : obj) (s : MemStorage)
  : option obj * MemStorage :=
  match Map_get id (contacts s) with
  | None => (None, s)
  | Some contact =>
      let updated := spread contact data in
      (Some updated, with_contacts (Map_set id updated (contacts s)) s)
  end.

Definition deleteContact (id : string) (s : MemStorage) : bool * MemStorage :=
  let '(deleted, m) := Map_delete id (contacts s) in (deleted, with_contacts m s).

(** *** Budget items *)

Definition getBudgetItems (s : MemStorage) : list obj := Map_values (budgetItems s).

Definition getBudgetItem (id : string) (s : MemStorage) : option obj :=
  Map_get id (budgetItems s).

Definition getBudgetItemsByProject (projectId : string) (s : MemStorage) : list obj :=
  byProject projectId (budgetItems s).

Definition createBudgetItem (insertItem : obj) (s : MemStorage) : obj * MemStorage :=
  let id := randomUUID (uuidCalls s) in
  let item := <["id" := VStr id]> insertItem in
  (item, next_uuid (with_budgetItems (Map_set id item (budgetItems s)) s)).

Definition updateBudgetItem (id : string) (data : obj) (s : MemStorage)
  : option obj * MemStorage :=
  match Map_get id (budgetItems s) with
  | None => (None, s)
  | Some item =>
      let updated := spread item data in
      (Some updated, with_budgetItems (Map_set id updated (budgetItems s)) s)
  end.

Definition deleteBudgetItem (id : string) (s : MemStorage) : bool * MemStorage :=
  let '(deleted, m) := Map_delete id (budgetItems s) in (deleted, with_budgetItems m s).

(** *** Calendar events *)

Definition getCalendarEvents (s : MemStorage) : list obj := Map_values (calendarEvents s).

Definition getCalendarEvent (id : string) (s : MemStorage) : option obj :=
  Map_get id (calendarEvents s).

Definition getCalendarEventsByProject (projectId : string) (s : MemStorage) : list obj :=
  byProject projectId (calendarEvents s).

Definition createCalendarEvent (insertEvent : obj) (s : MemStorage) : obj * MemStorage :=
  let id := randomUUID (uuidCalls s) in
  let event := <["id" := VStr id]> insertEvent in
  (event, next_uuid (with_calendarEvents (Map_set id event (calendarEvents s)) s)).

Definition updateCalendarEvent (id : string) (data : obj) (s : MemStorage)
  : option obj * MemStorage :=
  match Map_get id (calendarEvents s) with
  | None => (None, s)
  | Some event =>
      let updated := spread event data in
      (Some updated, with_calendarEvents (Map_set id updated (calendarEvents s)) s)
  end.

Definition deleteCalendarEvent (id : string) (s : MemStorage) : bool * MemStorage :=
  let '(deleted, m) := Map_delete id (calendarEvents s) in
  (deleted, with_calendarEvents m s).
End Storage.

(** ** Store invariants *)

(** Every record sits under its own id, and no key occurs twice. *)
Definition Map_wf (m : JsMap obj) : Prop :=
  NoDup (Map_keys m) ∧ Forall (λ e, prop e.2 "id" = VStr e.1) m.

Definition storage_wf (s : MemStorage) : Prop :=
  Map_wf (projects s) ∧ Map_wf (tasks s) ∧ Map_wf (contacts s) ∧
  Map_wf (budgetItems s) ∧ Map_wf (calendarEvents s).

#[global] Instance Map_wf_dec m : Decision (Map_wf m).
Proof. unfold Map_wf. apply _. Defined.

#[global] Instance storage_wf_dec s : Decision (storage_wf s).
Proof. unfold storage_wf. apply _. Defined.

(** The record [r] is owned by project [id]. *)
Definition owned_by (id : string) (r : obj) : Prop := prop r "projectId" = VStr id.

#[global] Instance owned_by_dec id r : Decision (owned_by id r).
Proof. unfold owned_by. apply _. Defined.

(** ** The uniform view of the five collections (spec 4.1) *)

Inductive Kind := KProject | KTask | KContact | KBudgetItem | KCalendarEvent.

#[global] Instance Kind_eq_dec : EqDecision Kind.
Proof. solve_decision. Defined.

Definition collection (kind : Kind) (s : MemStorage) : JsMap obj :=
  match kind with
  | KProject => projects s
  | KTask => tasks s
  | KContact => contacts s
  | KBudgetItem => budgetItems s
  | KCalendarEvent => calendarEvents s
  end.

Definition with_collection (kind : Kind) (m : JsMap obj) (s : MemStorage) : MemStorage :=
  match kind with
  | KProject => with_projects m s
  | KTask => with_tasks m s
  | KContact => with_contacts m s
  | KBudgetItem => with_budgetItems m s
  | KCalendarEvent => with_calendarEvents m s
  end.

Definition store_get (kind : Kind) (id : string) (s : MemStorage) : option obj :=
  match kind with
  | KProject => getProject id s
  | KTask => getTask id s
  | KContact => getContact id s
  | KBudgetItem => getBudgetItem id s
  | KCalendarEvent => getCalendarEvent id s
  end.

Definition store_list (kind : Kind) (s : MemStorage) : list obj :=
  match kind with
  | KProject => getProjects s
  | KTask => getTasks s
  | KContact => getContacts s
  | KBudgetItem => getBudgetItems s
  | KCalendarEvent => getCalendarEvents s
  end.

(** [listByProject] exists for the four dependent kinds only. *)
Inductive Dependent := DTask | DContact | DBudgetItem | DCalendarEvent.

Definition kind_of (d : Dependent) : Kind :=
  match d with
  | DTask => KTask
  | DContact => KContact
  | DBudgetItem => KBudgetItem
  | DCalendarEvent => KCalendarEvent
  end.

Definition store_listByProject (d : Dependent) (projectId : string) (s : MemStorage)
  : list obj :=
  match d with
  | DTask => getTasksByProject projectId s
  | DContact => getContactsByProject projectId s
  | DBudgetItem => getBudgetItemsByProject projectId s
  | DCalendarEvent => getCalendarEventsByProject projectId s
  end.

Definition store_update (kind : Kind) (id : string) (data : obj) (s : MemStorage)
  : option obj * MemStorage :=
  match kind with
  | KProject => updateProject id data s
  | KTask => updateTask id data s
  | KContact => updateContact id data s
  | KBudgetItem => updateBudgetItem id data s
  | KCalendarEvent => updateCalendarEvent id data s
  end.

Definition store_delete (kind : Kind) (id : string) (s : MemStorage)
  : bool * MemStorage :=
  match kind with
  | KProject => deleteProject id s
  | KTask => deleteTask id s
  | KContact => deleteContact id s
  | KBudgetItem => deleteBudgetItem id s
  | KCalendarEvent => deleteCalendarEvent id s
  end.


(** ** shared/schema.ts: tables and zod schemas *)

(** The three column types the tables use, as zod types: [text]/[varchar]
    is [z.string()], [integer] is [z.number().int()] within the 32-bit
    range, [timestamp] is [z.date()]. *)
Inductive ztype := ZString | ZInteger | ZDate.

(** A column of a [pgTable]: its property name, type, [.notNull()] (a
    primary key is not null), and whether it has a [.default(...)]. *)
Record column := mkColumn {
  cname : string;
  ctype : ztype;
  cnotNull : bool;
  chasDefault : bool
}.

(** A key of a zod object schema. *)
Record zfield := mkField {
  fkey : string;
  ftype : ztype;
  fnullable : bool;
  foptional : bool
}.

Abbreviation zschema := (list zfield).

Definition projects_table : list column :=
  [ mkColumn "id" ZString true true;
    mkColumn "name" ZString true false;
    mkColumn "type" ZString true false;
    mkColumn "status" ZString true true;
    mkColumn "clientName" ZString false false;
    mkColumn "shootDate" ZDate false false;
    mkColumn "budget" ZInteger false true;
    mkColumn "description" ZString false false;
    mkColumn "createdAt" ZDate true true ].

Definition tasks_table : list column :=
  [ mkColumn "id" ZString true true;
    mkColumn "projectId" ZString true false;
    mkColumn "title" ZString true false;
    mkColumn "section" ZString true true;
    mkColumn "status" ZString true true;
    mkColumn "assignee" ZString false false;
    mkColumn "dueDate" ZDate false false;
    mkColumn "createdAt" ZDate true true ].

Definition contacts_table : list column :=
  [ mkColumn "id" ZString true true;
    mkColumn "projectId" ZString true false;
    mkColumn "name" ZString true false;
    mkColumn "role" ZString true false;
    mkColumn "email" ZString false false;
    mkColumn "phone" ZString false false;
    mkColumn "notes" ZString false false ].

Definition budgetItems_table : list column :=
  [ mkColumn "id" ZString true true;
    mkColumn "projectId" ZString true false;
    mkColumn "description" ZString true false;
    mkColumn "plannedCost" ZInteger true true;
    mkColumn "actualCost" ZInteger true true;
    mkColumn "paymentStatus" ZString true true;
    mkColumn "category" ZString false false ].

Definition calendarEvents_table : list column :=
  [ mkColumn "id" ZString true true;
    mkColumn "projectId" ZString true false;
    mkColumn "title" ZString true false;
    mkColumn "type" ZString true false;
    mkColumn "startDate" ZDate true false;
    mkColumn "endDate" ZDate false false;
    mkColumn "description" ZString false false;
    mkColumn "location" ZString false false ].

(** drizzle-zod's [createInsertSchema]: one key per column; a column that
    may be null is nullable and optional, one with a default is optional. *)
Definition createInsertSchema (table : list column) : zschema :=
  (λ c, mkField (cname c) (ctype c) (negb (cnotNull c))
                (negb (cnotNull c) || chasDefault c)) <$> table.

(** zod's [.omit({ k: true, ... })] and [.partial()]. *)
Definition omit (keys : list string) (shape : zschema) : zschema :=
  base.filter (λ f, fkey f ∉ keys) shape.

Definition partial (shape : zschema) : zschema :=
  (λ f, mkField (fkey f) (ftype f) (fnullable f) true) <$> shape.

Definition insertProjectSchema : zschema :=
  omit ["id"; "createdAt"] (createInsertSchema projects_table).
Definition updateProjectSchema : zschema := partial insertProjectSchema.

Definition insertTaskSchema : zschema :=
  omit ["id"; "createdAt"] (createInsertSchema tasks_table).
Definition updateTaskSchema : zschema := omit ["projectId"] (partial insertTaskSchema).

Definition insertContactSchema : zschema :=
  omit ["id"] (createInsertSchema contacts_table).
Definition updateContactSchema : zschema := omit ["projectId"] (partial insertContactSchema).

Definition insertBudgetItemSchema : zschema :=
  omit ["id"] (createInsertSchema budgetItems_table).
Definition updateBudgetItemSchema : zschema :=
  omit ["projectId"] (partial insertBudgetItemSchema).

Definition insertCalendarEventSchema : zschema :=
  omit ["id"] (createInsertSchema calendarEvents_table).
Definition updateCalendarEventSchema : zschema :=
  omit ["projectId"] (partial insertCalendarEventSchema).

(** What a zod type accepts.  drizzle-zod bounds an [integer] column to the
    range of a 32-bit signed integer. *)
Definition ztype_accepts (t : ztype) (v : val) : bool :=
  match t, v with
  | ZString, VStr _ => true
  | ZInteger, VNum n => (-2147483648 <=? n) && (n <=? 2147483647)
  | ZDate, VDate _ => true
  | _, _ => false
  end.

(** What one key of the schema accepts: [undefined] (or no key at all) when
    it is optional, [null] when it is nullable, else a value of its type. *)
Definition zfield_accepts (f : zfield) (v : val) : bool :=
  match v with
  | VUndef => foptional f
  | VNull => fnullable f
  | _ => ztype_accepts (ftype f) v
  end.

(** [schema.parse(input)] of a zod object schema (zod 3, default "strip"
    mode): [None] when it throws.  Each key of the shape is checked against
    [input[key]]; the result has the keys of the shape that are own keys of
    the input, with the input's values (so a key given as [undefined] stays
    in the result), and no other key. *)
Fixpoint zparse (shape : zschema) (input : obj) : option obj :=
  match shape with
  | [] => Some ∅
  | f :: shape' =>
      if zfield_accepts f (prop input (fkey f)) then
        match zparse shape' input with
        | None => None
        | Some out =>
            match input !! fkey f with
            | Some v => Some (<[fkey f := v]> out)
            | None => Some out
            end
        end
      else None
  end.

(** ** server/routes.ts *)

Inductive response :=
| Json (status : nat) (body : obj)
| JsonError (status : nat) (error : string)
| Empty (status : nat).

(** [JSON.stringify] of a record, as the client reads it back: keys bound
    to [undefined] are not written, an invalid date is written as [null]. *)
Definition toJSON (o : obj) : obj :=
  (λ v, match v with VInvalidDate => VNull | _ => v end)
    <$> base.filter (λ kv, kv.2 ≠ VUndef) o.

(** [v ? new Date(v) : undefined] *)
Definition dateOrUndefined (v : val) : val :=
  if truthy v then newDate v else VUndef.

Section Routes.
Variable randomUUID : nat → string.
Variable clock : nat → Z.

(** [app.post("/api/projects", ...)] *)
Definition post_projects (reqBody : obj) (s : MemStorage) : response * MemStorage :=
  let body := <["shootDate" := dateOrUndefined (prop reqBody "shootDate")]> reqBody in
  match zparse insertProjectSchema body with
  | None => (JsonError 400 "Invalid project data", s)
  | Some validatedData =>
      match createProject randomUUID clock validatedData s with
      | (Returns project, s') => (Json 201 (toJSON project), s')
      | (Throws, s') => (JsonError 400 "Invalid project data", s')
      end
  end.

(** [app.patch("/api/projects/:id", ...)] *)
Definition patch_projects (id : string) (reqBody : obj) (s : MemStorage)
  : response * MemStorage :=
  let body := <["shootDate" := dateOrUndefined (prop reqBody "shootDate")]> reqBody in
  match zparse updateProjectSchema body with
  | None => (JsonError 400 "Invalid project data", s)
  | Some validatedData =>
      match updateProject id validatedData s with
      | (None, s') => (JsonError 404 "Project not found", s')
      | (Some project, s') => (Json 200 (toJSON project), s')
      end
  end.

(** [app.delete("/api/projects/:id", ...)] *)
Definition delete_projects (id : string) (s : MemStorage) : response * MemStorage :=
  match deleteProject id s with
  | (false, s') => (JsonError 404 "Project not found", s')
  | (true, s') => (Empty 204, s')
  end.

(** [app.post("/api/tasks", ...)] *)
Definition post_tasks (reqBody : obj) (s : MemStorage) : response * MemStorage :=
  let body := <["dueDate" := dateOrUndefined (prop reqBody "dueDate")]> reqBody in
  match zparse insertTaskSchema body with
  | None => (JsonError 400 "Invalid task data", s)
  | Some validatedData =>
      let '(task, s') := createTask randomUUID clock validatedData s in
      (Json 201 (toJSON task), s')
  end.

(** [app.patch("/api/tasks/:id", ...)] *)
Definition patch_tasks (id : string) (reqBody : obj) (s : MemStorage)
  : response * MemStorage :=
  let body := <["dueDate" := dateOrUndefined (prop reqBody "dueDate")]> reqBody in
  match zparse updateTaskSchema body with
  | None => (JsonError 400 "Invalid task data", s)
  | Some validatedData =>
      match updateTask id validatedData s with
      | (None, s') => (JsonError 404 "Task not found", s')
      | (Some task, s') => (Json 200 (toJSON task), s')
      end
  end.

(** [app.delete("/api/tasks/:id", ...)] *)
Definition delete_tasks (id : string) (s : MemStorage) : response * MemStorage :=
  match deleteTask id s with
  | (false, s') => (JsonError 404 "Task not found", s')
  | (true, s') => (Empty 204, s')
  end.

(** [app.post("/api/contacts", ...)] *)
Definition post_contacts (reqBody : obj) (s : MemStorage) : response * MemStorage :=
  match zparse insertContactSchema reqBody with
  | None => (JsonError 400 "Invalid contact data", s)
  | Some validatedData =>
      let '(contact, s') := createContact randomUUID validatedData s in
      (Json 201 (toJSON contact), s')
  end.

(** [app.patch("/api/contacts/:id", ...)] *)
Definition patch_contacts (id : string) (reqBody : obj) (s : MemStorage)
  : response * MemStorage :=
  match zparse updateContactSchema reqBody with
  | None => (JsonError 400 "Invalid contact data", s)
  | Some validatedData =>
      match updateContact id validatedData s with
      | (None, s') => (JsonError 404 "Contact not found", s')
      | (Some contact, s') => (Json 200 (toJSON contact), s')
      end
  end.

(** [app.delete("/api/contacts/:id", ...)] *)
Definition delete_contacts (id : string) (s : MemStorage) : response * MemStorage :=
  match deleteContact id s with
  | (false, s') => (JsonError 404 "Contact not found", s')
  | (true, s') => (Empty 204, s')
  end.

(** [app.post("/api/budget-items", ...)] *)
Definition post_budget_items (reqBody : obj) (s : MemStorage) : response * MemStorage :=
  match zparse insertBudgetItemSchema reqBody with
  | None => (JsonError 400 "Invalid budget item data", s)
  | Some validatedData =>
      let '(item, s') := createBudgetItem randomUUID validatedData s in
      (Json 201 (toJSON item), s')
  end.

(** [app.patch("/api/budget-items/:id", ...)] *)
Definition patch_budget_items (id : string) (reqBody : obj) (s : MemStorage)
  : response * MemStorage :=
  match zparse updateBudgetItemSchema reqBody with
  | None => (JsonError 400 "Invalid budget item data", s)
  | Some validatedData =>
      match updateBudgetItem id validatedData s with
      | (None, s') => (JsonError 404 "Budget item not found", s')
      | (Some item, s') => (Json 200 (toJSON item), s')
      end
  end.

(** [app.delete("/api/budget-items/:id", ...)] *)
Definition delete_budget_items (id : string) (s : MemStorage) : response * MemStorage :=
  match deleteBudgetItem id s with
  | (false, s') => (JsonError 404 "Budget item not found", s')
  | (true, s') => (Empty 204, s')
  end.

(** [app.post("/api/calendar-events", ...)] *)
Definition post_calendar_events (reqBody : obj) (s : MemStorage)
  : response * MemStorage :=
  let body := <["endDate" := dateOrUndefined (prop reqBody "endDate")]>
                (<["startDate" := dateOrUndefined (prop reqBody "startDate")]> reqBody) in
  match zparse insertCalendarEventSchema body with
  | None => (JsonError 400 "Invalid calendar event data", s)
  | Some validatedData =>
      let '(event, s') := createCalendarEvent randomUUID validatedData s in
      (Json 201 (toJSON event), s')
  end.

(** [app.patch("/api/calendar-events/:id", ...)] *)
Definition patch_calendar_events (id : string) (reqBody : obj) (s : MemStorage)
  : response * MemStorage :=
  let body := <["endDate" := dateOrUndefined (prop reqBody "endDate")]>
                (<["startDate" := dateOrUndefined (prop reqBody "startDate")]> reqBody) in
  match zparse updateCalendarEventSchema body with
  | None => (JsonError 400 "Invalid calendar event data", s)
  | Some validatedData =>
      match updateCalendarEvent id validatedData s with
      | (None, s') => (JsonError 404 "Calendar event not found", s')
      | (Some event, s') => (Json 200 (toJSON event), s')
      end
  end.

(** [app.delete("/api/calendar-events/:id", ...)] *)
Definition delete_calendar_events (id : string) (s : MemStorage)
  : response * MemStorage :=
  match deleteCalendarEvent id s with
  | (false, s') => (JsonError 404 "Calendar event not found", s')
  | (true, s') => (Empty 204, s')
  end.

(** The PATCH handler of each kind. *)
Definition patch (kind : Kind) (id : string) (reqBody : obj) (s : MemStorage)
  : response * MemStorage :=
  match kind with
  | KProject => patch_projects id reqBody s
  | KTask => patch_tasks id reqBody s
  | KContact => patch_contacts id reqBody s
  | KBudgetItem => patch_budget_items id reqBody s
  | KCalendarEvent => patch_calendar_events id reqBody s
  end.

(** A request that changes the store, and the handler it reaches. *)
Inductive request :=
| POST (kind : Kind) (reqBody : obj)
| PATCH (kind : Kind) (id : string) (reqBody : obj)
| DELETE (kind : Kind) (id : string).

Definition handle (r : request) (s : MemStorage) : response * MemStorage :=
  match r with
  | POST KProject b => post_projects b s
  | POST KTask b => post_tasks b s
  | POST KContact b => post_contacts b s
  | POST KBudgetItem b => post_budget_items b s
  | POST KCalendarEvent b => post_calendar_events b s
  | PATCH kind id b => patch kind id b s
  | DELETE KProject id => delete_projects id s
  | DELETE KTask id => delete_tasks id s
  | DELETE KContact id => delete_contacts id s
  | DELETE KBudgetItem id => delete_budget_items id s
  | DELETE KCalendarEvent id => delete_calendar_events id s
  end.

(** The store after a sequence of requests. *)
Definition serve (rs : list request) (s : MemStorage) : MemStorage :=
  foldl (λ s' r, (handle r s').2) s rs.
End Routes.

(** ** Sequences of store operations *)

(** The operations of [IStorage] that change the store. *)
Inductive Op :=
| CreateProject (insertProject : obj)
| CreateTask (insertTask : obj)
| CreateContact (insertContact : obj)
| CreateBudgetItem (insertItem : obj)
| CreateCalendarEvent (insertEvent : obj)
| Update (kind : Kind) (id : string) (data : obj)
| Delete (kind : Kind) (id : string).

(** What the caller of one operation gets back. *)
Inductive Result :=
| Created (kind : Kind) (record : obj)
| CreateThrew
| Updated (record : option obj)
| Deleted (removed : bool).

Section Ops.
Variable randomUUID : nat → string.
Variable clock : nat → Z.

Definition exec (op : Op) (s : MemStorage) : Result * MemStorage :=
  match op with
  | CreateProject p =>
      match createProject randomUUID clock p s with
      | (Returns project, s') => (Created KProject project, s')
      | (Throws, s') => (CreateThrew, s')
      end
  | CreateTask t =>
      let '(task, s') := createTask randomUUID clock t s in (Created KTask task, s')
  | CreateContact c =>
      let '(contact, s') := createContact randomUUID c s in (Created KContact contact, s')
  | CreateBudgetItem b =>
      let '(item, s') := createBudgetItem randomUUID b s in (Created KBudgetItem item, s')
  | CreateCalendarEvent e =>
      let '(event, s') := createCalendarEvent randomUUID e s in
      (Created KCalendarEvent event, s')
  | Update kind id data =>
      let '(r, s') := store_update kind id data s in (Updated r, s')
  | Delete kind id =>
      let '(b, s') := store_delete kind id s in (Deleted b, s')
  end.

Fixpoint run (ops : list Op) (s : MemStorage) : list Result * MemStorage :=
  match ops with
  | [] => ([], s)
  | op :: ops' =>
      let '(r, s1) := exec op s in
      let '(rs, s2) := run ops' s1 in
      (r :: rs, s2)
  end.

(** The ids of the records the create operations of kind [kind] returned,
    in the order of the calls. *)
Definition created_ids (kind : Kind) (rs : list Result) : list val :=
  omap (λ r, match r with
             | Created kind' record =>
                 if decide (kind' = kind) then Some (prop record "id") else None
             | _ => None
             end) rs.

(** The ids of all the records the create operations returned. *)
Definition all_created_ids (rs : list Result) : list val :=
  omap (λ r, match r with
             | Created _ record => Some (prop record "id")
             | _ => None
             end) rs.

(** The ids [randomUUID()] has handed out so far. *)
Definition issued (s : MemStorage) : list string :=
  randomUUID <$> seq 0 (uuidCalls s).

(** Every key of every collection was handed out by [randomUUID()]. *)
Definition keys_issued (s : MemStorage) : Prop :=
  Forall (λ k, k ∈ issued s)
    (Map_keys (projects s) ++ Map_keys (tasks s) ++ Map_keys (contacts s) ++
     Map_keys (budgetItems s) ++ Map_keys (calendarEvents s)).

#[global] Instance keys_issued_dec s : Decision (keys_issued s).
Proof. unfold keys_issued. apply _. Defined.
(** [s'] comes from [s] by steps that add no key but ones drawn meanwhile. *)
Definition extends (s s' : MemStorage) : Prop :=
  (uuidCalls s ≤ uuidCalls s')%nat ∧
  ∀ kind k, k ∈ Map_keys (collection kind s') →
    k ∈ Map_keys (collection kind s) ∨
    ∃ i, (uuidCalls s ≤ i < uuidCalls s')%nat ∧ k = randomUUID i.
End Ops.

(** ** client/src/pages/calendar.tsx *)

(** The records as the page receives them ([Project], [Task] and
    [CalendarEvent] of shared/schema.ts); a date is an instant in
    milliseconds, [None] is [null]. *)
Record Project := mkProject {
  project_id : string;
  project_name : string;
  project_type : string;
  project_status : string;
  project_clientName : option string;
  project_shootDate : option Z;
  project_budget : option Z;
  project_description : option string;
  project_createdAt : Z
}.

Record Task := mkTask {
  task_id : string;
  task_projectId : string;
  task_title : string;
  task_section : string;
  task_status : string;
  task_assignee : option string;
  task_dueDate : option Z;
  task_createdAt : Z
}.

Record CalendarEvent := mkCalendarEvent {
  event_id : string;
  event_projectId : string;
  event_title : string;
  event_type : string;
  event_startDate : Z;
  event_endDate : option Z;
  event_description : option string;
  event_location : option string
}.

(** An element of the array [getAllEventsForDate] returns: a calendar event
    itself, or one of the two five-key literals. *)
Inductive TimelineItem :=
| EventItem (event : CalendarEvent)
| DerivedItem (id type title : string) (startDate : Z) (projectId : string).

Definition item_id (i : TimelineItem) : string :=
  match i with EventItem e => event_id e | DerivedItem id _ _ _ _ => id end.
Definition item_type (i : TimelineItem) : string :=
  match i with EventItem e => event_type e | DerivedItem _ type _ _ _ => type end.
Definition item_title (i : TimelineItem) : string :=
  match i with EventItem e => event_title e | DerivedItem _ _ title _ _ => title end.
Definition item_startDate (i : TimelineItem) : Z :=
  match i with EventItem e => event_startDate e | DerivedItem _ _ _ d _ => d end.
Definition item_projectId (i : TimelineItem) : string :=
  match i with EventItem e => event_projectId e | DerivedItem _ _ _ _ p => p end.

Definition msPerDay : Z := 86400000.

Section Calendar.
(** The offset of the browser's local time from UTC, in milliseconds, at
    the instant [t] (ECMAScript [LocalTZA(t, true)]): a function of the
    instant, since the clocks of a zone change. *)
Variable LocalTZA : Z → Z.

(** ECMAScript [LocalTime(t)]: what the local clock reads at the instant
    [t], as a time value. *)
Definition LocalTime (t : Z) : Z := t + LocalTZA t.

(** The local calendar day an instant falls on, counted from 1970-01-01
    (ECMAScript [Day(LocalTime(t))]); the local year, month and day of the
    month are functions of it. *)
Definition localDay (t : Z) : Z := LocalTime t / msPerDay.

(** date-fns [isSameDay]: the same year, month and day in local time. *)
Definition isSameDay (a b : Z) : bool := localDay a =? localDay b.

Variable allEvents : list CalendarEvent.
Variable allTasks : list Task.
Variable projects : list Project.

Definition taskDeadline (task : Task) (dueDate : Z) : TimelineItem :=
  DerivedItem (task_id task) "Deadline" (task_title task) dueDate (task_projectId task).

Definition photoShoot (project : Project) (shootDate : Z) : TimelineItem :=
  DerivedItem (project_id project) "Photoshoot" (project_name project) shootDate
              (project_id project).

Definition getAllEventsForDate (date : Z) : list TimelineItem :=
  let calendarEvents :=
    base.filter (λ event, isSameDay (event_startDate event) date = true) allEvents in
  (* [filter] then [map], fused: the map reads the date the filter tested *)
  let taskDeadlines :=
    omap (λ task,
            match task_dueDate task with
            | Some dueDate =>
                if isSameDay dueDate date then Some (taskDeadline task dueDate) else None
            | None => None
            end) allTasks in
  let photoShoots :=
    omap (λ project,
            match project_shootDate project with
            | Some shootDate =>
                if isSameDay shootDate date then Some (photoShoot project shootDate)
                else None
            | None => None
            end) projects in
  (EventItem <$> calendarEvents) ++ taskDeadlines ++ photoShoots.

(** The comparator of the day view:
    [new Date(a.startDate).getTime() - new Date(b.startDate).getTime()]. *)
Definition compareStart (a b : TimelineItem) : Z := item_startDate a - item_startDate b.

(** [Array.prototype.sort] with that comparator.  The built-in sort is
    stable, so its result is the one of this insertion sort: an item goes
    before the first later item it does not compare greater than. *)
Fixpoint sort_insert (a : TimelineItem) (l : list TimelineItem) : list TimelineItem :=
  match l with
  | [] => [a]
  | b :: l' => if compareStart a b <=? 0 then a :: b :: l' else b :: sort_insert a l'
  end.

Definition sortByStart (l : list TimelineItem) : list TimelineItem :=
  foldr sort_insert [] l.

(** The cards of [renderDayView], top to bottom; the empty list stands for
    the "No events scheduled for this day" placeholder. *)
Definition renderDayView (currentDate : Z) : list TimelineItem :=
  sortByStart (getAllEventsForDate currentDate).
End Calendar.

(** Items ordered by the instant they start at. *)
Definition starts_before (a b : TimelineItem) : Prop :=
  item_startDate a ≤ item_startDate b.

(** *** The example of the specification: one project, one of its tasks and
    one of its calendar events, all on 2025-06-01 (local time). *)

(** The time value of a local clock that reads [h]:[m] on the [day]-th day
    after 1970-01-01.  2025-06-01 is day 20240. *)
Definition wall_clock (day h m : Z) : Z :=
  day * msPerDay + h * 3600000 + m * 60000.

Definition example_event (startDate : Z) : CalendarEvent :=
  mkCalendarEvent "e1" "p1" "Venue walk-through" "Meeting" startDate None None None.

Definition example_project (shootDate : Z) : Project :=
  mkProject "p1" "Anna and Ben" "Wedding" "Planning" None
            (Some shootDate) (Some 5000) None 1745314200000.

Definition example_task (dueDate : Z) : Task :=
  mkTask "t1" "p1" "Deliver final gallery" "Post-Production" "Completed" None
         (Some dueDate) 1745314200000.

(** A task due the evening before and an event of the morning after. *)
Definition example_eve_task (dueDate : Z) : Task :=
  mkTask "t0" "p1" "Charge batteries" "Shoot Day" "To Do" None
         (Some dueDate) 1745314200000.

Definition example_next_event (startDate : Z) : CalendarEvent :=
  mkCalendarEvent "e2" "p1" "Farewell brunch" "Meeting" startDate None None None.

(** *** A zone whose clocks change: New York in 2025.  The clocks go forward
    an hour on 2025-03-09 at 07:00 UTC (02:00 local) and back an hour on
    2025-11-02 at 06:00 UTC. *)
Definition newYork (t : Z) : Z :=
  if t <? 1741503600000 then -18000000
  else if t <? 1762063200000 then -14400000
  else -18000000.

(** The instant of a reading of the New York clock; a reading that a change
    skips or repeats is taken with the offset in force before the change,
    as ECMAScript prescribes. *)
Definition newYork_UTC (l : Z) : Z :=
  if l <? 1741489200000 then l + 18000000
  else if l <? 1762048800000 then l + 14400000
  else l + 18000000.

(** Four events around 2025-03-09, the day of 23 hours: at 23:30 the evening
    before, at 00:30 and at 23:30 of the day, and at 00:30 the day after. *)
Definition clock_change_events : list CalendarEvent :=
  [ mkCalendarEvent "a" "p1" "Late call" "Meeting" 1741494600000 None None None;
    mkCalendarEvent "b" "p1" "Night shoot" "Photoshoot" 1741498200000 None None None;
    mkCalendarEvent "c" "p1" "Wrap" "Meeting" 1741577400000 None None None;
    mkCalendarEvent "d" "p1" "After party" "Meeting" 1741581000000 None None None ].

(** ** client/src/components/budget-tracker.tsx *)

(** [BudgetItem] as the page receives it.  The schemas take whole numbers
    for the two costs and a string for the payment status, all three
    optional, and the store keeps a record as it was validated (the defaults
    of the columns are not applied): an item created without a cost has no
    such key, and reading it gives [undefined], here [None]. *)
Record BudgetItem := mkBudgetItem {
  budgetItem_id : string;
  budgetItem_projectId : string;
  budgetItem_description : string;
  plannedCost : option Z;
  actualCost : option Z;
  paymentStatus : option string;
  category : option string
}.

(** The double nearest to an integer: the number a whole amount is when it
    is read from JSON. *)
Definition num (z : Z) : float :=
  SF2Prim (binary_normalize FloatOps.prec FloatOps.emax z 0 false).

(** A cost as an operand of [+]: [undefined] converts to [NaN]. *)
Definition cost (c : option Z) : float :=
  match c with Some z => num z | None => nan end.

(** A positive number with [n] more binary places. *)
Definition shl (n : nat) (m : positive) : positive := Nat.iter n xO m.

(** The integer nearest to [m * 2^e * 10^f], the larger one on a tie. *)
Definition scaled_round (m : positive) (e : Z) (f : nat) : Z :=
  if 0 <=? e then Z.pos m * 2 ^ e * 10 ^ Z.of_nat f
  else (2 * Z.pos m * 10 ^ Z.of_nat f + 2 ^ (- e)) / 2 ^ (1 - e).

Definition pad_zeros (width : nat) (digits : string) : string :=
  String.concat "" (replicate (width - String.length digits) "0"%string) +:+ digits.

(** The decimal digits of [n], with a point before the last [f] of them. *)
Definition fixed_digits (f : nat) (n : Z) : string :=
  match f with
  | O => pretty n
  | _ => pretty (n / 10 ^ Z.of_nat f) +:+ "." +:+
         pad_zeros f (pretty (n mod 10 ^ Z.of_nat f))
  end.

Section Budget.
(** [Number.prototype.toString], which [toFixed] falls back to from 10^21
    on (exponent notation; not described here). *)
Variable Number_toString : float → string.

(** [x.toFixed(fractionDigits)], read on the exact value of the double. *)
Definition toFixed (fractionDigits : nat) (x : float) : string :=
  match Prim2SF x with
  | S754_nan => "NaN"
  | S754_infinity s => if s then "-Infinity" else "Infinity"
  | S754_zero _ => fixed_digits fractionDigits 0
  | S754_finite s m e =>
      if (0 <=? e) && (10 ^ 21 <=? Z.pos m * 2 ^ e) then Number_toString x
      else (if s then "-" else "") +:+
           fixed_digits fractionDigits (scaled_round m e fractionDigits)
  end.

(** [budgetItems.reduce((sum, item) => sum + item.plannedCost, 0)], in
    double arithmetic as the code computes it. *)
Definition totalPlanned (budgetItems : list BudgetItem) : float :=
  foldl (λ sum item, (sum + cost (plannedCost item))%float) 0%float budgetItems.

Definition totalActual (budgetItems : list BudgetItem) : float :=
  foldl (λ sum item, (sum + cost (actualCost item))%float) 0%float budgetItems.

(** [projectBudget - totalActual] *)
Definition profitLoss (projectBudget : Z) (budgetItems : list BudgetItem) : float :=
  (num projectBudget - totalActual budgetItems)%float.

(** The figure under the Profit/Loss amount, when there is a budget:
    [(profitLoss / projectBudget) * 100]. *)
Definition marginPercent (projectBudget : Z) (budgetItems : list BudgetItem) : float :=
  (profitLoss projectBudget budgetItems / num projectBudget * num 100)%float.

(** The line under the Profit/Loss amount. *)
Definition marginLine (projectBudget : Z) (budgetItems : list BudgetItem) : string :=
  if projectBudget >? 0
  then toFixed 1 (marginPercent projectBudget budgetItems) +:+ "% margin"
  else "No budget set".
End Budget.

(** ** The uniform view of the five PATCH handlers *)

(** The schema each PATCH handler parses with. *)
Definition update_schema (kind : Kind) : zschema :=
  match kind with
  | KProject => updateProjectSchema
  | KTask => updateTaskSchema
  | KContact => updateContactSchema
  | KBudgetItem => updateBudgetItemSchema
  | KCalendarEvent => updateCalendarEventSchema
  end.

(** The object each PATCH handler parses: the request body, with the date
    keys of the kind rewritten. *)
Definition patch_body (kind : Kind) (reqBody : obj) : obj :=
  match kind with
  | KProject => <["shootDate" := dateOrUndefined (prop reqBody "shootDate")]> reqBody
  | KTask => <["dueDate" := dateOrUndefined (prop reqBody "dueDate")]> reqBody
  | KContact | KBudgetItem => reqBody
  | KCalendarEvent =>
      <["endDate" := dateOrUndefined (prop reqBody "endDate")]>
        (<["startDate" := dateOrUndefined (prop reqBody "startDate")]> reqBody)
  end.

Definition invalid_response (kind : Kind) : response :=
  match kind with
  | KProject => JsonError 400 "Invalid project data"
  | KTask => JsonError 400 "Invalid task data"
  | KContact => JsonError 400 "Invalid contact data"
  | KBudgetItem => JsonError 400 "Invalid budget item data"
  | KCalendarEvent => JsonError 400 "Invalid calendar event data"
  end.

Definition not_found_response (kind : Kind) : response :=
  match kind with
  | KProject => JsonError 404 "Project not found"
  | KTask => JsonError 404 "Task not found"
  | KContact => JsonError 404 "Contact not found"
  | KBudgetItem => JsonError 404 "Budget item not found"
  | KCalendarEvent => JsonError 404 "Calendar event not found"
  end.

(** The keys no update may change. *)
Definition protected_keys : list string := ["id"; "createdAt"; "projectId"].

(** A request body without those keys. *)
Definition without_protected (reqBody : obj) : obj :=
  delete "id" (delete "createdAt" (delete "projectId" reqBody)).

(** ** A small running store, for the examples *)

(** A generator that hands out "0", "1", "2", ... and a clock that starts on
    2025-06-01T00:00:00Z. *)
Definition sample_uuid (n : nat) : string := pretty n.
Definition sample_clock (n : nat) : Z := 1748736000000 + Z.of_nat n.

(** A wedding project "0" with its thirteen seeded tasks "1" to "13", a
    blank project "14", and one task "15", one contact "16", one budget item
    "17" and one calendar event "18" spread over the two. *)
Definition sample_ops : list Op :=
  [ CreateProject {[ "name" := VStr "Anna and Ben"; "type" := VStr "Wedding";
                     "shootDate" := VDate 1750000000000; "budget" := VNum 5000 ]};
    CreateProject {[ "name" := VStr "Headshots"; "type" := VStr "Blank" ]};
    CreateTask {[ "projectId" := VStr "14"; "title" := VStr "Call the studio";
                  "section" := VStr "General"; "status" := VStr "To Do" ]};
    CreateContact {[ "projectId" := VStr "0"; "name" := VStr "Anna";
                     "role" := VStr "Client" ]};
    CreateBudgetItem {[ "projectId" := VStr "14"; "description" := VStr "Studio";
                        "plannedCost" := VNum 300; "actualCost" := VNum 250 ]};
    CreateCalendarEvent {[ "projectId" := VStr "0"; "title" := VStr "Venue visit";
                           "type" := VStr "Meeting";
                           "startDate" := VDate 1749000000000 ]} ].

Definition sample_store : MemStorage :=
  (run sample_uuid sample_clock sample_ops emptyStorage).2.

(** The wedding project "0" and the task "15" as [sample_store] holds them. *)
Definition sample_wedding : obj :=
  {[ "id" := VStr "0"; "createdAt" := VDate 1748736000000;
     "name" := VStr "Anna and Ben"; "type" := VStr "Wedding";
     "shootDate" := VDate 1750000000000; "budget" := VNum 5000 ]}.

Definition sample_task : obj :=
  {[ "id" := VStr "15"; "createdAt" := VDate 1748736000015;
     "projectId" := VStr "14"; "title" := VStr "Call the studio";
     "section" := VStr "General"; "status" := VStr "To Do" ]}.

(** A second wedding, about to be created in [sample_store]. *)
Definition sample_insertProject : obj :=
  {[ "name" := VStr "Clara and Dan"; "type" := VStr "Wedding" ]}.

(** ** More of the store: the create methods of the dependent kinds, seen
       uniformly *)

Section Inserting.
Variable randomUUID : nat → string.
Variable clock : nat → Z.

(** [createTask], [createContact], [createBudgetItem], [createCalendarEvent]. *)
Definition store_insert (d : Dependent) (payload : obj) (s : MemStorage)
  : obj * MemStorage :=
  match d with
  | DTask => createTask randomUUID clock payload s
  | DContact => createContact randomUUID payload s
  | DBudgetItem => createBudgetItem randomUUID payload s
  | DCalendarEvent => createCalendarEvent randomUUID payload s
  end.

(** The record each of them builds: [{ ...payload, id }], with [createdAt]
    for a task. *)
Definition inserted_record (d : Dependent) (payload : obj) (n : nat) : obj :=
  match d with
  | DTask => <["createdAt" := VDate (clock n)]> (<["id" := VStr (randomUUID n)]> payload)
  | _ => <["id" := VStr (randomUUID n)]> payload
  end.
End Inserting.

(** No record of a dependent collection names [id] as its project. *)
Definition unreferenced (id : string) (s : MemStorage) : Prop :=
  ∀ d r, r ∈ store_list (kind_of d) s → ¬ owned_by id r.

(** ** More of the boundary: the POST handlers, seen uniformly *)

(** The schema each POST handler parses with. *)
Definition insert_schema (kind : Kind) : zschema :=
  match kind with
  | KProject => insertProjectSchema
  | KTask => insertTaskSchema
  | KContact => insertContactSchema
  | KBudgetItem => insertBudgetItemSchema
  | KCalendarEvent => insertCalendarEventSchema
  end.

(** The keys whose value a handler of the kind replaces by
    [v ? new Date(v) : undefined] before parsing (the same keys in the POST
    and in the PATCH handler). *)
Definition date_keys (kind : Kind) : list string :=
  match kind with
  | KProject => ["shootDate"]
  | KTask => ["dueDate"]
  | KContact | KBudgetItem => []
  | KCalendarEvent => ["startDate"; "endDate"]
  end.

(** The keys a schema insists on. *)
Definition required_keys (shape : zschema) : list string :=
  fkey <$> base.filter (λ f, foptional f = false) shape.

(** An answer with a 4xx status. *)
Definition is_error (r : response) : Prop :=
  match r with JsonError _ _ => True | _ => False end.

(** ** client: the lists the pages derive from the fetched records *)

(** [Array.prototype.sort(compareFn)].  The built-in sort is stable; for a
    comparator that is a difference of keys its result is the one of this
    insertion sort: an element goes before the first later element it does
    not compare greater than. *)
Section Array_sort.
Context {A : Type}.
Variable compareFn : A → A → Z.

Fixpoint Array_insert (a : A) (l : list A) : list A :=
  match l with
  | [] => [a]
  | b :: l' => if compareFn a b <=? 0 then a :: b :: l' else b :: Array_insert a l'
  end.

Definition Array_sort (l : list A) : list A := foldr Array_insert [] l.
End Array_sort.

(** [new Date(t.dueDate!).getTime()]; [new Date(null)] is the epoch. *)
Definition dueTime (t : Task) : Z := default 0 (task_dueDate t).

(** [t.dueDate && t.status !== "Completed"] *)
Definition openDeadline (t : Task) : Prop :=
  is_Some (task_dueDate t) ∧ task_status t ≠ "Completed".

#[global] Instance openDeadline_dec (t : Task) : Decision (openDeadline t).
Proof. unfold openDeadline. apply _. Defined.

(** client/src/pages/dashboard.tsx *)
Module Dashboard.
Section Dashboard.
Variable projects : list Project.
Variable allTasks : list Task.
Variable allEvents : list CalendarEvent.
(** [new Date()] at the time of rendering *)
Variable now : Z.

Definition upcomingDeadlines : list Task :=
  take 5 (Array_sort (λ a b, dueTime a - dueTime b) (base.filter openDeadline allTasks)).

(** date-fns [isAfter(date, dateToCompare)]: [date > dateToCompare] *)
Definition upcomingEvents : list CalendarEvent :=
  take 3 (Array_sort (λ a b, event_startDate a - event_startDate b)
            (base.filter (λ e, now < event_startDate e) allEvents)).

Definition recentProjects : list Project :=
  take 6 (Array_sort (λ a b, project_createdAt b - project_createdAt a) projects).

(** The number on the "Upcoming Events" card, captioned "Next 7 days". *)
Definition upcomingEventsCount : nat := length upcomingEvents.
End Dashboard.
End Dashboard.

(** client/src/pages/project-detail.tsx *)
Module ProjectDetail.
Section ProjectDetail.
Variable tasks : list Task.

Definition upcomingDeadlines : list Task :=
  take 3 (Array_sort (λ a b, dueTime a - dueTime b) (base.filter openDeadline tasks)).
End ProjectDetail.
End ProjectDetail.

(** client/src/components/task-management.tsx *)
Definition sections : list string :=
  ["Pre-Production"; "Shoot Day"; "Post-Production"; "General"].

Definition tasksBySection (tasks : list Task) : list (string * list Task) :=
  (λ section, (section, base.filter (λ task, task_section task = section) tasks))
    <$> sections.

(** The two numbers of "[n] of [m] tasks completed". *)
Definition completedOf (tasks : list Task) : nat * nat :=
  (length (base.filter (λ t, task_status t = "Completed") tasks), length tasks).

(** ** client/src/pages/calendar.tsx: the week view and the navigation *)

(** The view: ["month" | "week" | "day"]; the direction: ["prev" | "next"]. *)
Inductive View := ViewMonth | ViewWeek | ViewDay.
Inductive Direction := Prev | Next.

Section Calendar_views.
Variable LocalTZA : Z → Z.
(** ECMAScript [UTC(t)]: the instant at which the local clock reads the time
    value [t]; for a reading that a clock change skips or repeats, the
    instant the engine picks. *)
Variable UTC : Z → Z.
Variable allEvents : list CalendarEvent.
Variable allTasks : list Task.
Variable projects : list Project.
(** date-fns [addMonths], which the week and day views do not use *)
Variable addMonths : Z → Z → Z.

(** [date.getDay()], Sunday being 0: 1970-01-01 was a Thursday. *)
Definition getDay (date : Z) : Z := (localDay LocalTZA date + 4) mod 7.

(** [date.setDate(date.getDate() + n)]: the reading of the clock [n] local
    days later, with the same time of day. *)
Definition setDate_plus (date n : Z) : Z :=
  UTC ((localDay LocalTZA date + n) * msPerDay + LocalTime LocalTZA date mod msPerDay).

(** [date.setHours(0, 0, 0, 0)] and [date.setHours(23, 59, 59, 999)] *)
Definition setHours_first (date : Z) : Z := UTC (localDay LocalTZA date * msPerDay).
Definition setHours_last (date : Z) : Z :=
  UTC (localDay LocalTZA date * msPerDay + (msPerDay - 1)).

(** date-fns [addDays]: nothing is done for an amount of 0. *)
Definition addDays (date amount : Z) : Z :=
  if amount =? 0 then date else setDate_plus date amount.
Definition addWeeks (date amount : Z) : Z := addDays date (amount * 7).
Definition subDays (date amount : Z) : Z := addDays date (- amount).
Definition subWeeks (date amount : Z) : Z := addWeeks date (- amount).

(** date-fns [startOfWeek] and [endOfWeek] with the default
    [weekStartsOn: 0]: [setDate] to the Sunday on or before the date, then
    [setHours] to the start of the day; [setDate] to the Saturday on or after
    it, then [setHours] to the last millisecond of the day. *)
Definition startOfWeek (date : Z) : Z :=
  let diff := getDay date in
  setHours_first (setDate_plus date (- diff)).
Definition endOfWeek (date : Z) : Z :=
  let diff := 6 - getDay date in
  setHours_last (setDate_plus date diff).

(** The loop of date-fns [eachDayOfInterval]: while the current date is not
    after the end, push it and move it to the start of the next local day.
    [None] when the fuel does not suffice. *)
Fixpoint eachDay_loop (fuel : nat) (currentDate endTime : Z) : option (list Z) :=
  if endTime <? currentDate then Some []
  else match fuel with
       | O => None
       | S fuel' =>
           (currentDate ::.) <$>
             eachDay_loop fuel' (setHours_first (setDate_plus currentDate 1)) endTime
       end.

(** date-fns [eachDayOfInterval]; for a start after the end ([RangeError]
    in date-fns 2, the reversed days in date-fns 3) the result is [None] as
    well: the views do not call it so. *)
Definition eachDayOfInterval (fuel : nat) (start end_ : Z) : option (list Z) :=
  if end_ <? start then None else eachDay_loop fuel (setHours_first start) end_.

(** The cells of [renderWeekView], left to right: the day of the cell and
    the cards in it; the empty list of cards stands for "No events". *)
Definition renderWeekView (fuel : nat) (currentDate : Z)
  : option (list (Z * list TimelineItem)) :=
  let weekStart := startOfWeek currentDate in
  let weekEnd := endOfWeek currentDate in
  let days := eachDayOfInterval fuel weekStart weekEnd in
  (λ days : list Z,
     (λ day, (day, getAllEventsForDate LocalTZA allEvents allTasks projects day)) <$> days)
    <$> days.

(** [navigateDate]: the new [currentDate]. *)
Definition navigateDate (view : View) (direction : Direction) (currentDate : Z) : Z :=
  match view with
  | ViewMonth =>
      match direction with
      | Prev => addMonths currentDate (-1)
      | Next => addMonths currentDate 1
      end
  | ViewWeek =>
      match direction with
      | Prev => subWeeks currentDate 1
      | Next => addWeeks currentDate 1
      end
  | ViewDay =>
      match direction with
      | Prev => subDays currentDate 1
      | Next => addDays currentDate 1
      end
  end.
End Calendar_views.

(** ** More records of the running store *)

(** The budget item "17" and the calendar event "18" as [sample_store] holds
    them. *)
Definition sample_budget_item : obj :=
  {[ "id" := VStr "17"; "projectId" := VStr "14"; "description" := VStr "Studio";
     "plannedCost" := VNum 300; "actualCost" := VNum 250 ]}.

Definition sample_event : obj :=
  {[ "id" := VStr "18"; "projectId" := VStr "0"; "title" := VStr "Venue visit";
     "type" := VStr "Meeting"; "startDate" := VDate 1749000000000 ]}.

(** A contact and a budget item about to be created in [sample_store]. *)
Definition sample_insertContact : obj :=
  {[ "projectId" := VStr "14"; "name" := VStr "Ben"; "role" := VStr "Assistant" ]}.

Definition sample_insertBudgetItem : obj :=
  {[ "projectId" := VStr "0"; "description" := VStr "Flowers";
     "plannedCost" := VNum 400 ]}.

(** A project whose type names a method every object inherits. *)
Definition sample_odd_project : obj :=
  {[ "name" := VStr "Odd"; "type" := VStr "constructor" ]}.

(** Some requests on the running store, valid and not. *)
Definition sample_requests : list request :=
  [ POST KTask {[ "projectId" := VStr "0"; "title" := VStr "Pack the bags" ]};
    POST KContact {[ "name" := VStr "Nobody" ]};
    PATCH KTask "15" {[ "status" := VStr "Completed" ]};
    POST KProject sample_odd_project;
    DELETE KProject "0";
    DELETE KTask "1" ].
(** A decidable proposition on closed data: decide it by computing. *)
Ltac by_compute := apply (bool_decide_unpack _); vm_compute; exact I.

(** ** Facts about the insertion-ordered map *)

Section JsMap_facts.
Context {V : Type}.
Implicit Types (m : JsMap V) (k : string) (v : V).

Lemma Map_remove_filter k m :
  Map_remove k m = base.filter (λ e, e.1 ≠ k) m.
Proof.
  induction m as [|[k' v'] m IH]; [done|].
  cbn [Map_remove]. rewrite filter_cons. cbn [fst].
  destruct (String.eqb_spec k' k) as [->|Hne].
  - rewrite decide_False by (intros H; by apply H). done.
  - rewrite decide_True by done. by rewrite IH.
Qed.

Lemma Map_get_None k m : Map_get k m = None ↔ k ∉ Map_keys m.
Proof.
  induction m as [|[k' v'] m IH]; cbn.
  - split; [intros _; apply not_elem_of_nil | done].
  - destruct (String.eqb_spec k' k) as [->|Hne].
    + split; [done | intros []; by left].
    + rewrite IH. unfold Map_keys. rewrite not_elem_of_cons.
      split; [intros H; split; [congruence | done] | by intros [_ H]].
Qed.

Lemma Map_get_Some_elem k v m : Map_get k m = Some v → (k, v) ∈ m.
Proof.
  induction m as [|[k' v'] m IH]; cbn; [done|].
  destruct (String.eqb_spec k' k) as [->|Hne].
  - intros [= ->]. by left.
  - intros. right. auto.
Qed.

Lemma Map_elem_get k v m : NoDup (Map_keys m) → (k, v) ∈ m → Map_get k m = Some v.
Proof.
  induction m as [|[k' v'] m IH]; cbn; [by intros _ ?%elem_of_nil|].
  intros [Hk Hm]%NoDup_cons Hin. apply elem_of_cons in Hin as [Heq|Hin].
  - injection Heq as -> ->. by rewrite String.eqb_refl.
  - destruct (String.eqb_spec k' k) as [->|Hne]; [|by apply IH].
    destruct Hk. by apply (list_elem_of_fmap_2 fst _ (k, v)).
Qed.

Lemma Map_remove_absent k m : Map_get k m = None → Map_remove k m = m.
Proof.
  induction m as [|[k' v'] m IH]; cbn; [done|].
  destruct (String.eqb k' k); [done|]. intros. by rewrite IH.
Qed.

Lemma Map_get_remove k k' m :
  Map_get k' (Map_remove k m) = if decide (k = k') then None else Map_get k' m.
Proof.
  induction m as [|[k0 v0] m IH]; cbn; [by case_decide|].
  destruct (String.eqb_spec k0 k) as [->|Hne].
  - rewrite IH. case_decide as Hk; [done|].
    by rewrite (proj2 (String.eqb_neq k k')).
  - cbn. destruct (String.eqb_spec k0 k') as [->|Hne']; [|done].
    by rewrite decide_False by congruence.
Qed.

Lemma Map_get_set k k' v m :
  Map_get k' (Map_set k v m) = if decide (k = k') then Some v else Map_get k' m.
Proof.
  induction m as [|[k0 v0] m IH]; cbn.
  - destruct (String.eqb_spec k k'); by case_decide.
  - destruct (String.eqb_spec k0 k) as [->|Hne]; cbn.
    + destruct (String.eqb_spec k k'); by case_decide.
    + destruct (String.eqb_spec k0 k') as [->|Hne'].
      * by rewrite decide_False by congruence.
      * apply IH.
Qed.

Lemma Map_set_fresh k v m : Map_get k m = None → Map_set k v m = m ++ [(k, v)].
Proof.
  induction m as [|[k' v'] m IH]; cbn; [done|].
  destruct (String.eqb k' k); [done|]. intros. by rewrite IH.
Qed.

Lemma Map_keys_set k v m :
  Map_keys (Map_set k v m) =
    if Map_has k m then Map_keys m else Map_keys m ++ [k].
Proof.
  unfold Map_has. induction m as [|[k' v'] m IH]; cbn; [done|].
  destruct (String.eqb_spec k' k) as [->|Hne]; cbn; [done|].
  fold (Map_keys (Map_set k v m)). rewrite IH.
  by destruct (Map_get k m).
Qed.

Lemma Map_keys_remove k m :
  Map_keys (Map_remove k m) = base.filter (λ k', k' ≠ k) (Map_keys m).
Proof.
  unfold Map_keys. induction m as [|[k' v'] m IH]; [done|].
  cbn [Map_remove]. rewrite fmap_cons, filter_cons. cbn [fst].
  destruct (String.eqb_spec k' k) as [->|Hne].
  - by rewrite decide_False by (intros H; by apply H).
  - rewrite decide_True by done. by rewrite fmap_cons, IH.
Qed.

Lemma Map_set_NoDup k v m : NoDup (Map_keys m) → NoDup (Map_keys (Map_set k v m)).
Proof.
  intros Hm. rewrite Map_keys_set. unfold Map_has.
  destruct (Map_get k m) eqn:Hk; [done|].
  apply NoDup_app. split_and!; [done| |apply NoDup_singleton].
  intros k' Hin ->%list_elem_of_singleton. by apply Map_get_None in Hk.
Qed.

Lemma Map_remove_NoDup k m : NoDup (Map_keys m) → NoDup (Map_keys (Map_remove k m)).
Proof. intros. rewrite Map_keys_remove. by apply NoDup_filter. Qed.

End JsMap_facts.

(** ** Facts about objects *)

Lemma spread_lookup (a b : obj) (k : string) :
  spread a b !! k = match b !! k with Some v => Some v | None => a !! k end.
Proof. unfold spread. rewrite lookup_union. by destruct (b !! k), (a !! k). Qed.

Lemma prop_spread (a b : obj) (k : string) :
  prop (spread a b) k = match b !! k with Some v => v | None => prop a k end.
Proof. unfold prop. rewrite spread_lookup. by destruct (b !! k). Qed.

Lemma prop_insert_eq (o : obj) (k : string) (v : val) : prop (<[k := v]> o) k = v.
Proof. unfold prop. by rewrite lookup_insert_eq. Qed.

Lemma prop_insert_ne (o : obj) (k k' : string) (v : val) :
  k ≠ k' → prop (<[k := v]> o) k' = prop o k'.
Proof. intros. unfold prop. by rewrite lookup_insert_ne. Qed.

Lemma prop_created_id (o : obj) (t id : val) :
  prop (<["createdAt" := t]> (<["id" := id]> o)) "id" = id.
Proof. by rewrite prop_insert_ne, prop_insert_eq. Qed.

Lemma strict_eq_str_true (v : val) (s : string) :
  strict_eq_str v s = true ↔ v = VStr s.
Proof.
  destruct v; cbn; try (split; [discriminate | congruence]).
  rewrite String.eqb_eq. split; congruence.
Qed.

Lemma byProject_filter id (m : JsMap obj) :
  byProject id m = base.filter (owned_by id) (Map_values m).
Proof. unfold byProject. apply list_filter_iff. intros r. apply strict_eq_str_true. Qed.

Lemma filter_iff_on {A} (P Q : A → Prop) `{!∀ x, Decision (P x), !∀ x, Decision (Q x)}
    (l : list A) :
  (∀ x, x ∈ l → P x ↔ Q x) → base.filter P l = base.filter Q l.
Proof.
  induction l as [|x l IH]; intros Hl; [done|].
  rewrite !filter_cons, IH by (intros; apply Hl; by right).
  destruct (decide (P x)) as [HP|HP], (decide (Q x)) as [HQ|HQ]; try done.
  - destruct HQ. by apply (Hl x); [left|].
  - destruct HP. by apply (Hl x); [left|].
Qed.

Lemma Forall_filter {A} (P Q : A → Prop) `{!∀ x, Decision (P x)} (l : list A) :
  Forall Q l → Forall Q (base.filter P l).
Proof.
  rewrite !Forall_forall. intros Hl x Hx. apply Hl.
  by apply list_elem_of_filter in Hx as [_ Hx].
Qed.

Lemma foldl_Map_delete_val (rs : list obj) (m : JsMap obj) :
  foldl (λ m' r, Map_delete_val (prop r "id") m') m rs =
  base.filter (λ e, VStr e.1 ∉ (λ r, prop r "id") <$> rs) m.
Proof.
  revert m. induction rs as [|r rs IH]; intros m; cbn [foldl].
  - rewrite fmap_nil. induction m as [|e m IHm]; [done|].
    rewrite filter_cons, decide_True by apply not_elem_of_nil. by rewrite <- IHm.
  - rewrite IH. unfold Map_delete_val. destruct (prop r "id") eqn:Hid;
      cbn [Map_delete snd]; rewrite ?Map_remove_filter, ?list_filter_filter;
      apply list_filter_iff; intros e; rewrite fmap_cons, Hid, not_elem_of_cons;
      try (split; [by intros ?; split | by intros [_ ?]]).
    split; [intros [? ?]; split; [congruence | done]|].
    intros [? ?]; split; [done | congruence].
Qed.

(** On a well-formed collection the sweep removes the records of the
    project and nothing else, keeping the order of the rest. *)
Lemma sweep_wf id (m : JsMap obj) :
  Map_wf m → sweep id m = base.filter (λ e, ¬ owned_by id e.2) m.
Proof.
  intros [Hnd Hid]. unfold sweep. rewrite foldl_Map_delete_val.
  fold (byProject id m). rewrite byProject_filter.
  unfold Map_keys in Hnd.
  induction m as [|[k r] m IH]; [done|].
  rewrite fmap_cons in Hnd.
  apply NoDup_cons in Hnd as [Hk Hnd]. apply Forall_cons in Hid as [Hr Hid].
  cbn [fst snd] in Hr, Hk. specialize (IH Hnd Hid).
  rewrite !filter_cons. cbn [fst snd].
  assert (Hmem : ∀ (k' : string) (rs : list obj),
    VStr k' ∈ (λ r0, prop r0 "id") <$> base.filter (owned_by id) (r :: rs)
    ↔ (owned_by id r ∧ k' = k) ∨
      VStr k' ∈ (λ r0, prop r0 "id") <$> base.filter (owned_by id) rs).
  { intros k' rs. rewrite filter_cons. case_decide as Ho.
    - rewrite fmap_cons, elem_of_cons, Hr.
      split; (intros [Hl|?]; [left|by right]); [split; congruence | by destruct Hl as [_ ->]].
    - tauto. }
  assert (Htail : VStr k ∉ (λ r0, prop r0 "id") <$> base.filter (owned_by id) (Map_values m)).
  { intros (r' & Hr' & Hin)%list_elem_of_fmap.
    apply list_elem_of_filter in Hin as [_ Hin].
    apply list_elem_of_fmap in Hin as ([k' r''] & -> & Hin).
    rewrite Forall_forall in Hid. specialize (Hid _ Hin). cbn in Hid, Hr'.
    rewrite Hid in Hr'. injection Hr' as ->.
    apply Hk. by apply (list_elem_of_fmap_2 fst _ (k', r'')). }
  assert (Hrest : ∀ e, e ∈ m → e.1 ≠ k).
  { intros e He Hek. apply Hk. rewrite <- Hek. by apply list_elem_of_fmap_2. }
  unfold Map_values in *. rewrite fmap_cons. cbn [snd].
  destruct (decide (owned_by id r)) as [Ho|Ho].
  - rewrite decide_False by (rewrite Hmem; tauto).
    rewrite decide_False by tauto.
    rewrite <- IH. apply filter_iff_on. intros e He. rewrite Hmem.
    specialize (Hrest e He). tauto.
  - rewrite decide_True by (rewrite Hmem; tauto).
    rewrite decide_True by done. f_equal.
    rewrite <- IH. apply filter_iff_on. intros e He. rewrite Hmem. tauto.
Qed.

Lemma Map_get_filter {V} (P : string * V → Prop) `{!∀ e, Decision (P e)}
    (k : string) (v : V) (m : JsMap V) :
  Map_get k m = Some v → P (k, v) → Map_get k (base.filter P m) = Some v.
Proof.
  intros Hget HP. induction m as [|[k' v'] m IH]; [done|].
  cbn [Map_get] in Hget. rewrite filter_cons.
  destruct (String.eqb_spec k' k) as [->|Hne].
  - injection Hget as ->. rewrite decide_True by done. cbn. by rewrite String.eqb_refl.
  - case_decide; [|by apply IH]. cbn.
    rewrite (proj2 (String.eqb_neq k' k)) by done. by apply IH.
Qed.

Lemma store_get_collection kind id s : store_get kind id s = Map_get id (collection kind s).
Proof. by destruct kind. Qed.

Lemma store_list_collection kind s : store_list kind s = Map_values (collection kind s).
Proof. by destruct kind. Qed.

Lemma store_listByProject_collection d id s :
  store_listByProject d id s = byProject id (collection (kind_of d) s).
Proof. by destruct d. Qed.

(** ** Deleting *)

Lemma deleteProject_absent id s :
  getProject id s = None → deleteProject id s = (false, s).
Proof.
  unfold getProject, deleteProject, Map_delete, Map_has. intros Hnone.
  rewrite Hnone, Map_remove_absent by done. by destruct s.
Qed.

Lemma deleteProject_present id P s :
  getProject id s = Some P →
  deleteProject id s =
    (true, mkStorage (Map_remove id (projects s)) (sweep id (tasks s))
             (sweep id (contacts s)) (sweep id (budgetItems s))
             (sweep id (calendarEvents s)) (uuidCalls s)).
Proof.
  unfold getProject, deleteProject, Map_delete, Map_has. intros Hsome.
  by rewrite Hsome.
Qed.

Lemma getProject_deleteProject id s : getProject id (deleteProject id s).2 = None.
Proof.
  destruct (getProject id s) as [P|] eqn:Hget.
  - rewrite (deleteProject_present _ _ _ Hget). unfold getProject. cbn.
    rewrite Map_get_remove. by rewrite decide_True.
  - by rewrite deleteProject_absent.
Qed.

Lemma store_delete_absent kind id s :
  store_get kind id s = None → store_delete kind id s = (false, s).
Proof.
  destruct kind; cbn; [apply deleteProject_absent|..];
    unfold getTask, deleteTask, getContact, deleteContact, getBudgetItem,
      deleteBudgetItem, getCalendarEvent, deleteCalendarEvent, Map_delete, Map_has;
    intros Hnone; rewrite Hnone, Map_remove_absent by done; by destruct s.
Qed.

Lemma store_get_store_delete kind id s :
  store_get kind id (store_delete kind id s).2 = None.
Proof.
  destruct kind; cbn; [apply getProject_deleteProject|..];
    unfold getTask, deleteTask, getContact, deleteContact, getBudgetItem,
      deleteBudgetItem, getCalendarEvent, deleteCalendarEvent, Map_delete;
    cbn; rewrite Map_get_remove; by rewrite decide_True.
Qed.

(** C8. Deleting an id that is absent from its collection reports [false]
    and returns the very store it was given (for a project: no sweep of the
    dependent collections has run); hence a second delete of the same id,
    of any kind, reports [false] and changes nothing. *)
Theorem delete_absent_is_noop (kind : Kind) (id : string) (s : MemStorage) :
  (store_get kind id s = None → store_delete kind id s = (false, s)) ∧
  store_delete kind id (store_delete kind id s).2 = (false, (store_delete kind id s).2).
Proof.
  split; [apply store_delete_absent|].
  apply store_delete_absent, store_get_store_delete.
Qed.

Lemma byProject_filter_not_owned id (m : JsMap obj) :
  byProject id (base.filter (λ e, ¬ owned_by id e.2) m) = [].
Proof.
  rewrite byProject_filter. unfold Map_values.
  induction m as [|[k r] m IH]; [done|].
  rewrite filter_cons. cbn [snd]. case_decide as Ho; [|done].
  rewrite fmap_cons, filter_cons. cbn [snd]. by rewrite decide_False.
Qed.

(** C1. Deleting a project that is present (in a store where every record
    sits under its own id) reports [true]; afterwards the project cannot be
    fetched and [listByProject] is empty for the four dependent kinds; each
    dependent collection is the old one without the records of that project,
    in the old order; every other project and every dependent record owned by
    another project is still fetched, unchanged, under the same id. *)
Theorem deleteProject_cascade (id : string) (P : obj) (s : MemStorage) :
  storage_wf s →
  getProject id s = Some P →
  ∃ s', deleteProject id s = (true, s') ∧
    getProject id s' = None ∧
    (∀ d, store_listByProject d id s' = []) ∧
    (∀ d, collection (kind_of d) s' =
            base.filter (λ e, ¬ owned_by id e.2) (collection (kind_of d) s)) ∧
    projects s' = base.filter (λ e, e.1 ≠ id) (projects s) ∧
    (∀ q, q ≠ id → getProject q s' = getProject q s) ∧
    (∀ d k r, store_get (kind_of d) k s = Some r → ¬ owned_by id r →
              store_get (kind_of d) k s' = Some r).
Proof.
  intros (_ & Ht & Hc & Hb & He) Hget.
  eexists. split; [by apply (deleteProject_present _ P)|].
  assert (Hsweep : ∀ d,
    collection (kind_of d)
      (mkStorage (Map_remove id (projects s)) (sweep id (tasks s))
         (sweep id (contacts s)) (sweep id (budgetItems s))
         (sweep id (calendarEvents s)) (uuidCalls s)) =
    base.filter (λ e, ¬ owned_by id e.2) (collection (kind_of d) s)).
  { intros []; cbn; by apply sweep_wf. }
  split_and!.
  - unfold getProject. cbn. rewrite Map_get_remove. by rewrite decide_True.
  - intros d. rewrite store_listByProject_collection, Hsweep.
    apply byProject_filter_not_owned.
  - done.
  - cbn. apply Map_remove_filter.
  - intros q Hq. unfold getProject. cbn. rewrite Map_get_remove.
    by rewrite decide_False by congruence.
  - intros d k r Hr Hown. rewrite store_get_collection in *. rewrite Hsweep.
    by apply (Map_get_filter (λ e, ¬ owned_by id e.2)).
Qed.

(** ** Budget figures *)

(** *** Doubles that hold whole numbers *)

Lemma iter_pos_nat {A} (f : A → A) (p : positive) (x : A) :
  SpecFloat.iter_pos f p x = Nat.iter (Pos.to_nat p) f x.
Proof.
  revert x. induction p as [p IH|p IH|]; intros x; cbn [SpecFloat.iter_pos].
  - rewrite !IH, Pos2Nat.inj_xI.
    replace (S (2 * Pos.to_nat p))%nat with (Pos.to_nat p + (Pos.to_nat p + 1))%nat by lia.
    rewrite !Nat.iter_add. done.
  - rewrite !IH, Pos2Nat.inj_xO.
    replace (2 * Pos.to_nat p)%nat with (Pos.to_nat p + Pos.to_nat p)%nat by lia.
    by rewrite Nat.iter_add.
  - done.
Qed.

Lemma Pos_iter_shl (p : positive) (m : positive) :
  Pos.iter xO m p = shl (Pos.to_nat p) m.
Proof. apply Pos2Nat.inj_iter. Qed.

Lemma shl_add (n k : nat) (m : positive) : shl n (shl k m) = shl (n + k) m.
Proof. unfold shl. by rewrite Nat.iter_add. Qed.

Lemma Zpos_shl (n : nat) (m : positive) : Z.pos (shl n m) = Z.pos m * 2 ^ Z.of_nat n.
Proof.
  induction n as [|n IH]; [cbn; lia|].
  change (shl (S n) m) with (xO (shl n m)).
  rewrite Pos2Z.inj_xO, IH, Nat2Z.inj_succ, Z.pow_succ_r by lia. lia.
Qed.

Lemma digits2_shl (n : nat) (m : positive) :
  Z.pos (digits2_pos (shl n m)) = Z.pos (digits2_pos m) + Z.of_nat n.
Proof.
  induction n as [|n IH]; [cbn; lia|].
  change (shl (S n) m) with (xO (shl n m)). cbn [digits2_pos].
  rewrite Pos2Z.inj_succ, IH. lia.
Qed.

Lemma digits2_bounds (m : positive) :
  2 ^ (Z.pos (digits2_pos m) - 1) ≤ Z.pos m < 2 ^ Z.pos (digits2_pos m).
Proof.
  induction m as [m IH|m IH|]; cbn [digits2_pos]; [| |cbn; lia].
  - rewrite Pos2Z.inj_succ, (Pos2Z.inj_xI m).
    replace (Z.succ (Z.pos (digits2_pos m)) - 1) with (Z.succ (Z.pos (digits2_pos m) - 1)) by lia.
    rewrite !Z.pow_succ_r by lia.
    generalize dependent (2 ^ (Z.pos (digits2_pos m) - 1)).
    generalize (2 ^ Z.pos (digits2_pos m)). intros; lia.
  - rewrite Pos2Z.inj_succ, (Pos2Z.inj_xO m).
    replace (Z.succ (Z.pos (digits2_pos m)) - 1) with (Z.succ (Z.pos (digits2_pos m) - 1)) by lia.
    rewrite !Z.pow_succ_r by lia.
    generalize dependent (2 ^ (Z.pos (digits2_pos m) - 1)).
    generalize (2 ^ Z.pos (digits2_pos m)). intros; lia.
Qed.

Lemma digits2_le (m : positive) (d : Z) :
  0 ≤ d → Z.pos m < 2 ^ d → Z.pos (digits2_pos m) ≤ d.
Proof.
  intros Hd Hm. destruct (Z.le_gt_cases (Z.pos (digits2_pos m)) d) as [|Hgt]; [done|].
  pose proof (digits2_bounds m) as [Hlo _].
  assert (2 ^ d ≤ 2 ^ (Z.pos (digits2_pos m) - 1)) by (apply Z.pow_le_mono_r; lia). lia.
Qed.

Lemma shr_1_shl (n : nat) (m : positive) :
  Nat.iter n shr_1 (Build_shr_record (Z.pos (shl n m)) false false) =
  Build_shr_record (Z.pos m) false false.
Proof.
  induction n as [|n IH]; [done|].
  rewrite Nat.iter_succ_r. change (shl (S n) m) with (xO (shl n m)). cbn [shr_1 orb].
  exact IH.
Qed.

Lemma fexp_normal (e : Z) : -1074 ≤ e → fexp FloatOps.prec FloatOps.emax (53 + e) = e.
Proof. intros He. unfold fexp, SpecFloat.emin, FloatOps.prec, FloatOps.emax. lia. Qed.

(** Rounding a mantissa that the first shift brings to 53 digits exactly. *)
Lemma binary_round_aux_exact (s : bool) (m : Z) (e : Z) (M : positive) (e' : Z) :
  shr_fexp FloatOps.prec FloatOps.emax m e loc_Exact = (Build_shr_record (Z.pos M) false false, e') →
  Z.pos (digits2_pos M) = 53 → -1074 ≤ e' ≤ 971 →
  binary_round_aux FloatOps.prec FloatOps.emax s m e loc_Exact = S754_finite s M e'.
Proof.
  intros Hshift Hdigits He. unfold binary_round_aux. rewrite Hshift.
  cbn [shr_m loc_of_shr_record round_nearest_even].
  unfold shr_fexp. cbn [Zdigits2 shr_record_of_loc]. rewrite Hdigits.
  rewrite fexp_normal by lia. rewrite Z.sub_diag. cbn [shr shr_m].
  replace (e' <=? FloatOps.emax - FloatOps.prec) with true; [done|].
  symmetry. apply Z.leb_le. unfold FloatOps.prec, FloatOps.emax. lia.
Qed.

(** A mantissa of at most 53 digits, given with [k] more binary places than
    needed, rounds to itself. *)
Lemma binary_round_shl (s : bool) (z : positive) (k : nat) :
  Z.pos (digits2_pos z) ≤ 53 →
  binary_round FloatOps.prec FloatOps.emax s (shl k z) (- Z.of_nat k) =
    S754_finite s (shl (Z.to_nat (53 - Z.pos (digits2_pos z))) z)
                (Z.pos (digits2_pos z) - 53).
Proof.
  intros Hd. set (d := Z.pos (digits2_pos z)) in *.
  assert (Hd1 : 1 ≤ d) by (unfold d; lia).
  assert (HM : Z.pos (digits2_pos (shl (Z.to_nat (53 - d)) z)) = 53)
    by (rewrite digits2_shl; fold d; lia).
  unfold binary_round. rewrite digits2_shl. fold d.
  replace (fexp FloatOps.prec FloatOps.emax (d + Z.of_nat k + - Z.of_nat k)) with (d - 53)
    by (unfold fexp, SpecFloat.emin, FloatOps.prec, FloatOps.emax; lia).
  unfold shl_align.
  destruct (d - 53 - - Z.of_nat k) as [|p|p] eqn:Hdiff.
  - (* already aligned *)
    assert (Hk : k = Z.to_nat (53 - d)) by lia.
    apply binary_round_aux_exact; [|done|lia].
    unfold shr_fexp. cbn [Zdigits2 shr_record_of_loc]. rewrite digits2_shl. fold d.
    replace (fexp FloatOps.prec FloatOps.emax (d + Z.of_nat k + - Z.of_nat k)) with (d - 53)
      by (unfold fexp, SpecFloat.emin, FloatOps.prec, FloatOps.emax; lia).
    rewrite Hdiff. cbn [shr]. rewrite <- Hk. f_equal. lia.
  - (* more places than needed: the shift drops zeros only *)
    apply binary_round_aux_exact; [|done|lia].
    unfold shr_fexp. cbn [Zdigits2 shr_record_of_loc]. rewrite digits2_shl. fold d.
    replace (fexp FloatOps.prec FloatOps.emax (d + Z.of_nat k + - Z.of_nat k)) with (d - 53)
      by (unfold fexp, SpecFloat.emin, FloatOps.prec, FloatOps.emax; lia).
    rewrite Hdiff. cbn [shr]. rewrite iter_pos_nat.
    replace k with (Pos.to_nat p + Z.to_nat (53 - d))%nat at 1 by lia.
    rewrite <- shl_add, shr_1_shl. f_equal. lia.
  - (* fewer places: align to the left *)
    rewrite Pos_iter_shl, shl_add.
    replace (Pos.to_nat p + k)%nat with (Z.to_nat (53 - d)) by lia.
    apply binary_round_aux_exact; [|done|lia].
    unfold shr_fexp. cbn [Zdigits2 shr_record_of_loc]. rewrite HM.
    rewrite fexp_normal by lia. by rewrite Z.sub_diag.
Qed.

Lemma digits2_safe (p : positive) : Z.pos p < 2 ^ 53 → Z.pos (digits2_pos p) ≤ 53.
Proof. apply digits2_le. lia. Qed.

(** The double nearest to a safe integer, as a specification float. *)
Lemma binary_normalize_safe_eq (z : Z) :
  z ≠ 0 → Z.abs z < 2 ^ 53 →
  binary_normalize FloatOps.prec FloatOps.emax z 0 false =
    S754_finite (z <? 0)
      (shl (Z.to_nat (53 - Z.pos (digits2_pos (Z.to_pos (Z.abs z))))) (Z.to_pos (Z.abs z)))
      (Z.pos (digits2_pos (Z.to_pos (Z.abs z))) - 53).
Proof.
  intros Hz Hsafe.
  destruct z as [|p|p]; [done|..]; cbn [binary_normalize Z.ltb Z.compare Z.abs Z.to_pos] in *.
  - exact (binary_round_shl false p 0 (digits2_safe p Hsafe)).
  - exact (binary_round_shl true p 0 (digits2_safe p Hsafe)).
Qed.

Lemma binary_normalize_safe (z : Z) :
  z ≠ 0 → Z.abs z < 2 ^ 53 →
  ∃ M e, binary_normalize FloatOps.prec FloatOps.emax z 0 false = S754_finite (z <? 0) M e ∧
         -52 ≤ e ≤ 0 ∧ Z.pos M = Z.abs z * 2 ^ (- e) ∧
         Z.pos (digits2_pos M) = 53.
Proof.
  intros Hz Hsafe. rewrite (binary_normalize_safe_eq z Hz Hsafe).
  set (p := Z.to_pos (Z.abs z)).
  assert (Hp : Z.pos p = Z.abs z) by (unfold p; lia).
  assert (Hd : Z.pos (digits2_pos p) ≤ 53) by (apply digits2_safe; lia).
  eexists _, _. split; [done|]. split; [lia|]. split.
  - rewrite Zpos_shl, Hp. do 2 f_equal. lia.
  - rewrite digits2_shl. lia.
Qed.

Lemma binary_normalize_valid (z : Z) :
  Z.abs z < 2 ^ 53 → valid_binary (binary_normalize FloatOps.prec FloatOps.emax z 0 false) = true.
Proof.
  intros Hsafe. destruct (decide (z = 0)) as [->|Hz]; [done|].
  destruct (binary_normalize_safe z Hz Hsafe) as (M & e & -> & He & _ & Hd).
  unfold SpecFloat.valid_binary, bounded, canonical_mantissa. rewrite Hd.
  rewrite fexp_normal by lia. rewrite Z.eqb_refl. cbn [andb].
  apply Z.leb_le. unfold FloatOps.prec, FloatOps.emax. lia.
Qed.

Lemma Prim2SF_num (z : Z) :
  Z.abs z < 2 ^ 53 → Prim2SF (num z) = binary_normalize FloatOps.prec FloatOps.emax z 0 false.
Proof. intros Hsafe. unfold num. by apply Prim2SF_SF2Prim, binary_normalize_valid. Qed.

(** The same integer given with [k] more binary places. *)
Lemma binary_normalize_shift (z k : Z) :
  Z.abs z < 2 ^ 53 → 0 ≤ k →
  binary_normalize FloatOps.prec FloatOps.emax (z * 2 ^ k) (- k) false =
  binary_normalize FloatOps.prec FloatOps.emax z 0 false.
Proof.
  intros Hsafe Hk.
  assert (Hp : ∀ s p, Z.pos p < 2 ^ 53 →
            binary_round FloatOps.prec FloatOps.emax s (shl (Z.to_nat k) p) (- k) =
            binary_round FloatOps.prec FloatOps.emax s p 0).
  { intros s p Hlt. pose proof (digits2_safe p Hlt) as Hd.
    rewrite <- (Z2Nat.id k) at 2 by done.
    rewrite (binary_round_shl s p (Z.to_nat k) Hd).
    symmetry. exact (binary_round_shl s p 0 Hd). }
  destruct z as [|p|p]; [done|..].
  - replace (Z.pos p * 2 ^ k) with (Z.pos (shl (Z.to_nat k) p))
      by (rewrite Zpos_shl, Z2Nat.id by done; done).
    by apply Hp.
  - replace (Z.neg p * 2 ^ k) with (Z.neg (shl (Z.to_nat k) p)).
    + by apply Hp.
    + rewrite <- !Pos2Z.opp_pos, Zpos_shl, Z2Nat.id by done. lia.
Qed.

Lemma shl_align_fst (mx : positive) (ex ez : Z) :
  ez ≤ ex → Z.pos (shl_align mx ex ez).1 = Z.pos mx * 2 ^ (ex - ez).
Proof.
  intros Hle. unfold shl_align. destruct (ez - ex) as [|p|p] eqn:Hdiff.
  - replace (ex - ez) with 0 by lia. cbn [fst]. lia.
  - lia.
  - cbn [fst]. rewrite Pos_iter_shl, Zpos_shl. do 2 f_equal. lia.
Qed.

Lemma cond_Zopp_abs (z m : Z) : 0 ≤ m → cond_Zopp (z <? 0) (Z.abs z * m) = z * m.
Proof. intros Hm. unfold cond_Zopp. destruct (Z.ltb_spec z 0); lia. Qed.

(** Aligning the double of a safe integer to a lower exponent. *)
Lemma aligned_safe (z : Z) (M : positive) (e ez : Z) :
  Z.pos M = Z.abs z * 2 ^ (- e) → e ≤ 0 → ez ≤ e →
  cond_Zopp (z <? 0) (Z.pos (shl_align M e ez).1) = z * 2 ^ (- ez).
Proof.
  intros HM He Hez. rewrite shl_align_fst, HM by done.
  rewrite <- Z.mul_assoc, <- Z.pow_add_r by lia.
  replace (- e + (e - ez)) with (- ez) by lia.
  apply cond_Zopp_abs. apply Z.pow_nonneg. lia.
Qed.

Lemma num_add (a b : Z) :
  Z.abs a < 2 ^ 53 → Z.abs b < 2 ^ 53 → Z.abs (a + b) < 2 ^ 53 →
  (num a + num b)%float = num (a + b).
Proof.
  intros Ha Hb Hab. apply Prim2SF_inj.
  rewrite add_spec, !Prim2SF_num by done. unfold SF64add.
  destruct (decide (b = 0)) as [->|Hzb].
  { rewrite Z.add_0_r. cbn [binary_normalize].
    destruct (decide (a = 0)) as [->|Hza]; [done|].
    by destruct (binary_normalize_safe a Hza Ha) as (Ma & ea & -> & _). }
  destruct (binary_normalize_safe b Hzb Hb) as (Mb & eb & Hnb & Heb & HMb & _).
  destruct (decide (a = 0)) as [->|Hza].
  { cbn [binary_normalize Z.add]. by rewrite Hnb. }
  rewrite Hnb.
  destruct (binary_normalize_safe a Hza Ha) as (Ma & ea & -> & Hea & HMa & _).
  cbn [SFadd].
  rewrite (aligned_safe a Ma ea (Z.min ea eb)), (aligned_safe b Mb eb (Z.min ea eb))
    by (done || lia).
  rewrite <- Z.mul_add_distr_r.
  rewrite <- (Z.opp_involutive (Z.min ea eb)) at 2.
  apply binary_normalize_shift; [done|lia].
Qed.

Lemma binary_normalize_opp (z : Z) :
  z ≠ 0 → Z.abs z < 2 ^ 53 →
  binary_normalize FloatOps.prec FloatOps.emax (- z) 0 false =
    SFopp (binary_normalize FloatOps.prec FloatOps.emax z 0 false).
Proof.
  intros Hz Hsafe.
  rewrite (binary_normalize_safe_eq z), (binary_normalize_safe_eq (- z)) by lia.
  rewrite Z.abs_opp. cbn [SFopp]. f_equal.
  destruct (Z.ltb_spec z 0), (Z.ltb_spec (- z) 0); done || lia.
Qed.

Lemma num_sub (a b : Z) :
  Z.abs a < 2 ^ 53 → Z.abs b < 2 ^ 53 → Z.abs (a - b) < 2 ^ 53 →
  (num a - num b)%float = num (a - b).
Proof.
  intros Ha Hb Hab. apply Prim2SF_inj.
  rewrite sub_spec, !Prim2SF_num by done. unfold SF64sub.
  destruct (decide (b = 0)) as [->|Hzb].
  { rewrite Z.sub_0_r. cbn [binary_normalize].
    destruct (decide (a = 0)) as [->|Hza]; [done|].
    by destruct (binary_normalize_safe a Hza Ha) as (Ma & ea & -> & _). }
  destruct (binary_normalize_safe b Hzb Hb) as (Mb & eb & Hnb & Heb & HMb & Hdb).
  destruct (decide (a = 0)) as [->|Hza].
  { rewrite Z.sub_0_l, binary_normalize_opp, Hnb by done. done. }
  rewrite Hnb.
  destruct (binary_normalize_safe a Hza Ha) as (Ma & ea & -> & Hea & HMa & _).
  cbn [SFsub].
  rewrite (aligned_safe a Ma ea (Z.min ea eb)), (aligned_safe b Mb eb (Z.min ea eb))
    by (done || lia).
  rewrite <- Z.mul_sub_distr_r.
  rewrite <- (Z.opp_involutive (Z.min ea eb)) at 2.
  apply binary_normalize_shift; [done|lia].
Qed.

Lemma nan_add_l (x : float) : (nan + x)%float = nan.
Proof. apply Prim2SF_inj. rewrite add_spec. done. Qed.

Lemma nan_add_r (x : float) : (x + nan)%float = nan.
Proof.
  apply Prim2SF_inj. rewrite add_spec.
  change (Prim2SF nan) with S754_nan. unfold SF64add. by destruct (Prim2SF x).
Qed.

Lemma nan_sub_r (x : float) : (x - nan)%float = nan.
Proof.
  apply Prim2SF_inj. rewrite sub_spec.
  change (Prim2SF nan) with S754_nan. unfold SF64sub. by destruct (Prim2SF x).
Qed.


(** *** The totals *)

(** Adding up whole amounts whose magnitudes stay below 2^53 is exact. *)
Lemma foldl_cost_sum {A} (f : A → option Z) (l : list A) (zs : list Z) (acc : Z) :
  f <$> l = Some <$> zs →
  Z.abs acc + foldr Z.add 0 (Z.abs <$> zs) < 2 ^ 53 →
  foldl (λ sum item, (sum + cost (f item))%float) (num acc) l =
    num (acc + foldr Z.add 0 zs).
Proof.
  revert zs acc. induction l as [|x l IH]; intros [|z zs] acc Hcosts Hsafe;
    try discriminate; cbn [foldl foldr fmap list_fmap] in *.
  - by rewrite Z.add_0_r.
  - injection Hcosts as Hx Hl. rewrite Hx. cbn [cost].
    assert (Hnonneg : 0 ≤ foldr Z.add 0 (Z.abs <$> zs)).
    { clear. induction zs as [|z' zs IH]; cbn; lia. }
    rewrite num_add by lia. rewrite (IH zs) by (done || lia). f_equal. lia.
Qed.

(** One amount missing, and the total is not a number. *)
Lemma foldl_cost_missing {A} (f : A → option Z) (l : list A) (acc : float) :
  (acc = nan ∨ ∃ x, x ∈ l ∧ f x = None) →
  foldl (λ sum item, (sum + cost (f item))%float) acc l = nan.
Proof.
  revert acc. induction l as [|y l IH]; intros acc [->|(x & Hin & Hx)]; cbn [foldl].
  - done.
  - by apply elem_of_nil in Hin.
  - apply IH. left. apply nan_add_l.
  - apply elem_of_cons in Hin as [<-|Hin].
    + apply IH. left. rewrite Hx. apply nan_add_r.
    + apply IH. right. by exists x.
Qed.

(** C5, as the code has it.  The totals are formed in double arithmetic.  For items
    that each carry a planned and an actual cost, as long as the magnitudes
    of the amounts add up to less than 2^53, [totalPlanned] and
    [totalActual] are the sums of [plannedCost] and of [actualCost] over the
    items, and [profitLoss] is the budget minus [totalActual]; for budget
    5000 and items (1000, 1200), (500, 300) the figures are 1500, 1500, 3500
    and the margin line reads 70.0%; with the first item alone the profit or
    loss is 3800, where the budget minus the planned total would be 4000. *)
Theorem budget_arithmetic (Number_toString : float → string)
    (projectBudget : Z) (budgetItems : list BudgetItem) (planned actual : list Z) :
  plannedCost <$> budgetItems = Some <$> planned →
  actualCost <$> budgetItems = Some <$> actual →
  foldr Z.add 0 (Z.abs <$> planned) < 2 ^ 53 →
  Z.abs projectBudget + foldr Z.add 0 (Z.abs <$> actual) < 2 ^ 53 →
  totalPlanned budgetItems = num (foldr Z.add 0 planned) ∧
  totalActual budgetItems = num (foldr Z.add 0 actual) ∧
  profitLoss projectBudget budgetItems = num (projectBudget - foldr Z.add 0 actual) ∧
  let items := [ mkBudgetItem "b1" "p" "studio" (Some 1000) (Some 1200) (Some "Paid") None;
                 mkBudgetItem "b2" "p" "assistant" (Some 500) (Some 300) (Some "Unpaid") None ] in
  totalPlanned items = num 1500 ∧ totalActual items = num 1500 ∧
  profitLoss 5000 items = num 3500 ∧
  marginLine Number_toString 5000 items = "70.0% margin" ∧
  let first := [ mkBudgetItem "b1" "p" "studio" (Some 1000) (Some 1200) (Some "Paid") None ] in
  profitLoss 5000 first = num 3800 ∧ (num 5000 - totalPlanned first)%float = num 4000.
Proof.
  intros Hplanned Hactual Hsafe_planned Hsafe_actual.
  assert (Hnonneg : ∀ zs, 0 ≤ foldr Z.add 0 (Z.abs <$> zs)).
  { intros zs. induction zs as [|z zs IH]; cbn; lia. }
  assert (Hbound : ∀ zs, Z.abs (foldr Z.add 0 zs) ≤ foldr Z.add 0 (Z.abs <$> zs)).
  { intros zs. induction zs as [|z zs IH]; cbn; lia. }
  assert (Hactual_sum : totalActual budgetItems = num (foldr Z.add 0 actual)).
  { unfold totalActual. change 0%float with (num 0).
    rewrite (foldl_cost_sum actualCost budgetItems actual 0 Hactual); [done|].
    pose proof (Hnonneg actual). lia. }
  split_and!.
  - unfold totalPlanned. change 0%float with (num 0).
    by rewrite (foldl_cost_sum plannedCost budgetItems planned 0 Hplanned).
  - exact Hactual_sum.
  - unfold profitLoss. rewrite Hactual_sum.
    pose proof (Hnonneg actual). pose proof (Hbound actual). apply num_sub; lia.
  - vm_compute. by repeat split.
Qed.

(** C5, as stated for every list of budget items, fails on the code in two
    ways.  An item created without costs is stored without them (the
    POST handler answers 201 and the record has neither key), and with such
    an item the totals are not numbers.  And past 2^53 the double sum is not
    the sum: 9007199254740992 and 1 and 1 add up to 9007199254740992. *)
Lemma budget_arithmetic_counterexample :
  (let record : obj :=
     {[ "id" := VStr "19"; "projectId" := VStr "14"; "description" := VStr "Lights" ]} in
   let answer :=
     post_budget_items sample_uuid
       {[ "projectId" := VStr "14"; "description" := VStr "Lights" ]} sample_store in
   answer.1 = Json 201 (toJSON record) ∧
   getBudgetItem "19" answer.2 = Some record ∧
   record !! "plannedCost" = None ∧ record !! "actualCost" = None) ∧
  (let items := [ mkBudgetItem "19" "14" "Lights" None None None None ] in
   totalPlanned items = nan ∧ totalActual items = nan ∧
   totalPlanned items ≠ num 0 ∧ profitLoss 5000 items = nan) ∧
  (let items := [ mkBudgetItem "b1" "p" "a" (Some 9007199254740992) (Some 0) (Some "Paid") None;
                  mkBudgetItem "b2" "p" "b" (Some 1) (Some 0) (Some "Paid") None;
                  mkBudgetItem "b3" "p" "c" (Some 1) (Some 0) (Some "Paid") None ] in
   totalPlanned items = num 9007199254740992 ∧
   totalPlanned items ≠ num (9007199254740992 + 1 + 1)).
Proof.
  split; [|split].
  - vm_compute. by repeat split.
  - cbv zeta. split_and!; [by vm_compute|by vm_compute| |by vm_compute].
    intros Heq. apply (f_equal Prim2SF) in Heq. vm_compute in Heq. discriminate.
  - cbv zeta. split; [by vm_compute|].
    intros Heq. apply (f_equal Prim2SF) in Heq. vm_compute in Heq. discriminate.
Qed.

(** C6. With a budget of 0 the margin line is "No budget set", whatever the
    items, and nothing is divided; with a positive budget it shows
    [profitLoss / projectBudget * 100], to one decimal. *)
Theorem margin_zero_budget_guard (Number_toString : float → string)
    (projectBudget : Z) (budgetItems : list BudgetItem) :
  marginLine Number_toString 0 budgetItems = "No budget set" ∧
  (0 < projectBudget →
   marginLine Number_toString projectBudget budgetItems =
     toFixed Number_toString 1
       (profitLoss projectBudget budgetItems / num projectBudget * num 100)%float
     +:+ "% margin").
Proof.
  split; [reflexivity|]. intros Hpos. unfold marginLine, marginPercent.
  by rewrite (proj2 (Z.gtb_lt _ _)) by done.
Qed.

(** ** Updating *)

Lemma collection_with_collection kind kind' m s :
  collection kind' (with_collection kind m s) =
    if decide (kind = kind') then m else collection kind' s.
Proof. by destruct kind, kind'. Qed.

Lemma uuidCalls_with_collection kind m s :
  uuidCalls (with_collection kind m s) = uuidCalls s.
Proof. by destruct kind. Qed.

Lemma store_update_unfold kind id data s :
  store_update kind id data s =
    match store_get kind id s with
    | None => (None, s)
    | Some r =>
        (Some (spread r data),
         with_collection kind (Map_set id (spread r data) (collection kind s)) s)
    end.
Proof. by destruct kind. Qed.

Lemma spread_lookup_Some (r data : obj) (k : string) (v : val) :
  data !! k = Some v → spread r data !! k = Some v.
Proof. intros Hk. by rewrite spread_lookup, Hk. Qed.

Lemma spread_lookup_None (r data : obj) (k : string) :
  data !! k = None → spread r data !! k = r !! k.
Proof. intros Hk. by rewrite spread_lookup, Hk. Qed.

Lemma store_update_present kind id data s r :
  store_get kind id s = Some r →
  ∃ s', store_update kind id data s = (Some (spread r data), s') ∧
    store_get kind id s' = Some (spread r data) ∧
    (∀ kind' id', (kind', id') ≠ (kind, id) →
       store_get kind' id' s' = store_get kind' id' s).
Proof.
  intros Hget. rewrite store_update_unfold, Hget. eexists. split; [done|]. split.
  - rewrite store_get_collection, collection_with_collection.
    rewrite decide_True by done. rewrite Map_get_set. by rewrite decide_True.
  - intros kind' id' Hne. rewrite !store_get_collection, collection_with_collection.
    case_decide as Hk; [subst kind'|done].
    rewrite Map_get_set. rewrite decide_False; [done|]. congruence.
Qed.

Lemma store_update_absent kind id data s :
  store_get kind id s = None → store_update kind id data s = (None, s).
Proof. intros Hget. by rewrite store_update_unfold, Hget. Qed.

(** C7. [update(id, data)] on a present id returns the shallow merge of the
    stored record and [data]: a key of [data] has the value [data] gives it,
    every other key keeps the value of the stored record; the merged record
    is what the id then fetches, and no other record of any kind changes.
    On an absent id it reports [undefined] and returns the store as it was. *)
Theorem update_shallow_merge (kind : Kind) (id : string) (data : obj) (s : MemStorage) :
  match store_get kind id s with
  | Some r =>
      ∃ s', store_update kind id data s = (Some (spread r data), s') ∧
        (∀ k v, data !! k = Some v → spread r data !! k = Some v) ∧
        (∀ k, data !! k = None → spread r data !! k = r !! k) ∧
        store_get kind id s' = Some (spread r data) ∧
        (∀ kind' id', (kind', id') ≠ (kind, id) →
           store_get kind' id' s' = store_get kind' id' s)
  | None => store_update kind id data s = (None, s)
  end.
Proof.
  destruct (store_get kind id s) as [r|] eqn:Hget; [|by apply store_update_absent].
  destruct (store_update_present kind id data s r Hget) as (s' & Hupd & Hget' & Hrest).
  exists s'. split_and!; [done| | |done|done].
  - intros k v. apply spread_lookup_Some.
  - intros k. apply spread_lookup_None.
Qed.

(** ** Parsing with a schema *)

Lemma zparse_lookup (shape : zschema) (input out : obj) :
  zparse shape input = Some out →
  ∀ k, out !! k = if decide (k ∈ fkey <$> shape) then input !! k else None.
Proof.
  revert out. induction shape as [|f shape IH]; intros out; cbn [zparse].
  - intros [= <-] k. rewrite lookup_empty. by rewrite decide_False by apply not_elem_of_nil.
  - destruct (zfield_accepts f _); [|done].
    destruct (zparse shape input) as [out'|]; [|done].
    specialize (IH out' eq_refl). intros Hout k. rewrite fmap_cons.
    destruct (decide (k = fkey f)) as [->|Hne].
    + rewrite decide_True by (by left).
      destruct (input !! fkey f) as [v|] eqn:Hin; injection Hout as <-.
      * by rewrite lookup_insert_eq.
      * rewrite IH. by case_decide.
    + assert (Heq : out !! k = out' !! k).
      { destruct (input !! fkey f); injection Hout as <-; [|done].
        by rewrite lookup_insert_ne. }
      rewrite Heq, IH. destruct (decide (k ∈ fkey <$> shape)) as [Hk|Hk].
      * by rewrite decide_True by (by right).
      * rewrite decide_False; [done|]. by intros [?|?]%elem_of_cons.
Qed.

(** Parsing looks at the keys of the shape only. *)
Lemma zparse_agree (shape : zschema) (input input' : obj) :
  (∀ k, k ∈ fkey <$> shape → input !! k = input' !! k) →
  zparse shape input = zparse shape input'.
Proof.
  induction shape as [|f shape IH]; intros Hagree; [done|].
  cbn [zparse]. unfold prop. rewrite <- (Hagree (fkey f)) by (rewrite fmap_cons; by left).
  rewrite IH; [done|]. intros k Hk. apply Hagree. rewrite fmap_cons. by right.
Qed.

Lemma patch_unfold kind id reqBody s :
  patch kind id reqBody s =
    match zparse (update_schema kind) (patch_body kind reqBody) with
    | None => (invalid_response kind, s)
    | Some validatedData =>
        match store_update kind id validatedData s with
        | (None, s') => (not_found_response kind, s')
        | (Some r, s') => (Json 200 (toJSON r), s')
        end
    end.
Proof. by destruct kind. Qed.

Lemma toJSON_lookup_undef (o : obj) (k : string) :
  o !! k = Some VUndef → toJSON o !! k = None.
Proof.
  intros Hk. unfold toJSON. rewrite lookup_fmap, map_lookup_filter, Hk. cbn.
  by rewrite option_guard_False by (intros H; by apply H).
Qed.

(** C10. A key that the payload of an update carries with the value
    [undefined] is copied by the spread: the stored record then has that key
    bound to [undefined].  The PATCH route of projects always puts
    [shootDate] in the object it validates, as [undefined] when the request
    body has none; so a valid request without [shootDate] leaves the stored
    project with [shootDate] undefined, whatever date it had, and the key is
    absent from the JSON answer. *)
Theorem update_applies_undefined (kind : Kind) (id : string) (s : MemStorage) (r : obj) :
  store_get kind id s = Some r →
  (∀ data k, data !! k = Some VUndef →
     ∃ s', store_update kind id data s = (Some (spread r data), s') ∧
           spread r data !! k = Some VUndef ∧
           prop (spread r data) k = VUndef ∧
           store_get kind id s' = Some (spread r data)) ∧
  (kind = KProject →
   ∀ reqBody validatedData,
     reqBody !! "shootDate" = None →
     zparse updateProjectSchema (patch_body KProject reqBody) = Some validatedData →
     validatedData !! "shootDate" = Some VUndef ∧
     ∃ s', patch_projects id reqBody s =
             (Json 200 (toJSON (spread r validatedData)), s') ∧
           getProject id s' = Some (spread r validatedData) ∧
           prop (spread r validatedData) "shootDate" = VUndef ∧
           toJSON (spread r validatedData) !! "shootDate" = None).
Proof.
  intros Hget. split.
  - intros data k Hk.
    destruct (store_update_present kind id data s r Hget) as (s' & Hs' & Hget' & _).
    exists s'. split_and!; [done|by apply spread_lookup_Some| |done].
    unfold prop. by rewrite (spread_lookup_Some _ _ _ _ Hk).
  - intros -> reqBody validatedData Hbody Hparse.
    assert (Hsd : validatedData !! "shootDate" = Some VUndef).
    { rewrite (zparse_lookup _ _ _ Hparse). rewrite decide_True by by_compute.
      cbn [patch_body]. unfold prop. rewrite Hbody. cbn. by rewrite lookup_insert_eq. }
    split; [done|].
    destruct (store_update_present KProject id validatedData s r Hget)
      as (s' & Hs' & Hget' & _).
    exists s'. cbn in Hs', Hget'. unfold patch_projects.
    cbn [patch_body] in Hparse. rewrite Hparse, Hs'. split_and!; [done|done| |].
    + unfold prop. by rewrite (spread_lookup_Some _ _ _ _ Hsd).
    + by apply toJSON_lookup_undef, spread_lookup_Some.
Qed.

(** ** The identity of a record under updates *)

Lemma protected_not_in_update_schema kind k :
  k ∈ protected_keys → k ∉ fkey <$> update_schema kind.
Proof.
  revert k. apply Forall_forall.
  destruct kind; by_compute.
Qed.

Lemma without_protected_lookup (reqBody : obj) (k : string) :
  without_protected reqBody !! k =
    if decide (k ∈ protected_keys) then None else reqBody !! k.
Proof.
  unfold without_protected, protected_keys. rewrite !lookup_delete.
  destruct (decide ("id" = k)) as [<-|Hid]; [done|].
  destruct (decide ("createdAt" = k)) as [<-|Hcr]; [done|].
  destruct (decide ("projectId" = k)) as [<-|Hpr]; [done|].
  rewrite decide_False; [done|].
  intros Hk. repeat (apply elem_of_cons in Hk as [->|Hk]); try done.
  by apply elem_of_nil in Hk.
Qed.

Lemma patch_body_without_protected kind reqBody k :
  k ∉ protected_keys →
  patch_body kind (without_protected reqBody) !! k = patch_body kind reqBody !! k.
Proof.
  intros Hk.
  assert (Hprop : ∀ k', k' ∉ protected_keys →
            prop (without_protected reqBody) k' = prop reqBody k').
  { intros k' Hk'. unfold prop. rewrite without_protected_lookup. by rewrite decide_False. }
  destruct kind; cbn [patch_body]; rewrite ?lookup_insert;
    rewrite ?Hprop by (by_compute);
    repeat case_decide; try done;
    rewrite without_protected_lookup; by rewrite decide_False.
Qed.

(** C2, as the code has it.  Through the PATCH route of a dependent kind the
    keys [id], [createdAt] and [projectId] of a stored record never change:
    the update schema strips them from the request body, so a body that
    carries them is answered exactly like the same body without them (no
    error on their account), and on a valid body the stored record becomes
    the shallow merge of the old record and the validated keys, each
    validated key taking the value the handler validated. *)
Theorem patch_protects_identity (d : Dependent) (id : string) (reqBody : obj)
    (s : MemStorage) (r : obj) :
  store_get (kind_of d) id s = Some r →
  patch (kind_of d) id reqBody s = patch (kind_of d) id (without_protected reqBody) s ∧
  match zparse (update_schema (kind_of d)) (patch_body (kind_of d) reqBody) with
  | None => patch (kind_of d) id reqBody s = (invalid_response (kind_of d), s)
  | Some validatedData =>
      ∃ s', patch (kind_of d) id reqBody s =
              (Json 200 (toJSON (spread r validatedData)), s') ∧
        store_get (kind_of d) id s' = Some (spread r validatedData) ∧
        (∀ k, k ∈ protected_keys → spread r validatedData !! k = r !! k) ∧
        (∀ k v, k ∈ fkey <$> update_schema (kind_of d) →
                patch_body (kind_of d) reqBody !! k = Some v →
                spread r validatedData !! k = Some v) ∧
        (∀ k, k ∉ fkey <$> update_schema (kind_of d) →
              spread r validatedData !! k = r !! k)
  end.
Proof.
  intros Hget. set (kind := kind_of d) in *. split.
  - rewrite !patch_unfold.
    rewrite (zparse_agree _ (patch_body kind (without_protected reqBody))
               (patch_body kind reqBody)); [done|].
    intros k Hk. apply patch_body_without_protected.
    intros Hp. by apply (protected_not_in_update_schema kind k).
  - rewrite patch_unfold.
    destruct (zparse _ _) as [validatedData|] eqn:Hparse; [|done].
    pose proof (zparse_lookup _ _ _ Hparse) as Hlook.
    destruct (store_update_present kind id validatedData s r Hget)
      as (s' & Hs' & Hget' & _).
    exists s'. rewrite Hs'. split_and!; [done|done|..].
    + intros k Hk. apply spread_lookup_None. rewrite Hlook.
      by rewrite decide_False by by apply protected_not_in_update_schema.
    + intros k v Hk Hv. apply spread_lookup_Some. rewrite Hlook. by rewrite decide_True.
    + intros k Hk. apply spread_lookup_None. rewrite Hlook. by rewrite decide_False.
Qed.

(** C2, as stated, fails on the store itself: [updateTask] copies every key
    of the payload, so a payload with [projectId] and [id] rewrites both on
    the stored task. *)
Lemma updateTask_overwrites_projectId :
  let data : obj := {[ "projectId" := VStr "0"; "id" := VStr "1" ]} in
  let before := getTask "15" sample_store in
  let returned := (updateTask "15" data sample_store).1 in
  let after := getTask "15" (updateTask "15" data sample_store).2 in
  (λ r, prop r "projectId") <$> before = Some (VStr "14") ∧
  (λ r, prop r "projectId") <$> returned = Some (VStr "0") ∧
  (λ r, prop r "projectId") <$> after = Some (VStr "0") ∧
  (λ r, prop r "id") <$> before = Some (VStr "15") ∧
  (λ r, prop r "id") <$> after = Some (VStr "1").
Proof. vm_compute. by repeat split. Qed.

(** ** Creating *)

Section Creating.
Variable randomUUID : nat → string.
Variable clock : nat → Z.
Hypothesis randomUUID_inj : Inj (=) (=) randomUUID.

Lemma issued_elem (s : MemStorage) (k : string) :
  k ∈ issued randomUUID s ↔ ∃ i, (i < uuidCalls s)%nat ∧ k = randomUUID i.
Proof.
  unfold issued. rewrite list_elem_of_fmap. split.
  - intros (i & -> & Hi%elem_of_seq). exists i. split; [lia | done].
  - intros (i & Hi & ->). exists i. split; [done|]. apply elem_of_seq. lia.
Qed.

Lemma keys_issued_collection (s : MemStorage) (kind : Kind) (k : string) :
  keys_issued randomUUID s → k ∈ Map_keys (collection kind s) → k ∈ issued randomUUID s.
Proof.
  unfold keys_issued. rewrite Forall_forall. intros Hall Hk. apply Hall.
  rewrite !elem_of_app. destruct kind; cbn in Hk; tauto.
Qed.

(** A value the generator has not handed out yet is no key of the store. *)
Lemma fresh_key (m : JsMap obj) (s : MemStorage) (n : nat) :
  Forall (λ k, k ∈ issued randomUUID s) (Map_keys m) →
  (uuidCalls s ≤ n)%nat →
  Map_get (randomUUID n) m = None.
Proof.
  rewrite Forall_forall. intros Hall Hn. apply Map_get_None. intros Hin.
  apply Hall, issued_elem in Hin as (i & Hi & Heq).
  apply randomUUID_inj in Heq. lia.
Qed.

(** The [for ... of] loop of [createProject], on a store whose task keys
    were all drawn before: the tasks are appended, one per entry, in order. *)
Lemma seed_template (projectId : string) (template : list (string * string))
    (s : MemStorage) :
  Forall (λ k, k ∈ issued randomUUID s) (Map_keys (tasks s)) →
  foldl (λ s' taskTemplate,
           (createTask randomUUID clock (templateTask projectId taskTemplate) s').2)
        s template =
  mkStorage (projects s)
    (tasks s ++ imap (λ i taskTemplate,
                        (randomUUID (uuidCalls s + i),
                         seededTask randomUUID clock projectId (uuidCalls s + i)
                                    taskTemplate)) template)
    (contacts s) (budgetItems s) (calendarEvents s)
    (uuidCalls s + length template).
Proof.
  revert s. induction template as [|entry template IH]; intros s Hs.
  - cbn. rewrite app_nil_r, Nat.add_0_r. by destruct s.
  - cbn [foldl].
    set (s1 := (createTask randomUUID clock (templateTask projectId entry) s).2).
    assert (Htasks : tasks s1 = tasks s ++
              [(randomUUID (uuidCalls s),
                seededTask randomUUID clock projectId (uuidCalls s) entry)]).
    { apply Map_set_fresh. by apply (fresh_key _ s). }
    assert (Hcalls : uuidCalls s1 = S (uuidCalls s)) by done.
    rewrite IH.
    + rewrite Htasks, Hcalls, <- app_assoc. cbn [imap app length].
      rewrite Nat.add_0_r. f_equal; [|lia]. do 2 f_equal.
      apply imap_ext. intros i x _. cbn [compose].
      by replace (S (uuidCalls s) + i)%nat with (uuidCalls s + S i)%nat by lia.
    + rewrite Htasks. unfold Map_keys. rewrite fmap_app. apply Forall_app. split.
      * eapply Forall_impl; [exact Hs|]. intros k. rewrite !issued_elem.
        intros (i & Hi & ->). exists i. rewrite Hcalls. split; [lia | done].
      * apply Forall_singleton, issued_elem. exists (uuidCalls s).
        rewrite Hcalls. split; [lia | done].
Qed.
Lemma seededTask_props (projectId : string) (n : nat) (entry : string * string) :
  prop (seededTask randomUUID clock projectId n entry) "title" = VStr entry.1 ∧
  prop (seededTask randomUUID clock projectId n entry) "section" = VStr entry.2 ∧
  prop (seededTask randomUUID clock projectId n entry) "projectId" = VStr projectId ∧
  prop (seededTask randomUUID clock projectId n entry) "status" = VStr "To Do" ∧
  prop (seededTask randomUUID clock projectId n entry) "assignee" = VStr "" ∧
  prop (seededTask randomUUID clock projectId n entry) "id" = VStr (randomUUID n) ∧
  seededTask randomUUID clock projectId n entry !! "dueDate" = None.
Proof. split_and!; reflexivity. Qed.

Lemma seeded_ids (projectId : string) (template : list (string * string)) (n : nat) :
  (λ t, prop t "id") <$>
    (imap (λ i taskTemplate,
             (randomUUID (n + i), seededTask randomUUID clock projectId (n + i) taskTemplate))
          template).*2 =
  (VStr ∘ randomUUID) <$> seq n (length template).
Proof.
  revert n. induction template as [|e template IH]; intros n; [done|].
  cbn [imap fmap list_fmap length seq snd]. rewrite Nat.add_0_r. f_equal.
  rewrite <- (IH (S n)). do 2 f_equal. apply imap_ext. intros i x _. cbn [compose].
  by replace (n + S i)%nat with (S n + i)%nat by lia.
Qed.

Lemma createProject_project (insertProject : obj) (s : MemStorage) :
  getProject (randomUUID (uuidCalls s))
             (createProject randomUUID clock insertProject s).2 =
    Some (<["createdAt" := VDate (clock (uuidCalls s))]>
            (<["id" := VStr (randomUUID (uuidCalls s))]> insertProject)).
Proof.
  assert (Hfold : ∀ template s1,
    projects (foldl (λ s' taskTemplate,
       (createTask randomUUID clock
          (templateTask (randomUUID (uuidCalls s)) taskTemplate) s').2) s1 template)
    = projects s1).
  { induction template as [|e template IH]; intros s1; [done|]. cbn [foldl]. by rewrite IH. }
  unfold createProject, getProject.
  destruct (truthy _ && _); [destruct (projectTemplates _)|]; cbn [snd];
    rewrite ?Hfold; cbn; rewrite Map_get_set; by rewrite decide_True.
Qed.

(** C3. On a store whose keys were all handed out by the generator (which
    never repeats), [createProject] with type "Wedding" appends exactly 13
    tasks to the task collection, with the titles and sections of the
    template in template order, each owned by the new project, with status
    "To Do", an empty assignee and no [dueDate] key, under thirteen ids
    that differ from one another and from the id of every earlier task;
    with type "Blank", and
    with any type string other than the four template names, the task
    collection is left as it was.  The project itself is stored under the
    new id in every case. *)
Theorem createProject_template (insertProject : obj) (s : MemStorage) :
  keys_issued randomUUID s →
  let id := randomUUID (uuidCalls s) in
  let s' := (createProject randomUUID clock insertProject s).2 in
  is_Some (getProject id s') ∧
  (prop insertProject "type" = VStr "Wedding" →
     ∃ seeded : list obj,
       getTasks s' = getTasks s ++ seeded ∧
       length seeded = 13%nat ∧
       (λ t, (prop t "title", prop t "section")) <$> seeded =
         (λ entry, (VStr entry.1, VStr entry.2)) <$> Wedding_template ∧
       Forall (λ t, prop t "projectId" = VStr id ∧ prop t "status" = VStr "To Do" ∧
                    prop t "assignee" = VStr "" ∧ t !! "dueDate" = None) seeded ∧
       NoDup ((λ t, prop t "id") <$> seeded) ∧
       (∀ t k, t ∈ seeded → k ∈ Map_keys (tasks s) → prop t "id" ≠ VStr k) ∧
       getTasksByProject id s' = getTasksByProject id s ++ seeded) ∧
  (prop insertProject "type" = VStr "Blank" → tasks s' = tasks s) ∧
  (∀ type : string,
     prop insertProject "type" = VStr type →
     type ∉ ["Wedding"; "Portrait"; "Commercial"; "Event"]%string →
     tasks s' = tasks s).
Proof.
  intros Hkeys id s'. split; [by unfold s', id; rewrite createProject_project|].
  assert (Hnone : ∀ type : string,
     prop insertProject "type" = VStr type →
     type ∉ ["Wedding"; "Portrait"; "Commercial"; "Event"]%string →
     tasks s' = tasks s).
  { intros type Htype Hnot. unfold s', createProject. rewrite Htype.
    destruct (truthy _ && _); [|done]. unfold projectTemplates.
    repeat match goal with
    | |- context [String.eqb type ?x] =>
        destruct (String.eqb_spec type x) as [->|?]
    end; try done;
      try (exfalso; apply Hnot; by_compute).
    by case_bool_decide. }
  split; [|split; [|exact Hnone]].
  - intros Htype.
    exists ((imap (λ i taskTemplate,
               (randomUUID (S (uuidCalls s) + i),
                seededTask randomUUID clock id (S (uuidCalls s) + i) taskTemplate))
             Wedding_template).*2).
    assert (Htasks : tasks s' = tasks s ++
              imap (λ i taskTemplate,
                      (randomUUID (S (uuidCalls s) + i),
                       seededTask randomUUID clock id (S (uuidCalls s) + i) taskTemplate))
                   Wedding_template).
    { unfold s', createProject. rewrite Htype. cbn [truthy strict_eq_str projectTemplates].
      cbn [String.eqb Ascii.eqb Bool.eqb andb negb snd]. rewrite seed_template; [done|].
      apply Forall_forall. intros k Hk.
      apply (keys_issued_collection s KTask k Hkeys) in Hk.
      apply issued_elem in Hk as (i & Hi & ->). apply issued_elem. exists i.
      split; [cbn; lia | done]. }
    assert (Hprops : Forall (λ t, prop t "projectId" = VStr id ∧
                       prop t "status" = VStr "To Do" ∧
                       prop t "assignee" = VStr "" ∧ t !! "dueDate" = None)
                     (imap (λ i taskTemplate,
                        (randomUUID (S (uuidCalls s) + i),
                         seededTask randomUUID clock id (S (uuidCalls s) + i) taskTemplate))
                      Wedding_template).*2).
    { apply Forall_fmap, Forall_forall. intros [k t] Hin.
      apply elem_of_lookup_imap in Hin as (i & entry & [= -> ->] & _). cbn.
      pose proof (seededTask_props id (S (uuidCalls s + i)) entry). tauto. }
    split_and!.
    + unfold getTasks, Map_values. by rewrite Htasks, fmap_app.
    + by rewrite length_fmap, length_imap.
    + rewrite <- list_fmap_compose, fmap_imap.
      generalize (S (uuidCalls s)). generalize Wedding_template.
      induction l as [|e l IHl]; intros n; [done|].
      cbn [imap fmap list_fmap]. f_equal.
      rewrite <- (IHl (S n)). apply imap_ext. intros i x _. cbn [compose].
      by replace (n + S i)%nat with (S n + i)%nat by lia.
    + exact Hprops.
    + rewrite seeded_ids. apply NoDup_fmap_2; [|apply NoDup_seq].
      intros i j [= Hij]. by apply randomUUID_inj.
    + intros t k Ht Hk Heq.
      apply (list_elem_of_fmap_2 (λ t, prop t "id")) in Ht.
      rewrite seeded_ids, Heq in Ht.
      apply list_elem_of_fmap in Ht as (i & [= Hki] & Hi%elem_of_seq).
      apply (keys_issued_collection s KTask k Hkeys), issued_elem in Hk as (j & Hj & ->).
      apply randomUUID_inj in Hki. lia.
    + unfold getTasksByProject. rewrite !byProject_filter, Htasks.
      unfold Map_values. rewrite fmap_app, filter_app. f_equal.
      induction Hprops as [|t ts Ht _ IH]; [done|].
      rewrite filter_cons, decide_True by apply Ht. by rewrite IH.
  - intros Htype. apply (Hnone "Blank"); [done | by_compute].
Qed.
(** *** Ids of created records *)

Lemma uuidCalls_seed (projectId : string) (template : list (string * string))
    (s : MemStorage) :
  uuidCalls (foldl (λ s' taskTemplate,
       (createTask randomUUID clock (templateTask projectId taskTemplate) s').2)
     s template) = (uuidCalls s + length template)%nat.
Proof.
  revert s. induction template as [|e template IH]; intros s; cbn [foldl length]; [lia|].
  rewrite IH. cbn. lia.
Qed.

Lemma uuidCalls_store_update kind id data s :
  uuidCalls (store_update kind id data s).2 = uuidCalls s.
Proof.
  rewrite store_update_unfold. destruct (store_get kind id s); [|done].
  apply uuidCalls_with_collection.
Qed.

Lemma uuidCalls_store_delete kind id s :
  uuidCalls (store_delete kind id s).2 = uuidCalls s.
Proof.
  destruct kind; cbn; [|done..].
  unfold deleteProject. cbn. by destruct (Map_has id (projects s)).
Qed.

(** One operation: the generator only moves forward, and a record handed
    back by a create carries the value of the first draw of the call. *)
Lemma exec_draw (op : Op) (s : MemStorage) :
  (uuidCalls s ≤ uuidCalls (exec randomUUID clock op s).2)%nat ∧
  ∀ kind record, (exec randomUUID clock op s).1 = Created kind record →
    prop record "id" = VStr (randomUUID (uuidCalls s)) ∧
    (uuidCalls s < uuidCalls (exec randomUUID clock op s).2)%nat.
Proof.
  destruct op as [p|t|c|b|e|kind id data|kind id]; cbn [exec].
  - unfold createProject.
    destruct (truthy _ && _); [destruct (projectTemplates _)|]; cbn [fst snd];
      rewrite ?uuidCalls_seed; cbn [uuidCalls next_uuid with_projects];
      (split; [lia|]); intros kind record Heq; try discriminate Heq;
      injection Heq as <- <-; (split; [apply prop_created_id | lia]).
  - unfold createTask. cbn. split; [lia|]. intros kind record [= <- <-].
    split; [apply prop_created_id | lia].
  - unfold createContact. cbn. split; [lia|]. intros kind record [= <- <-].
    split; [apply prop_insert_eq | lia].
  - unfold createBudgetItem. cbn. split; [lia|]. intros kind record [= <- <-].
    split; [apply prop_insert_eq | lia].
  - unfold createCalendarEvent. cbn. split; [lia|]. intros kind record [= <- <-].
    split; [apply prop_insert_eq | lia].
  - pose proof (uuidCalls_store_update kind id data s) as Hu.
    destruct (store_update kind id data s) as [r s']. cbn in *.
    split; [lia | by intros ? ? [=]].
  - pose proof (uuidCalls_store_delete kind id s) as Hu.
    destruct (store_delete kind id s) as [r s']. cbn in *.
    split; [lia | by intros ? ? [=]].
Qed.

(** A run: the ids of the records the creates returned are the values of
    draws made during the run, at strictly increasing positions. *)
Lemma run_draws (ops : list Op) (s : MemStorage) :
  (uuidCalls s ≤ uuidCalls (run randomUUID clock ops s).2)%nat ∧
  ∃ draws : list nat,
    all_created_ids (run randomUUID clock ops s).1 = (VStr ∘ randomUUID) <$> draws ∧
    StronglySorted lt draws ∧
    Forall (λ i, uuidCalls s ≤ i < uuidCalls (run randomUUID clock ops s).2)%nat draws.
Proof.
  revert s. induction ops as [|op ops IH]; intros s; cbn [run].
  - split; [done|]. exists []. split_and!; [done|constructor|constructor].
  - destruct (exec_draw op s) as [Hle Hcr].
    destruct (exec randomUUID clock op s) as [r s1] eqn:Hexec. cbn [fst snd] in *.
    destruct (IH s1) as (Hle1 & draws & Hids & Hsorted & Hrange).
    destruct (run randomUUID clock ops s1) as [rs s2]. cbn [fst snd] in *.
    split; [lia|].
    assert (Hrange' : Forall (λ i, uuidCalls s ≤ i < uuidCalls s2)%nat draws).
    { eapply Forall_impl; [exact Hrange|]. cbn. lia. }
    destruct r as [kind record| | |].
    + destruct (Hcr kind record eq_refl) as [Hid Hlt].
      exists (uuidCalls s :: draws). split_and!.
      * unfold all_created_ids in *. cbn. by rewrite Hid, Hids.
      * constructor; [done|]. eapply Forall_impl; [exact Hrange|]. cbn. lia.
      * constructor; [lia | done].
    + by exists draws.
    + by exists draws.
    + by exists draws.
Qed.

Lemma created_ids_sublist (kind : Kind) (rs : list Result) :
  created_ids kind rs `sublist_of` all_created_ids rs.
Proof.
  induction rs as [|r rs IH]; [done|]. unfold created_ids, all_created_ids in *.
  destruct r as [kind' record| | |]; cbn; try done.
  case_decide; [by constructor | by apply sublist_cons].
Qed.

End Creating.

(** ** The calendar timeline *)

Lemma sort_insert_perm (a : TimelineItem) (l : list TimelineItem) :
  sort_insert a l ≡ₚ a :: l.
Proof.
  induction l as [|b l IH]; cbn; [done|].
  destruct (compareStart a b <=? 0); [done|].
  rewrite IH. apply Permutation_swap.
Qed.

Lemma sortByStart_perm (l : list TimelineItem) : sortByStart l ≡ₚ l.
Proof.
  induction l as [|a l IH]; cbn; [done|]. by rewrite sort_insert_perm, IH.
Qed.

Lemma sort_insert_sorted (a : TimelineItem) (l : list TimelineItem) :
  StronglySorted starts_before l → StronglySorted starts_before (sort_insert a l).
Proof.
  induction 1 as [|b l Hl IH Hb]; cbn.
  - repeat constructor.
  - unfold compareStart at 1. destruct (Z.leb_spec (item_startDate a - item_startDate b) 0).
    + constructor; [by constructor|]. constructor; [unfold starts_before; lia|].
      eapply Forall_impl; [exact Hb|]. unfold starts_before. intros c. lia.
    + constructor; [done|]. rewrite sort_insert_perm.
      constructor; [unfold starts_before; lia | done].
Qed.

Lemma sortByStart_sorted (l : list TimelineItem) :
  StronglySorted starts_before (sortByStart l).
Proof.
  induction l as [|a l IH]; cbn; [constructor|]. by apply sort_insert_sorted.
Qed.

(** The sort is stable: the items that start at one instant keep their order. *)
Lemma sort_insert_stable (t : Z) (a : TimelineItem) (l : list TimelineItem) :
  base.filter (λ i, item_startDate i = t) (sort_insert a l) =
  base.filter (λ i, item_startDate i = t) (a :: l).
Proof.
  induction l as [|b l IH]; cbn [sort_insert]; [done|].
  unfold compareStart at 1.
  destruct (Z.leb_spec (item_startDate a - item_startDate b) 0); [done|].
  rewrite filter_cons, IH, !filter_cons.
  destruct (decide (item_startDate b = t)), (decide (item_startDate a = t)); try done.
  lia.
Qed.

Lemma sortByStart_stable (t : Z) (l : list TimelineItem) :
  base.filter (λ i, item_startDate i = t) (sortByStart l) =
  base.filter (λ i, item_startDate i = t) l.
Proof.
  induction l as [|a l IH]; cbn [sortByStart foldr]; [done|].
  rewrite sort_insert_stable, !filter_cons. fold (sortByStart l). by rewrite IH.
Qed.

Lemma wall_clock_day (day h m : Z) :
  0 ≤ h * 3600000 + m * 60000 < msPerDay → wall_clock day h m / msPerDay = day.
Proof.
  intros Hrange. unfold wall_clock.
  replace (day * msPerDay + h * 3600000 + m * 60000)
    with (h * 3600000 + m * 60000 + day * msPerDay) by lia.
  rewrite Z.div_add by done. rewrite Z.div_small by done. lia.
Qed.

Lemma isSameDay_true LocalTZA (a b : Z) :
  isSameDay LocalTZA a b = true ↔
  (a + LocalTZA a) / 86400000 = (b + LocalTZA b) / 86400000.
Proof. unfold isSameDay, localDay, LocalTime, msPerDay. apply Z.eqb_eq. Qed.

Lemma getAllEventsForDate_elem LocalTZA allEvents allTasks projects date item :
  item ∈ getAllEventsForDate LocalTZA allEvents allTasks projects date ↔
  (∃ event, event ∈ allEvents ∧
            isSameDay LocalTZA (event_startDate event) date = true ∧
            item = EventItem event) ∨
  (∃ task dueDate, task ∈ allTasks ∧ task_dueDate task = Some dueDate ∧
            isSameDay LocalTZA dueDate date = true ∧
            item = DerivedItem (task_id task) "Deadline" (task_title task) dueDate
                               (task_projectId task)) ∨
  (∃ project shootDate, project ∈ projects ∧
            project_shootDate project = Some shootDate ∧
            isSameDay LocalTZA shootDate date = true ∧
            item = DerivedItem (project_id project) "Photoshoot" (project_name project)
                               shootDate (project_id project)).
Proof.
  unfold getAllEventsForDate. rewrite !elem_of_app, list_elem_of_fmap.
  rewrite !list_elem_of_omap.
  split.
  - intros [(event & -> & [? ?]%list_elem_of_filter)|[(task & Hin & Hsome)|(project & Hin & Hsome)]].
    + left. by exists event.
    + right; left. destruct (task_dueDate task) as [dueDate|] eqn:Hdue; [|done].
      destruct (isSameDay LocalTZA dueDate date) eqn:Hday; [|done].
      injection Hsome as <-. by exists task, dueDate.
    + right; right. destruct (project_shootDate project) as [shootDate|] eqn:Hshoot; [|done].
      destruct (isSameDay LocalTZA shootDate date) eqn:Hday; [|done].
      injection Hsome as <-. by exists project, shootDate.
  - intros [(event & Hin & Hday & ->)|[(task & dueDate & Hin & Hdue & Hday & ->)
                                      |(project & shootDate & Hin & Hshoot & Hday & ->)]].
    + left. exists event. split; [done|]. by apply list_elem_of_filter.
    + right; left. exists task. split; [done|]. by rewrite Hdue, Hday.
    + right; right. exists project. split; [done|]. by rewrite Hshoot, Hday.
Qed.

(** C4. For a date, the aggregation holds exactly: the calendar events that
    start on the local calendar day of the date; a "Deadline" item, with the
    task's title and due date, for every task that has a due date on that
    day, whatever its status; a "Photoshoot" item for every project whose
    shoot date is on that day.  The day is the one the local clock shows,
    clock changes included.  The day view shows these items in ascending
    order of start, items with the same start in aggregation order.  For the
    example (event at 08:00, shoot at 10:00, completed task due at 23:00,
    all on 2025-06-01, with a task due at 23:59 the day before and an event
    at 00:00 the day after) the day view is: event, photoshoot, deadline, in
    every zone in which the three instants come in this order, New York for
    one; and on the New York day of 23 hours the view has the events of
    00:30 and of 23:30, not the ones half an hour outside. *)
Theorem timeline_day_view (LocalTZA : Z → Z) (allEvents : list CalendarEvent)
    (allTasks : list Task) (projects : list Project) (date : Z) :
  let onDay (t : Z) :=
    (t + LocalTZA t) / 86400000 = (date + LocalTZA date) / 86400000 in
  (∀ item,
     item ∈ getAllEventsForDate LocalTZA allEvents allTasks projects date ↔
     (∃ event, event ∈ allEvents ∧ onDay (event_startDate event) ∧
               item = EventItem event) ∨
     (∃ task dueDate, task ∈ allTasks ∧ task_dueDate task = Some dueDate ∧
               onDay dueDate ∧
               item = DerivedItem (task_id task) "Deadline" (task_title task) dueDate
                                  (task_projectId task)) ∨
     (∃ project shootDate, project ∈ projects ∧
               project_shootDate project = Some shootDate ∧ onDay shootDate ∧
               item = DerivedItem (project_id project) "Photoshoot"
                                  (project_name project) shootDate (project_id project))) ∧
  renderDayView LocalTZA allEvents allTasks projects date ≡ₚ
    getAllEventsForDate LocalTZA allEvents allTasks projects date ∧
  StronglySorted starts_before (renderDayView LocalTZA allEvents allTasks projects date) ∧
  (∀ t, base.filter (λ i, item_startDate i = t)
          (renderDayView LocalTZA allEvents allTasks projects date) =
        base.filter (λ i, item_startDate i = t)
          (getAllEventsForDate LocalTZA allEvents allTasks projects date)) ∧
  (∀ event shoot due eve next noon,
     event + LocalTZA event = wall_clock 20240 8 0 →
     shoot + LocalTZA shoot = wall_clock 20240 10 0 →
     due + LocalTZA due = wall_clock 20240 23 0 →
     eve + LocalTZA eve = wall_clock 20239 23 59 →
     next + LocalTZA next = wall_clock 20241 0 0 →
     noon + LocalTZA noon = wall_clock 20240 12 0 →
     event < shoot → shoot < due →
     renderDayView LocalTZA [example_event event; example_next_event next]
                   [example_eve_task eve; example_task due] [example_project shoot] noon =
       [ EventItem (example_event event);
         DerivedItem "p1" "Photoshoot" "Anna and Ben" shoot "p1";
         DerivedItem "t1" "Deadline" "Deliver final gallery" due "p1" ]) ∧
  renderDayView newYork [example_event 1748779200000; example_next_event 1748836800000]
                [example_eve_task 1748750340000; example_task 1748833200000]
                [example_project 1748786400000] 1748793600000 =
    [ EventItem (example_event 1748779200000);
      DerivedItem "p1" "Photoshoot" "Anna and Ben" 1748786400000 "p1";
      DerivedItem "t1" "Deadline" "Deliver final gallery" 1748833200000 "p1" ] ∧
  renderDayView newYork clock_change_events [] [] 1741539600000 =
    [ EventItem (mkCalendarEvent "b" "p1" "Night shoot" "Photoshoot" 1741498200000
                                 None None None);
      EventItem (mkCalendarEvent "c" "p1" "Wrap" "Meeting" 1741577400000
                                 None None None) ].
Proof.
  intros onDay. split_and!.
  - intros item. rewrite getAllEventsForDate_elem.
    unfold onDay. by setoid_rewrite isSameDay_true.
  - apply sortByStart_perm.
  - apply sortByStart_sorted.
  - intros t. apply sortByStart_stable.
  - intros event shoot due eve next noon Hevent Hshoot Hdue Heve Hnext Hnoon Hes Hsd.
    assert (Hday : ∀ t d h m, t + LocalTZA t = wall_clock d h m →
              0 ≤ h * 3600000 + m * 60000 < msPerDay →
              isSameDay LocalTZA t noon = (d =? 20240)).
    { intros t d h m Ht Hrange. unfold isSameDay, localDay, LocalTime.
      rewrite Ht, Hnoon, !wall_clock_day by (done || (unfold msPerDay; lia)). done. }
    unfold renderDayView, getAllEventsForDate.
    cbn [omap list_omap example_task example_eve_task example_project
           task_dueDate project_shootDate].
    rewrite (Hday due 20240 23 0 Hdue), (Hday eve 20239 23 59 Heve),
      (Hday shoot 20240 10 0 Hshoot) by (unfold msPerDay; lia).
    rewrite !filter_cons, filter_nil.
    cbn [example_event example_next_event event_startDate].
    rewrite (Hday event 20240 8 0 Hevent), (Hday next 20241 0 0 Hnext)
      by (unfold msPerDay; lia).
    cbn [Z.eqb Pos.eqb]. rewrite decide_True, decide_False by done.
    cbn [fmap list_fmap app sortByStart foldr sort_insert mbind option_bind].
    unfold compareStart. cbn [item_startDate event_startDate taskDeadline photoShoot].
    rewrite (proj2 (Z.leb_gt _ _)) by lia.
    cbn [sort_insert]. unfold compareStart.
    cbn [item_startDate event_startDate example_event photoShoot].
    rewrite (proj2 (Z.leb_le _ _)) by lia.
    reflexivity.
  - by vm_compute.
  - by vm_compute.
Qed.

(** ** The invariants hold in every store the API can reach *)

Lemma Forall_Map_set {V} (P : string * V → Prop) (k : string) (v : V) (m : JsMap V) :
  Forall P m → P (k, v) → Forall P (Map_set k v m).
Proof.
  intros Hm Hkv. induction Hm as [|[k' v'] m Hx Hm IH]; cbn [Map_set].
  - by constructor.
  - destruct (String.eqb k' k); constructor; done.
Qed.

Lemma Map_wf_set (k : string) (r : obj) (m : JsMap obj) :
  Map_wf m → prop r "id" = VStr k → Map_wf (Map_set k r m).
Proof.
  intros [Hnd Hid] Hr. split; [by apply Map_set_NoDup | by apply Forall_Map_set].
Qed.

Lemma Map_wf_remove (k : string) (m : JsMap obj) : Map_wf m → Map_wf (Map_remove k m).
Proof.
  intros [Hnd Hid]. split; [by apply Map_remove_NoDup|].
  rewrite Map_remove_filter. by apply Forall_filter.
Qed.

Lemma Map_wf_sweep (id : string) (m : JsMap obj) : Map_wf m → Map_wf (sweep id m).
Proof.
  intros Hm. rewrite sweep_wf by done. destruct Hm as [Hnd Hid]. split.
  - apply (sublist_NoDup _ _ Hnd). apply fmap_sublist, sublist_filter.
  - by apply Forall_filter.
Qed.

Lemma Map_wf_update (id : string) (r data : obj) (m : JsMap obj) :
  Map_wf m → Map_get id m = Some r → data !! "id" = None →
  Map_wf (Map_set id (spread r data) m).
Proof.
  intros Hm Hget Hdata. apply Map_wf_set; [done|].
  rewrite prop_spread, Hdata. destruct Hm as [_ Hid].
  rewrite Forall_forall in Hid. by apply (Hid (id, r)), Map_get_Some_elem.
Qed.

Lemma storage_wf_empty : storage_wf emptyStorage.
Proof. by_compute. Qed.

Lemma storage_wf_with_collection kind m s :
  storage_wf s → Map_wf m → storage_wf (with_collection kind m s).
Proof. intros (? & ? & ? & ? & ?) ?. by destruct kind. Qed.

Lemma storage_wf_collection kind s : storage_wf s → Map_wf (collection kind s).
Proof. intros (? & ? & ? & ? & ?). by destruct kind. Qed.

Lemma storage_wf_next_uuid s : storage_wf s → storage_wf (next_uuid s).
Proof. done. Qed.

Lemma storage_wf_update kind id data s :
  storage_wf s → data !! "id" = None → storage_wf (store_update kind id data s).2.
Proof.
  intros Hs Hdata. rewrite store_update_unfold, store_get_collection.
  destruct (Map_get id (collection kind s)) as [r|] eqn:Hget; [|done].
  apply storage_wf_with_collection; [done|].
  apply Map_wf_update; [by apply storage_wf_collection | done..].
Qed.

Lemma storage_wf_delete kind id s : storage_wf s → storage_wf (store_delete kind id s).2.
Proof.
  intros Hs. destruct kind; cbn [store_delete].
  - destruct (getProject id s) as [P|] eqn:Hget.
    + rewrite (deleteProject_present _ _ _ Hget). destruct Hs as (? & ? & ? & ? & ?).
      split_and!; by apply Map_wf_remove || by apply Map_wf_sweep.
    + by rewrite deleteProject_absent.
  - apply (storage_wf_with_collection KTask); [done|].
    by apply Map_wf_remove, (storage_wf_collection KTask).
  - apply (storage_wf_with_collection KContact); [done|].
    by apply Map_wf_remove, (storage_wf_collection KContact).
  - apply (storage_wf_with_collection KBudgetItem); [done|].
    by apply Map_wf_remove, (storage_wf_collection KBudgetItem).
  - apply (storage_wf_with_collection KCalendarEvent); [done|].
    by apply Map_wf_remove, (storage_wf_collection KCalendarEvent).
Qed.

Section Reachable.
Variable randomUUID : nat → string.
Variable clock : nat → Z.

Lemma storage_wf_createTask t s :
  storage_wf s → storage_wf (createTask randomUUID clock t s).2.
Proof.
  intros Hs. unfold createTask. cbn [snd]. apply storage_wf_next_uuid.
  apply (storage_wf_with_collection KTask); [done|].
  apply Map_wf_set; [by apply (storage_wf_collection KTask) | apply prop_created_id].
Qed.

Lemma storage_wf_createContact c s :
  storage_wf s → storage_wf (createContact randomUUID c s).2.
Proof.
  intros Hs. unfold createContact. cbn [snd]. apply storage_wf_next_uuid.
  apply (storage_wf_with_collection KContact); [done|].
  apply Map_wf_set; [by apply (storage_wf_collection KContact) | apply prop_insert_eq].
Qed.

Lemma storage_wf_createBudgetItem b s :
  storage_wf s → storage_wf (createBudgetItem randomUUID b s).2.
Proof.
  intros Hs. unfold createBudgetItem. cbn [snd]. apply storage_wf_next_uuid.
  apply (storage_wf_with_collection KBudgetItem); [done|].
  apply Map_wf_set; [by apply (storage_wf_collection KBudgetItem) | apply prop_insert_eq].
Qed.

Lemma storage_wf_createCalendarEvent e s :
  storage_wf s → storage_wf (createCalendarEvent randomUUID e s).2.
Proof.
  intros Hs. unfold createCalendarEvent. cbn [snd]. apply storage_wf_next_uuid.
  apply (storage_wf_with_collection KCalendarEvent); [done|].
  apply Map_wf_set; [by apply (storage_wf_collection KCalendarEvent) | apply prop_insert_eq].
Qed.

Lemma storage_wf_createProject p s :
  storage_wf s → storage_wf (createProject randomUUID clock p s).2.
Proof.
  intros Hs.
  assert (Hfold : ∀ id template s1, storage_wf s1 →
    storage_wf (foldl (λ s' taskTemplate,
       (createTask randomUUID clock (templateTask id taskTemplate) s').2) s1 template)).
  { intros id template. induction template as [|e template IH]; intros s1 Hs1; [done|].
    cbn [foldl]. by apply IH, storage_wf_createTask. }
  assert (Hs1 : storage_wf (next_uuid (with_projects
            (Map_set (randomUUID (uuidCalls s))
               (<["createdAt" := VDate (clock (uuidCalls s))]>
                  (<["id" := VStr (randomUUID (uuidCalls s))]> p)) (projects s)) s))).
  { apply storage_wf_next_uuid, (storage_wf_with_collection KProject); [done|].
    apply Map_wf_set; [by apply (storage_wf_collection KProject) | apply prop_created_id]. }
  unfold createProject.
  destruct (truthy _ && _); [destruct (projectTemplates _)|]; cbn [snd]; try done.
  by apply Hfold.
Qed.

(** Every handler keeps the store well formed: the creates file a record
    under the id they give it, and the update schemas let no [id] through. *)
Lemma storage_wf_handle (r : request) (s : MemStorage) :
  storage_wf s → storage_wf (handle randomUUID clock r s).2.
Proof.
  intros Hs. destruct r as [kind b|kind id b|kind id]; cbn [handle].
  - destruct kind; cbn;
      [unfold post_projects|unfold post_tasks|unfold post_contacts
      |unfold post_budget_items|unfold post_calendar_events];
      destruct (zparse _ _) as [validatedData|]; try done.
    + pose proof (storage_wf_createProject validatedData s Hs).
      by destruct (createProject _ _ _ _) as [[project|] s'].
    + pose proof (storage_wf_createTask validatedData s Hs).
      by destruct (createTask _ _ _ _).
    + pose proof (storage_wf_createContact validatedData s Hs).
      by destruct (createContact _ _ _).
    + pose proof (storage_wf_createBudgetItem validatedData s Hs).
      by destruct (createBudgetItem _ _ _).
    + pose proof (storage_wf_createCalendarEvent validatedData s Hs).
      by destruct (createCalendarEvent _ _ _).
  - rewrite patch_unfold.
    destruct (zparse _ _) as [validatedData|] eqn:Hparse; [|done].
    assert (Hid : validatedData !! "id" = None).
    { rewrite (zparse_lookup _ _ _ Hparse). rewrite decide_False; [done|].
      apply protected_not_in_update_schema. by_compute. }
    pose proof (storage_wf_update kind id validatedData s Hs Hid).
    by destruct (store_update kind id validatedData s) as [[?|] ?].
  - pose proof (storage_wf_delete kind id s Hs) as Hd.
    destruct kind; cbn [store_delete] in Hd.
    + unfold delete_projects. by destruct (deleteProject id s) as [[|] ?].
    + unfold delete_tasks. by destruct (deleteTask id s) as [[|] ?].
    + unfold delete_contacts. by destruct (deleteContact id s) as [[|] ?].
    + unfold delete_budget_items. by destruct (deleteBudgetItem id s) as [[|] ?].
    + unfold delete_calendar_events. by destruct (deleteCalendarEvent id s) as [[|] ?].
Qed.

Lemma storage_wf_serve (rs : list request) (s : MemStorage) :
  storage_wf s → storage_wf (serve randomUUID clock rs s).
Proof.
  revert s. induction rs as [|r rs IH]; intros s Hs; [done|].
  cbn. by apply IH, storage_wf_handle.
Qed.
Lemma extends_refl s : extends randomUUID s s.
Proof. split; [done|]. intros kind k Hk. by left. Qed.

Lemma extends_trans s1 s2 s3 :
  extends randomUUID s1 s2 → extends randomUUID s2 s3 → extends randomUUID s1 s3.
Proof.
  intros [Hle1 H1] [Hle2 H2]. split; [lia|]. intros kind k Hk.
  destruct (H2 kind k Hk) as [Hk2|(i & Hi & ->)].
  - destruct (H1 kind k Hk2) as [?|(i & Hi & ->)]; [by left|].
    right. exists i. split; [lia | done].
  - right. exists i. split; [lia | done].
Qed.

Lemma keys_issued_extends s s' :
  extends randomUUID s s' → keys_issued randomUUID s → keys_issued randomUUID s'.
Proof.
  intros [Hle Hext] Hs. unfold keys_issued. rewrite !Forall_app.
  assert (Hall : ∀ kind, Forall (λ k, k ∈ issued randomUUID s')
                          (Map_keys (collection kind s'))).
  { intros kind. apply Forall_forall. intros k Hk. apply issued_elem.
    destruct (Hext kind k Hk) as [Hold|(i & Hi & ->)].
    - apply (keys_issued_collection randomUUID s kind k Hs) in Hold.
      apply issued_elem in Hold as (i & Hi & ->).
      exists i. split; [lia | done].
    - exists i. split; [lia | done]. }
  split_and!; [apply (Hall KProject)|apply (Hall KTask)|apply (Hall KContact)
              |apply (Hall KBudgetItem)|apply (Hall KCalendarEvent)].
Qed.

(** Filing a record under the next draw. *)
Lemma extends_insert kind (r : obj) s :
  extends randomUUID s
    (next_uuid (with_collection kind
       (Map_set (randomUUID (uuidCalls s)) r (collection kind s)) s)).
Proof.
  split; [destruct kind; cbn; lia|]. intros kind' k Hk.
  assert (Hcoll : collection kind' (next_uuid (with_collection kind
            (Map_set (randomUUID (uuidCalls s)) r (collection kind s)) s)) =
          collection kind' (with_collection kind
            (Map_set (randomUUID (uuidCalls s)) r (collection kind s)) s))
    by by destruct kind, kind'.
  rewrite Hcoll, collection_with_collection in Hk.
  case_decide as Hkind; [subst kind'|by left].
  rewrite Map_keys_set in Hk. destruct (Map_has _ _); [by left|].
  apply elem_of_app in Hk as [?|Hk]; [by left|].
  apply list_elem_of_singleton in Hk as ->.
  right. exists (uuidCalls s). split; [destruct kind; cbn; lia | done].
Qed.

Lemma extends_createTask t s : extends randomUUID s (createTask randomUUID clock t s).2.
Proof. apply (extends_insert KTask). Qed.

Lemma extends_createContact c s : extends randomUUID s (createContact randomUUID c s).2.
Proof. apply (extends_insert KContact). Qed.

Lemma extends_createBudgetItem b s :
  extends randomUUID s (createBudgetItem randomUUID b s).2.
Proof. apply (extends_insert KBudgetItem). Qed.

Lemma extends_createCalendarEvent e s :
  extends randomUUID s (createCalendarEvent randomUUID e s).2.
Proof. apply (extends_insert KCalendarEvent). Qed.

Lemma extends_createProject p s :
  extends randomUUID s (createProject randomUUID clock p s).2.
Proof.
  assert (Hfold : ∀ id template s1,
    extends randomUUID s1 (foldl (λ s' taskTemplate,
       (createTask randomUUID clock (templateTask id taskTemplate) s').2) s1 template)).
  { intros id template. induction template as [|e template IH]; intros s1.
    - apply extends_refl.
    - cbn [foldl]. eapply extends_trans; [apply extends_createTask | apply IH]. }
  pose proof (extends_insert KProject
    (<["createdAt" := VDate (clock (uuidCalls s))]>
       (<["id" := VStr (randomUUID (uuidCalls s))]> p)) s) as Hs1.
  unfold createProject.
  destruct (truthy _ && _); [destruct (projectTemplates _)|]; cbn [snd]; try done.
  eapply extends_trans; [exact Hs1 | apply Hfold].
Qed.

Lemma extends_update kind id data s :
  extends randomUUID s (store_update kind id data s).2.
Proof.
  rewrite store_update_unfold, store_get_collection.
  destruct (Map_get id (collection kind s)) as [r|] eqn:Hget; [|apply extends_refl].
  split; [cbn [snd]; by rewrite uuidCalls_with_collection|]. intros kind' k Hk. left.
  cbn [snd] in Hk. rewrite collection_with_collection in Hk.
  case_decide as Hkind; [subst kind'|done].
  rewrite Map_keys_set in Hk. unfold Map_has in Hk. by rewrite Hget in Hk.
Qed.

Lemma sweep_keys id (m : JsMap obj) k : k ∈ Map_keys (sweep id m) → k ∈ Map_keys m.
Proof.
  unfold sweep. rewrite foldl_Map_delete_val. unfold Map_keys.
  intros (e & -> & He)%list_elem_of_fmap. apply list_elem_of_filter in He as [_ He].
  by apply list_elem_of_fmap_2.
Qed.

Lemma Map_remove_keys {V} id (m : JsMap V) k :
  k ∈ Map_keys (Map_remove id m) → k ∈ Map_keys m.
Proof. rewrite Map_keys_remove. by intros [_ ?]%list_elem_of_filter. Qed.

Lemma extends_delete kind id s : extends randomUUID s (store_delete kind id s).2.
Proof.
  split; [by rewrite uuidCalls_store_delete|]. intros kind' k Hk. left. revert Hk.
  destruct kind; cbn [store_delete].
  - destruct (getProject id s) as [P|] eqn:Hget.
    + rewrite (deleteProject_present _ _ _ Hget).
      destruct kind'; cbn; by apply Map_remove_keys || by apply sweep_keys.
    + by rewrite deleteProject_absent.
  - destruct kind'; cbn; try done. apply Map_remove_keys.
  - destruct kind'; cbn; try done. apply Map_remove_keys.
  - destruct kind'; cbn; try done. apply Map_remove_keys.
  - destruct kind'; cbn; try done. apply Map_remove_keys.
Qed.

Lemma extends_exec (op : Op) (s : MemStorage) :
  extends randomUUID s (exec randomUUID clock op s).2.
Proof.
  destruct op as [p|t|c|b|e|kind id data|kind id]; cbn [exec].
  - pose proof (extends_createProject p s).
    by destruct (createProject _ _ _ _) as [[?|] ?].
  - apply extends_createTask.
  - apply extends_createContact.
  - apply extends_createBudgetItem.
  - apply extends_createCalendarEvent.
  - pose proof (extends_update kind id data s).
    by destruct (store_update kind id data s).
  - pose proof (extends_delete kind id s).
    by destruct (store_delete kind id s).
Qed.

Lemma extends_handle (r : request) (s : MemStorage) :
  extends randomUUID s (handle randomUUID clock r s).2.
Proof.
  destruct r as [kind b|kind id b|kind id]; cbn [handle].
  - destruct kind; cbn;
      [unfold post_projects|unfold post_tasks|unfold post_contacts
      |unfold post_budget_items|unfold post_calendar_events];
      (destruct (zparse _ _) as [validatedData|]; [|apply extends_refl]).
    + pose proof (extends_createProject validatedData s).
      by destruct (createProject _ _ _ _) as [[project|] s'].
    + pose proof (extends_createTask validatedData s).
      by destruct (createTask _ _ _ _).
    + pose proof (extends_createContact validatedData s).
      by destruct (createContact _ _ _).
    + pose proof (extends_createBudgetItem validatedData s).
      by destruct (createBudgetItem _ _ _).
    + pose proof (extends_createCalendarEvent validatedData s).
      by destruct (createCalendarEvent _ _ _).
  - rewrite patch_unfold.
    destruct (zparse _ _) as [validatedData|]; [|apply extends_refl].
    pose proof (extends_update kind id validatedData s).
    by destruct (store_update kind id validatedData s) as [[?|] ?].
  - pose proof (extends_delete kind id s) as Hd.
    destruct kind; cbn [store_delete] in Hd.
    + unfold delete_projects. by destruct (deleteProject id s) as [[|] ?].
    + unfold delete_tasks. by destruct (deleteTask id s) as [[|] ?].
    + unfold delete_contacts. by destruct (deleteContact id s) as [[|] ?].
    + unfold delete_budget_items. by destruct (deleteBudgetItem id s) as [[|] ?].
    + unfold delete_calendar_events. by destruct (deleteCalendarEvent id s) as [[|] ?].
Qed.

(** Process start to any later moment: whatever requests were served, every
    record sits under its own id and every key is one the generator issued. *)
Lemma reachable_invariants (rs : list request) :
  storage_wf (serve randomUUID clock rs emptyStorage) ∧
  keys_issued randomUUID (serve randomUUID clock rs emptyStorage).
Proof.
  split; [apply storage_wf_serve, storage_wf_empty|].
  assert (Hserve : ∀ s, keys_issued randomUUID s →
            keys_issued randomUUID (serve randomUUID clock rs s)).
  { induction rs as [|r rs IH]; intros s Hs; [done|]. cbn. apply IH.
    by apply (keys_issued_extends s _ (extends_handle r s)). }
  apply Hserve. by apply Forall_nil.
Qed.

(** The same for sequences of direct store calls, as long as no update
    payload carries an [id] key. *)
Lemma run_invariants (ops : list Op) (s : MemStorage) :
  Forall (λ op, match op with Update _ _ data => data !! "id" = None | _ => True end) ops →
  storage_wf s → keys_issued randomUUID s →
  storage_wf (run randomUUID clock ops s).2 ∧
  keys_issued randomUUID (run randomUUID clock ops s).2.
Proof.
  intros Hops. revert s. induction Hops as [|op ops Hop _ IH]; intros s Hwf Hkeys; [done|].
  cbn [run]. pose proof (extends_exec op s) as Hext.
  assert (Hwf1 : storage_wf (exec randomUUID clock op s).2).
  { destruct op as [p|t|c|b|e|kind id data|kind id]; cbn [exec].
    - pose proof (storage_wf_createProject p s Hwf).
      by destruct (createProject _ _ _ _) as [[?|] ?].
    - by apply storage_wf_createTask.
    - by apply storage_wf_createContact.
    - by apply storage_wf_createBudgetItem.
    - by apply storage_wf_createCalendarEvent.
    - pose proof (storage_wf_update kind id data s Hwf Hop).
      by destruct (store_update kind id data s).
    - pose proof (storage_wf_delete kind id s Hwf).
      by destruct (store_delete kind id s). }
  destruct (exec randomUUID clock op s) as [r s1]. cbn [snd] in *.
  destruct (IH s1 Hwf1 (keys_issued_extends _ _ Hext Hkeys)) as [? ?].
  by destruct (run randomUUID clock ops s1).
Qed.
End Reachable.

(** ** Ids are given once *)

Section Uniqueness.
Variable randomUUID : nat → string.
Variable clock : nat → Z.
Hypothesis randomUUID_inj : Inj (=) (=) randomUUID.

(** C9. Whatever operations are run and whatever the store they start from,
    the ids of the records returned by the create operations are pairwise
    distinct, within each kind and over all kinds together, and none of them
    is an id that the generator had handed out before the run (so the id of
    a record deleted since is not given again); this rests on the generator
    never repeating a value.  And as long as no update payload carries an
    [id] key (none does through the routes), every record in the store is
    still filed under the id it was created with, no two under the same. *)
Theorem created_ids_distinct (ops : list Op) (s : MemStorage) :
  (∀ kind, NoDup (created_ids kind (run randomUUID clock ops s).1)) ∧
  NoDup (all_created_ids (run randomUUID clock ops s).1) ∧
  (∀ k, k ∈ issued randomUUID s →
        VStr k ∉ all_created_ids (run randomUUID clock ops s).1) ∧
  (Forall (λ op, match op with Update _ _ data => data !! "id" = None | _ => True end) ops →
   storage_wf s → keys_issued randomUUID s →
   storage_wf (run randomUUID clock ops s).2 ∧
   keys_issued randomUUID (run randomUUID clock ops s).2).
Proof.
  destruct (run_draws randomUUID clock ops s) as (_ & draws & Hids & Hsorted & Hrange).
  assert (Hinj : Inj (=) (=) (VStr ∘ randomUUID)).
  { intros i j [= Hij]. by apply randomUUID_inj. }
  assert (Hall : NoDup (all_created_ids (run randomUUID clock ops s).1)).
  { rewrite Hids. apply (NoDup_fmap_2 _).
    clear -Hsorted. induction Hsorted as [|i draws _ IH Hlt]; constructor; [|done].
    intros Hin. rewrite Forall_forall in Hlt. specialize (Hlt _ Hin). lia. }
  split_and!.
  - intros kind. apply (sublist_NoDup _ _ Hall), created_ids_sublist.
  - done.
  - intros k (i & Hi & ->)%issued_elem. rewrite Hids.
    intros (j & Heq & Hj)%list_elem_of_fmap. apply Hinj in Heq as <-.
    rewrite Forall_forall in Hrange. specialize (Hrange _ Hj). lia.
  - apply run_invariants.
Qed.
End Uniqueness.

(** ** Evaluations *)

(** [toFixed] on a few doubles, as a JavaScript console prints them:
    [(0.05).toFixed(1)], [(1.45).toFixed(1)], [(2.5).toFixed(0)],
    [(-0.04).toFixed(1)], [(1.005).toFixed(2)], [(1234.5678).toFixed(2)]. *)
Example toFixed_examples :
  toFixed (λ _, "") 1 (num 5 / num 100) = "0.1" ∧
  toFixed (λ _, "") 1 (num 145 / num 100) = "1.4" ∧
  toFixed (λ _, "") 0 (num 5 / num 2) = "3" ∧
  toFixed (λ _, "") 1 (num (-4) / num 100) = "-0.0" ∧
  toFixed (λ _, "") 2 (num 1005 / num 1000) = "1.00" ∧
  toFixed (λ _, "") 2 (num 12345678 / num 10000) = "1234.57".
Proof. vm_compute. by repeat split. Qed.

(** The margin line: a tie at one decimal, a loss, a repeating fraction, and
    no budget. *)
Example marginLine_examples :
  marginLine (λ _, "") 400 [mkBudgetItem "b" "p" "d" (Some 0) (Some 351) (Some "Paid") None] = "12.3% margin" ∧
  marginLine (λ _, "") 1000 [mkBudgetItem "b" "p" "d" (Some 0) (Some 1500) (Some "Paid") None] = "-50.0% margin" ∧
  marginLine (λ _, "") 3 [mkBudgetItem "b" "p" "d" (Some 0) (Some 1) (Some "Paid") None] = "66.7% margin" ∧
  marginLine (λ _, "") 0 [mkBudgetItem "b" "p" "d" (Some 0) (Some 1) (Some "Paid") None] = "No budget set".
Proof. vm_compute. by repeat split. Qed.

(** The wedding project of the running store owns the thirteen template
    tasks, in template order. *)
Example sample_store_wedding_tasks :
  (λ t, prop t "title") <$> getTasksByProject "0" sample_store =
    VStr <$> Wedding_template.*1 ∧
  length (getTasks sample_store) = 14%nat.
Proof. vm_compute. by split. Qed.

(** A project whose type names a member of [Object.prototype]: the project
    is stored, no task is created, and the call throws. *)
Example createProject_inherited_key :
  let result := createProject sample_uuid sample_clock
                  {[ "name" := VStr "x"; "type" := VStr "constructor" ]} emptyStorage in
  result.1 = Throws ∧ tasks result.2 = [] ∧ Map_keys (projects result.2) = ["0"].
Proof. vm_compute. by repeat split. Qed.

(** PATCH on a task with a [projectId] in the body: the title changes, the
    owner does not. *)
Example patch_tasks_keeps_projectId :
  let after := getTask "15"
                 (patch_tasks "15" {[ "projectId" := VStr "0";
                                      "title" := VStr "Call the venue" ]} sample_store).2 in
  (λ r, prop r "projectId") <$> after = Some (VStr "14") ∧
  (λ r, prop r "title") <$> after = Some (VStr "Call the venue").
Proof. vm_compute. by split. Qed.

(** PATCH on a project with only a status in the body: the shoot date is
    overwritten with [undefined]. *)
Example patch_projects_clears_shootDate :
  let after := getProject "0"
                 (patch_projects "0" {[ "status" := VStr "Editing" ]} sample_store).2 in
  (λ r, r !! "shootDate") <$> getProject "0" sample_store
    = Some (Some (VDate 1750000000000)) ∧
  (λ r, r !! "shootDate") <$> after = Some (Some VUndef) ∧
  (λ r, prop r "status") <$> after = Some (VStr "Editing").
Proof. vm_compute. by repeat split. Qed.

(** ** The theorems at work on the running store *)

(** The sample generator never repeats. *)
Lemma sample_uuid_inj : Inj (=) (=) sample_uuid.
Proof. intros m n Hmn. by apply (inj pretty). Qed.

(** Deleting the wedding project "0" of the running store. *)
Lemma deleteProject_cascade_witness :
  storage_wf sample_store ∧
  getProject "0" sample_store = Some sample_wedding ∧
  ∃ s', deleteProject "0" sample_store = (true, s') ∧
        getProject "0" s' = None ∧
        (∀ d, store_listByProject d "0" s' = []) ∧
        (∀ q, q ≠ "0" → getProject q s' = getProject q sample_store).
Proof.
  assert (Hwf : storage_wf sample_store) by by_compute.
  assert (Hget : getProject "0" sample_store = Some sample_wedding)
    by (vm_compute; reflexivity).
  split; [exact Hwf|]. split; [exact Hget|].
  destruct (deleteProject_cascade "0" sample_wedding sample_store Hwf Hget)
    as (s' & Hdel & Hgone & Hlists & _ & _ & Hothers & _).
  exists s'. split; [exact Hdel|]. split; [exact Hgone|]. split; [exact Hlists | exact Hothers].
Defined.

(** A PATCH of task "15" that tries to move it to project "0". *)
Lemma patch_protects_identity_witness :
  store_get (kind_of DTask) "15" sample_store = Some sample_task ∧
  patch (kind_of DTask) "15"
        {[ "projectId" := VStr "0"; "title" := VStr "Call the venue" ]} sample_store =
  patch (kind_of DTask) "15"
        (without_protected {[ "projectId" := VStr "0"; "title" := VStr "Call the venue" ]})
        sample_store.
Proof.
  assert (Hget : store_get (kind_of DTask) "15" sample_store = Some sample_task)
    by (vm_compute; reflexivity).
  split; [exact Hget|].
  exact (proj1 (patch_protects_identity DTask "15"
                  {[ "projectId" := VStr "0"; "title" := VStr "Call the venue" ]}
                  sample_store sample_task Hget)).
Defined.

(** A second wedding created in the running store. *)
Lemma createProject_template_witness :
  keys_issued sample_uuid sample_store ∧
  prop sample_insertProject "type" = VStr "Wedding" ∧
  ∃ seeded : list obj,
    getTasks (createProject sample_uuid sample_clock sample_insertProject sample_store).2 =
      getTasks sample_store ++ seeded ∧
    length seeded = 13%nat.
Proof.
  assert (Hkeys : keys_issued sample_uuid sample_store) by by_compute.
  assert (Htype : prop sample_insertProject "type" = VStr "Wedding") by reflexivity.
  split; [exact Hkeys|]. split; [exact Htype|].
  destruct (createProject_template sample_uuid sample_clock sample_uuid_inj
              sample_insertProject sample_store Hkeys) as (_ & Hwedding & _).
  destruct (Hwedding Htype) as (seeded & Htasks & Hlen & _).
  exists seeded. split; [exact Htasks | exact Hlen].
Defined.

(** The margin line for a budget of 5000 and one item. *)
Lemma margin_zero_budget_guard_witness :
  0 < 5000 ∧
  marginLine (λ _, "") 5000 [mkBudgetItem "b1" "p" "studio" (Some 1000) (Some 1200) (Some "Paid") None] =
    toFixed (λ _, "") 1
      (profitLoss 5000 [mkBudgetItem "b1" "p" "studio" (Some 1000%Z) (Some 1200%Z) (Some "Paid") None]
       / num 5000 * num 100)%float +:+ "% margin".
Proof.
  assert (Hpos : 0 < 5000) by lia.
  split; [exact Hpos|].
  exact (proj2 (margin_zero_budget_guard (λ _, "") 5000
                  [mkBudgetItem "b1" "p" "studio" (Some 1000) (Some 1200) (Some "Paid") None]) Hpos).
Defined.

(** Deleting a project id the running store does not hold. *)
Lemma delete_absent_is_noop_witness :
  store_get KProject "99" sample_store = None ∧
  store_delete KProject "99" sample_store = (false, sample_store).
Proof.
  assert (Hnone : store_get KProject "99" sample_store = None)
    by (vm_compute; reflexivity).
  split; [exact Hnone|].
  exact (proj1 (delete_absent_is_noop KProject "99" sample_store) Hnone).
Defined.

(** The ids handed back while the running store was built. *)
Lemma created_ids_distinct_witness :
  NoDup (all_created_ids (run sample_uuid sample_clock sample_ops emptyStorage).1) ∧
  NoDup (created_ids KProject (run sample_uuid sample_clock sample_ops emptyStorage).1).
Proof.
  destruct (created_ids_distinct sample_uuid sample_clock sample_uuid_inj
              sample_ops emptyStorage) as (Hkind & Hall & _ & _).
  split; [exact Hall | exact (Hkind KProject)].
Defined.

(** A PATCH of project "0" that only sets a status. *)
Lemma update_applies_undefined_witness :
  store_get KProject "0" sample_store = Some sample_wedding ∧
  prop sample_wedding "shootDate" = VDate 1750000000000 ∧
  ∃ s', patch_projects "0" {[ "status" := VStr "Editing" ]} sample_store =
          (Json 200 (toJSON (spread sample_wedding
                               {[ "status" := VStr "Editing"; "shootDate" := VUndef ]})),
           s') ∧
        prop (spread sample_wedding {[ "status" := VStr "Editing"; "shootDate" := VUndef ]})
             "shootDate" = VUndef.
Proof.
  assert (Hget : store_get KProject "0" sample_store = Some sample_wedding)
    by (vm_compute; reflexivity).
  split; [exact Hget|]. split; [reflexivity|].
  destruct (update_applies_undefined KProject "0" sample_store sample_wedding Hget)
    as [_ Hroute].
  destruct (Hroute eq_refl {[ "status" := VStr "Editing" ]}
              {[ "status" := VStr "Editing"; "shootDate" := VUndef ]})
    as (_ & s' & Hpatch & _ & Hundef & _).
  - reflexivity.
  - vm_compute. reflexivity.
  - exists s'. split; [exact Hpatch | exact Hundef].
Defined.

(** * Further properties of the code *)

(** ** The store: creating, listing, updating, deleting *)

Lemma Map_set_same {V} (k : string) (v : V) (m : JsMap V) :
  Map_get k m = Some v → Map_set k v m = m.
Proof.
  induction m as [|[k' v'] m IH]; cbn; [done|].
  destruct (String.eqb_spec k' k) as [->|Hne]; [by intros [= ->]|].
  intros Hget. by rewrite IH.
Qed.

Lemma Map_set_set {V} (k : string) (v1 v2 : V) (m : JsMap V) :
  Map_set k v2 (Map_set k v1 m) = Map_set k v2 m.
Proof.
  induction m as [|[k' v'] m IH]; cbn.
  - by rewrite String.eqb_refl.
  - destruct (String.eqb_spec k' k) as [->|Hne]; cbn.
    + by rewrite String.eqb_refl.
    + rewrite (proj2 (String.eqb_neq k' k)) by done. by rewrite IH.
Qed.

Lemma Map_remove_app {V} (k : string) (m1 m2 : JsMap V) :
  Map_remove k (m1 ++ m2) = Map_remove k m1 ++ Map_remove k m2.
Proof. rewrite !Map_remove_filter. apply filter_app. Qed.

Section Store_more.
Variable randomUUID : nat → string.
Variable clock : nat → Z.

Lemma store_insert_unfold (d : Dependent) (payload : obj) (s : MemStorage) :
  store_insert randomUUID clock d payload s =
    (inserted_record randomUUID clock d payload (uuidCalls s),
     next_uuid (with_collection (kind_of d)
       (Map_set (randomUUID (uuidCalls s))
          (inserted_record randomUUID clock d payload (uuidCalls s))
          (collection (kind_of d) s)) s)).
Proof. by destruct d. Qed.

Lemma collection_next_uuid kind s : collection kind (next_uuid s) = collection kind s.
Proof. by destruct kind. Qed.

(** X1. Insert, then look up.  Each create method of a dependent kind
    returns the payload with [id] set to the value just drawn (whatever [id]
    the payload carried), stores that record, and the id then fetches it;
    every other key of the payload is kept as given (for a task, [createdAt]
    is the clock reading instead); one draw is consumed and no other
    collection changes.  No project needs to exist under the payload's
    [projectId]. *)
Theorem insert_then_get (d : Dependent) (payload : obj) (s : MemStorage) :
  let id := randomUUID (uuidCalls s) in
  let r := (store_insert randomUUID clock d payload s).1 in
  let s' := (store_insert randomUUID clock d payload s).2 in
  store_get (kind_of d) id s' = Some r ∧
  prop r "id" = VStr id ∧
  (∀ k, k ≠ "id" → k ≠ "createdAt" → r !! k = payload !! k) ∧
  r !! "createdAt" =
    match d with DTask => Some (VDate (clock (uuidCalls s))) | _ => payload !! "createdAt" end ∧
  uuidCalls s' = S (uuidCalls s) ∧
  (∀ kind, kind ≠ kind_of d → collection kind s' = collection kind s).
Proof.
  intros id r s'. unfold r, s'. rewrite store_insert_unfold. cbn [fst snd]. split_and!.
  - rewrite store_get_collection, collection_next_uuid, collection_with_collection.
    rewrite decide_True by done. rewrite Map_get_set. by rewrite decide_True.
  - destruct d; cbn [inserted_record]; by rewrite ?prop_created_id, ?prop_insert_eq.
  - intros k Hid Hcr. destruct d; cbn [inserted_record];
      by rewrite ?lookup_insert_ne by done.
  - destruct d; cbn [inserted_record];
      by rewrite ?lookup_insert_eq, ?lookup_insert_ne by done.
  - by destruct d.
  - intros kind Hkind. rewrite collection_next_uuid, collection_with_collection.
    by rewrite decide_False by done.
Qed.

Hypothesis randomUUID_inj : Inj (=) (=) randomUUID.

(** X2. Listing is in insertion order and a create clobbers nothing: with a
    generator that never repeats, on a store whose keys it issued, the new
    record goes to the end of its collection's listing and every record that
    was stored is still fetched unchanged. *)
Theorem insert_appends (d : Dependent) (payload : obj) (s : MemStorage) :
  keys_issued randomUUID s →
  store_list (kind_of d) (store_insert randomUUID clock d payload s).2 =
    store_list (kind_of d) s ++ [(store_insert randomUUID clock d payload s).1] ∧
  (∀ kind id r, store_get kind id s = Some r →
     store_get kind id (store_insert randomUUID clock d payload s).2 = Some r).
Proof.
  intros Hkeys. rewrite store_insert_unfold. cbn [fst snd].
  assert (Hfresh : Map_get (randomUUID (uuidCalls s)) (collection (kind_of d) s) = None).
  { apply (fresh_key randomUUID randomUUID_inj _ s); [|done].
    apply Forall_forall. intros k. apply keys_issued_collection, Hkeys. }
  split.
  - rewrite !store_list_collection, collection_next_uuid, collection_with_collection.
    rewrite decide_True by done. rewrite Map_set_fresh by done.
    unfold Map_values. by rewrite fmap_app.
  - intros kind id r Hget. rewrite store_get_collection in *.
    rewrite collection_next_uuid, collection_with_collection.
    case_decide as Hk; [subst kind|done].
    rewrite Map_get_set. case_decide as Hid; [|done]. subst id. congruence.
Qed.
End Store_more.

Lemma Map_keys_set_present {V} (k : string) (v v' : V) (m : JsMap V) :
  Map_get k m = Some v' → Map_keys (Map_set k v m) = Map_keys m.
Proof. intros Hget. rewrite Map_keys_set. unfold Map_has. by rewrite Hget. Qed.

(** X3. An update keeps the place of the record: after [update] the keys of
    the collection are the same, in the same order (so the listing has the
    same length and the merged record sits where the old one sat), the other
    four collections are untouched and no id is drawn. *)
Theorem update_keeps_order (kind : Kind) (id : string) (data : obj) (s : MemStorage) :
  Map_keys (collection kind (store_update kind id data s).2) = Map_keys (collection kind s) ∧
  length (store_list kind (store_update kind id data s).2) = length (store_list kind s) ∧
  (∀ kind', kind' ≠ kind →
     collection kind' (store_update kind id data s).2 = collection kind' s) ∧
  uuidCalls (store_update kind id data s).2 = uuidCalls s.
Proof.
  assert (Hkeys : Map_keys (collection kind (store_update kind id data s).2) =
                  Map_keys (collection kind s)).
  { rewrite store_update_unfold, store_get_collection.
    destruct (Map_get id (collection kind s)) as [r|] eqn:Hget; [|done].
    cbn [snd]. rewrite collection_with_collection, decide_True by done.
    by apply (Map_keys_set_present _ _ r). }
  split_and!.
  - done.
  - rewrite !store_list_collection. unfold Map_values, Map_keys in *.
    rewrite !length_fmap. apply (f_equal length) in Hkeys.
    by rewrite !length_fmap in Hkeys.
  - intros kind' Hne. rewrite store_update_unfold.
    destruct (store_get kind id s); [|done]. cbn [snd].
    rewrite collection_with_collection. by rewrite decide_False by done.
  - apply uuidCalls_store_update.
Qed.

(** X4. Deleting a dependent record that is present reports [true] and
    removes that record only: the id no longer fetches anything, the rest of
    the collection is listed as before and in the same order, and the other
    collections (the project it belonged to included) are untouched. *)
Theorem delete_present_dependent (d : Dependent) (id : string) (r : obj)
    (s : MemStorage) :
  store_get (kind_of d) id s = Some r →
  ∃ s', store_delete (kind_of d) id s = (true, s') ∧
    store_get (kind_of d) id s' = None ∧
    collection (kind_of d) s' = base.filter (λ e, e.1 ≠ id) (collection (kind_of d) s) ∧
    (∀ id', id' ≠ id → store_get (kind_of d) id' s' = store_get (kind_of d) id' s) ∧
    (∀ kind, kind ≠ kind_of d → collection kind s' = collection kind s) ∧
    uuidCalls s' = uuidCalls s.
Proof.
  intros Hget. rewrite store_get_collection in Hget.
  exists (with_collection (kind_of d) (Map_remove id (collection (kind_of d) s)) s).
  split_and!.
  - destruct d; cbn in *;
      unfold deleteTask, deleteContact, deleteBudgetItem, deleteCalendarEvent,
        Map_delete, Map_has; by rewrite Hget.
  - rewrite store_get_collection, collection_with_collection, decide_True by done.
    rewrite Map_get_remove. by rewrite decide_True.
  - rewrite collection_with_collection, decide_True by done. apply Map_remove_filter.
  - intros id' Hne. rewrite !store_get_collection, collection_with_collection.
    rewrite decide_True by done. rewrite Map_get_remove. by rewrite decide_False.
  - intros kind Hne. rewrite collection_with_collection. by rewrite decide_False.
  - apply uuidCalls_with_collection.
Qed.

Lemma spread_assoc (r d1 d2 : obj) : spread (spread r d1) d2 = spread r (spread d1 d2).
Proof. unfold spread. by rewrite (assoc_L (∪)). Qed.

Lemma with_collection_twice kind m1 m2 s :
  with_collection kind m2 (with_collection kind m1 s) = with_collection kind m2 s.
Proof. by destruct kind. Qed.

(** X5. Two updates of one record in a row are one update with the two
    payloads merged, the later payload winning: same returned record, same
    store. *)
Theorem update_twice (kind : Kind) (id : string) (d1 d2 : obj) (s : MemStorage) :
  store_update kind id d2 (store_update kind id d1 s).2 =
  store_update kind id (spread d1 d2) s.
Proof.
  rewrite (store_update_unfold kind id d1 s), (store_update_unfold kind id (spread d1 d2) s).
  destruct (store_get kind id s) as [r|] eqn:Hget; cbn [snd].
  - rewrite store_update_unfold, store_get_collection, collection_with_collection.
    rewrite decide_True by done. rewrite Map_get_set, decide_True by done.
    by rewrite with_collection_twice, Map_set_set, spread_assoc.
  - by rewrite store_update_unfold, Hget.
Qed.

Lemma with_collection_same kind s : with_collection kind (collection kind s) s = s.
Proof. by destruct kind, s. Qed.

(** X6. An update that brings nothing new changes nothing: when every key
    of the payload already has the payload's value in the stored record (the
    empty payload, for one), the record is returned as it is and the store
    is the same store. *)
Theorem update_without_change (kind : Kind) (id : string) (data r : obj)
    (s : MemStorage) :
  store_get kind id s = Some r →
  (∀ k v, data !! k = Some v → r !! k = Some v) →
  store_update kind id data s = (Some r, s).
Proof.
  intros Hget Hsub. rewrite store_update_unfold, Hget.
  assert (Hmerge : spread r data = r).
  { apply map_eq. intros k. rewrite spread_lookup.
    destruct (data !! k) as [v|] eqn:Hk; [|done]. symmetry. by apply Hsub. }
  rewrite Hmerge. rewrite store_get_collection in Hget.
  by rewrite Map_set_same, with_collection_same.
Qed.

Lemma store_delete_dependent_unfold (d : Dependent) (id : string) (s : MemStorage) :
  store_delete (kind_of d) id s =
    (Map_has id (collection (kind_of d) s),
     with_collection (kind_of d) (Map_remove id (collection (kind_of d) s)) s).
Proof. by destruct d. Qed.

Lemma sweep_unreferenced (id : string) (m : JsMap obj) :
  Map_wf m → (∀ r, r ∈ Map_values m → ¬ owned_by id r) → sweep id m = m.
Proof.
  intros Hwf Hnone. rewrite sweep_wf by done.
  induction m as [|[k r] m IH]; [done|].
  rewrite filter_cons. cbn [snd]. rewrite decide_True.
  - f_equal. apply IH.
    + destruct Hwf as [Hnd Hid]. unfold Map_keys in Hnd. rewrite fmap_cons in Hnd.
      apply NoDup_cons in Hnd as [_ Hnd]. apply Forall_cons in Hid as [_ Hid]. by split.
    + intros r' Hr'. apply Hnone. unfold Map_values. rewrite fmap_cons. by right.
  - apply Hnone. unfold Map_values. rewrite fmap_cons. by left.
Qed.

Section Round_trips.
Variable randomUUID : nat → string.
Variable clock : nat → Z.
Hypothesis randomUUID_inj : Inj (=) (=) randomUUID.

Lemma fresh_in_collection (kind : Kind) (s : MemStorage) (n : nat) :
  keys_issued randomUUID s → (uuidCalls s ≤ n)%nat →
  Map_get (randomUUID n) (collection kind s) = None.
Proof.
  intros Hkeys Hn. apply (fresh_key randomUUID randomUUID_inj _ s); [|done].
  apply Forall_forall. intros k. by apply keys_issued_collection.
Qed.

(** X7. Create, then delete again.  With a generator that never repeats, on
    a store whose keys it issued, deleting the record a create has just
    stored reports [true] and gives back the store as it was before the
    create, one draw later. *)
Theorem insert_then_delete (d : Dependent) (payload : obj) (s : MemStorage) :
  keys_issued randomUUID s →
  store_delete (kind_of d) (randomUUID (uuidCalls s))
               (store_insert randomUUID clock d payload s).2 =
    (true, next_uuid s).
Proof.
  intros Hkeys. pose proof (fresh_in_collection (kind_of d) s (uuidCalls s) Hkeys
                              (Nat.le_refl _)) as Hfresh.
  rewrite store_insert_unfold, store_delete_dependent_unfold. cbn [snd].
  rewrite collection_next_uuid, collection_with_collection, decide_True by done.
  unfold Map_has. rewrite Map_get_set, decide_True by done.
  rewrite Map_set_fresh, Map_remove_app, Map_remove_absent by done.
  cbn [Map_remove]. rewrite String.eqb_refl, app_nil_r.
  by destruct d, s.
Qed.

(** What [createProject] does to the store, whatever the type: the project
    goes to the end of the projects, one task per entry of the template (if
    the type has one) to the end of the tasks. *)
Lemma createProject_effect (insertProject : obj) (s : MemStorage) :
  keys_issued randomUUID s →
  let id := randomUUID (uuidCalls s) in
  let project := <["createdAt" := VDate (clock (uuidCalls s))]>
                   (<["id" := VStr id]> insertProject) in
  ∃ template : list (string * string),
    (createProject randomUUID clock insertProject s).2 =
      mkStorage (projects s ++ [(id, project)])
        (tasks s ++ imap (λ i taskTemplate,
                            (randomUUID (S (uuidCalls s) + i),
                             seededTask randomUUID clock id (S (uuidCalls s) + i)
                                        taskTemplate)) template)
        (contacts s) (budgetItems s) (calendarEvents s)
        (S (uuidCalls s) + length template) ∧
    (template = [] ∨
     (projectTemplates (prop insertProject "type") = TplArray template ∧
      (createProject randomUUID clock insertProject s).1 = Returns project)).
Proof.
  intros Hkeys id project.
  pose proof (fresh_in_collection KProject s (uuidCalls s) Hkeys (Nat.le_refl _)) as Hfresh.
  cbn [collection] in Hfresh.
  assert (Hnil : next_uuid (with_projects (Map_set id project (projects s)) s) =
                 mkStorage (projects s ++ [(id, project)]) (tasks s ++ [])
                   (contacts s) (budgetItems s) (calendarEvents s)
                   (S (uuidCalls s) + 0)).
  { unfold next_uuid, with_projects. cbn. unfold id.
    by rewrite Map_set_fresh, app_nil_r, Nat.add_0_r by done. }
  unfold createProject. fold id. fold project.
  destruct (truthy _ && _); [destruct (projectTemplates _) as [template| |] eqn:Htpl|];
    cbn [fst snd]; try (exists []; split; [exact Hnil | by left]).
  exists template. split; [|by right].
  rewrite seed_template; [|done|].
  - cbn. unfold id. by rewrite Map_set_fresh by done.
  - apply Forall_forall. intros k Hk.
    apply (keys_issued_collection randomUUID s KTask k Hkeys) in Hk.
    apply issued_elem in Hk as (i & Hi & ->). apply issued_elem. exists i.
    split; [cbn; lia | done].
Qed.

(** X8. Create a project, then delete it again.  On a well-formed store
    whose keys the generator issued and in which no record already names the
    new id as its project, deleting the project that [createProject] has
    just made (template tasks and all) reports [true] and leaves the five
    collections exactly as they were before the create. *)
Theorem createProject_then_deleteProject (insertProject : obj) (s : MemStorage) :
  storage_wf s → keys_issued randomUUID s →
  unreferenced (randomUUID (uuidCalls s)) s →
  let s1 := (createProject randomUUID clock insertProject s).2 in
  (deleteProject (randomUUID (uuidCalls s)) s1).1 = true ∧
  ∀ kind, collection kind (deleteProject (randomUUID (uuidCalls s)) s1).2 =
          collection kind s.
Proof.
  intros Hwf Hkeys Hunref s1.
  pose proof (storage_wf_createProject randomUUID clock insertProject s Hwf) as Hwf1.
  destruct (createProject_effect insertProject s Hkeys) as (template & Hs1 & _).
  fold s1 in Hwf1, Hs1. set (id := randomUUID (uuidCalls s)) in *.
  set (project := <["createdAt" := VDate (clock (uuidCalls s))]>
                    (<["id" := VStr id]> insertProject)) in *.
  set (entries := imap (λ i taskTemplate,
          (randomUUID (S (uuidCalls s) + i),
           seededTask randomUUID clock id (S (uuidCalls s) + i) taskTemplate)) template)
    in *.
  assert (Hget : getProject id s1 = Some project).
  { unfold getProject. rewrite Hs1. cbn.
    pose proof (fresh_in_collection KProject s (uuidCalls s) Hkeys (Nat.le_refl _)) as Hf.
    cbn in Hf. fold id in Hf.
    assert (Happ : ∀ m : JsMap obj, Map_get id m = None →
              Map_get id (m ++ [(id, project)]) = Some project).
    { intros m Hm. rewrite <- (Map_set_fresh id project m Hm), Map_get_set.
      by rewrite decide_True. }
    by apply Happ. }
  rewrite (deleteProject_present _ _ _ Hget). split; [done|].
  assert (Hown : Forall (λ e, owned_by id e.2) entries).
  { apply Forall_forall. intros [k t] Hin.
    apply elem_of_lookup_imap in Hin as (i & entry & [= -> ->] & _). cbn.
    apply (seededTask_props randomUUID clock). }
  assert (Hsweep : ∀ d, sweep id (collection (kind_of d) s) = collection (kind_of d) s).
  { intros d. apply sweep_unreferenced; [by apply storage_wf_collection|].
    intros r Hr. apply (Hunref d). by rewrite store_list_collection. }
  destruct Hwf1 as (_ & Hwt & _).
  intros kind. rewrite Hs1 in *. cbn [projects tasks contacts budgetItems calendarEvents] in *.
  destruct kind; cbn [collection projects tasks contacts budgetItems calendarEvents].
  - rewrite Map_remove_app, Map_remove_absent
      by apply (fresh_in_collection KProject s (uuidCalls s) Hkeys (Nat.le_refl _)).
    cbn. unfold id. by rewrite String.eqb_refl, app_nil_r.
  - rewrite sweep_wf by done. rewrite filter_app.
    rewrite <- sweep_wf by by apply (storage_wf_collection KTask).
    pose proof (Hsweep DTask) as Ht. cbn [kind_of collection] in Ht. rewrite Ht.
    replace (base.filter (λ e : string * obj, ¬ owned_by id e.2) entries) with
      (@nil (string * obj)); [by rewrite app_nil_r|].
    clear -Hown. induction Hown as [|e es He _ IH]; [done|].
    by rewrite filter_cons, decide_False by tauto.
  - apply (Hsweep DContact).
  - apply (Hsweep DBudgetItem).
  - apply (Hsweep DCalendarEvent).
Qed.
End Round_trips.

(** ** Templates *)

Section Templates_more.
Variable randomUUID : nat → string.
Variable clock : nat → Z.
Hypothesis randomUUID_inj : Inj (=) (=) randomUUID.

(** X9. Template instantiation for every catalog entry.  When the type of
    the new project is a key of the catalog ("Wedding", "Portrait",
    "Commercial", "Event" or "Blank"), [createProject] returns the project,
    lists it last among the projects, and appends one task per entry of that
    type's template, in template order (10 for "Portrait", 11 for
    "Commercial" and for "Event", none for "Blank"), drawing one id for the
    project and one per task; contacts, budget items and calendar events are
    left alone. *)
Theorem createProject_any_template (insertProject : obj) (s : MemStorage)
    (template : list (string * string)) :
  keys_issued randomUUID s →
  projectTemplates (prop insertProject "type") = TplArray template →
  let id := randomUUID (uuidCalls s) in
  let project := <["createdAt" := VDate (clock (uuidCalls s))]>
                   (<["id" := VStr id]> insertProject) in
  let s' := (createProject randomUUID clock insertProject s).2 in
  (createProject randomUUID clock insertProject s).1 = Returns project ∧
  getProjects s' = getProjects s ++ [project] ∧
  getTasks s' = getTasks s ++
    imap (λ i taskTemplate,
            seededTask randomUUID clock id (S (uuidCalls s) + i) taskTemplate) template ∧
  uuidCalls s' = (S (uuidCalls s) + length template)%nat ∧
  contacts s' = contacts s ∧ budgetItems s' = budgetItems s ∧
  calendarEvents s' = calendarEvents s ∧
  length Portrait_template = 10%nat ∧ length Commercial_template = 11%nat ∧
  length Event_template = 11%nat.
Proof.
  intros Hkeys Htpl id project s'.
  assert (Hfresh : Map_get id (projects s) = None).
  { apply (fresh_key randomUUID randomUUID_inj _ s); [|done].
    apply Forall_forall. intros k. apply (keys_issued_collection randomUUID s KProject k Hkeys). }
  assert (Hres : (createProject randomUUID clock insertProject s).1 = Returns project ∧
    s' = mkStorage (projects s ++ [(id, project)])
           (tasks s ++ imap (λ i taskTemplate,
                               (randomUUID (S (uuidCalls s) + i),
                                seededTask randomUUID clock id (S (uuidCalls s) + i)
                                           taskTemplate)) template)
           (contacts s) (budgetItems s) (calendarEvents s)
           (S (uuidCalls s) + length template)).
  { unfold s', createProject. fold id. fold project.
    destruct (truthy _ && _) eqn:Hguard.
    - rewrite Htpl. cbn [fst snd]. split; [done|].
      rewrite seed_template; [|done|].
      + cbn. unfold id. by rewrite Map_set_fresh by done.
      + apply Forall_forall. intros k Hk.
        apply (keys_issued_collection randomUUID s KTask k Hkeys) in Hk.
        apply issued_elem in Hk as (i & Hi & ->). apply issued_elem. exists i.
        split; [cbn; lia | done].
    - cbn [fst snd]. split; [done|].
      assert (Hnil : template = []).
      { destruct (prop insertProject "type") as [| |b|n|t|t|] eqn:Htype;
          try discriminate Htpl.
        cbn in Hguard. apply andb_false_iff in Hguard as [Hf|Hb].
        - apply negb_false_iff, String.eqb_eq in Hf. subst t. discriminate Htpl.
        - apply negb_false_iff, String.eqb_eq in Hb. subst t. by injection Htpl. }
      subst template. cbn. unfold id.
      by rewrite Map_set_fresh, app_nil_r, Nat.add_0_r by done. }
  destruct Hres as [Hret Hs']. rewrite Hs'. cbn.
  split_and!; try done.
  - unfold getProjects, Map_values. by rewrite fmap_app.
  - unfold getTasks, Map_values. rewrite fmap_app. f_equal.
    rewrite fmap_imap. by apply imap_ext.
Qed.
End Templates_more.

(** ** The boundary: parsing and the handlers *)

Section Boundary_more.
Variable randomUUID : nat → string.
Variable clock : nat → Z.

Lemma projectTemplates_inherited (type : string) :
  type ∈ Object_prototype_keys →
  projectTemplates (VStr type) = TplInherited ∧
  truthy (VStr type) && negb (strict_eq_str (VStr type) "Blank") = true.
Proof.
  unfold Object_prototype_keys. intros Hin.
  repeat (apply elem_of_cons in Hin as [->|Hin]; [by vm_compute|]).
  by apply elem_of_nil in Hin.
Qed.

(** X10. A project type that names a member every object inherits
    ("constructor", "toString", "__proto__", ...) passes validation, since
    the schema takes any string for the type; [createProject] then stores
    the project and throws when it iterates the template, so the POST
    handler answers 400 "Invalid project data" although the project is now
    in the store (without any task), and one id has been drawn. *)
Theorem post_projects_inherited_type (reqBody validatedData : obj) (type : string)
    (s : MemStorage) :
  zparse insertProjectSchema
         (<["shootDate" := dateOrUndefined (prop reqBody "shootDate")]> reqBody)
    = Some validatedData →
  prop validatedData "type" = VStr type →
  type ∈ Object_prototype_keys →
  ∃ s', post_projects randomUUID clock reqBody s =
          (JsonError 400 "Invalid project data", s') ∧
    getProject (randomUUID (uuidCalls s)) s' =
      Some (<["createdAt" := VDate (clock (uuidCalls s))]>
              (<["id" := VStr (randomUUID (uuidCalls s))]> validatedData)) ∧
    tasks s' = tasks s ∧
    uuidCalls s' = S (uuidCalls s).
Proof.
  intros Hparse Htype Hin.
  destruct (projectTemplates_inherited type Hin) as [Htpl Hguard].
  unfold post_projects. rewrite Hparse. unfold createProject.
  rewrite Htype, Hguard, Htpl. eexists. split; [done|].
  split_and!; [|done|done].
  unfold getProject. cbn. rewrite Map_get_set. by rewrite decide_True.
Qed.

(** X11. The invariants of the store are kept by every handler: starting from
    a store in which each record is filed under its own id, no key twice,
    and every key was issued by the generator, the store after any sequence
    of POST, PATCH and DELETE requests (valid or not) is such a store again. *)
Theorem handlers_keep_invariants (rs : list request) (s : MemStorage) :
  storage_wf s → keys_issued randomUUID s →
  storage_wf (serve randomUUID clock rs s) ∧
  keys_issued randomUUID (serve randomUUID clock rs s).
Proof.
  intros Hwf Hkeys. split; [by apply storage_wf_serve|].
  revert s Hwf Hkeys. induction rs as [|r rs IH]; intros s Hwf Hkeys; [done|].
  cbn. apply IH; [by apply storage_wf_handle|].
  by apply (keys_issued_extends randomUUID s _ (extends_handle randomUUID clock r s)).
Qed.
End Boundary_more.

Lemma zparse_accepts (shape : zschema) (input : obj) :
  is_Some (zparse shape input) ↔
  Forall (λ f, zfield_accepts f (prop input (fkey f)) = true) shape.
Proof.
  induction shape as [|f shape IH]; cbn [zparse].
  - split; [by constructor | by eexists].
  - rewrite Forall_cons. destruct (zfield_accepts f _).
    + rewrite <- IH. destruct (zparse shape input) as [out|].
      * destruct (input !! fkey f); split; intros; by eauto.
      * split; [by intros [? [=]] | by intros [_ [? [=]]]].
    + split; [by intros [? [=]] | by intros [[=] _]].
Qed.

(** X12. What [parse] gives.  Parsing succeeds exactly when every key of
    the schema accepts the value the input has under it ([undefined] when
    the key is missing); the result then is the input cut down to the keys
    of the schema: each of these keys that the input has, with the input's
    value, and nothing else, so unknown keys are dropped silently and never
    cause a failure.  A key accepts [undefined] when it is optional, [null]
    when it is nullable, and otherwise a string, a whole number of the
    32-bit range or a date, according to its column; so the schema of a
    budget item refuses a planned cost of 2147483648 and takes
    2147483647. *)
Theorem zparse_restricts (shape : zschema) (input : obj) :
  zparse shape input =
    (if forallb (λ f, zfield_accepts f (prop input (fkey f))) shape
     then Some (base.filter (λ kv, kv.1 ∈ fkey <$> shape) input)
     else None) ∧
  (∀ f v, zfield_accepts f v = true ↔
     (v = VUndef ∧ foptional f = true) ∨ (v = VNull ∧ fnullable f = true) ∨
     (∃ s, v = VStr s ∧ ftype f = ZString) ∨
     (∃ n, v = VNum n ∧ ftype f = ZInteger ∧ -2147483648 ≤ n ≤ 2147483647) ∨
     (∃ t, v = VDate t ∧ ftype f = ZDate)) ∧
  zparse insertBudgetItemSchema
    {[ "projectId" := VStr "14"; "description" := VStr "Lights";
       "plannedCost" := VNum 2147483648 ]} = None ∧
  zparse insertBudgetItemSchema
    {[ "projectId" := VStr "14"; "description" := VStr "Lights";
       "plannedCost" := VNum 2147483647; "note" := VStr "dropped" ]} =
    Some {[ "projectId" := VStr "14"; "description" := VStr "Lights";
            "plannedCost" := VNum 2147483647 ]}.
Proof.
  split; [|split; [|split; by vm_compute]]; cycle 1.
  { intros f v. unfold zfield_accepts, ztype_accepts.
    destruct v, (ftype f); rewrite ?andb_true_iff, ?Z.leb_le;
      split; intros H; try discriminate;
      repeat match goal with
             | H : _ ∨ _ |- _ => destruct H as [H|H]
             | H : _ ∧ _ |- _ => destruct H as [? ?]
             | H : ∃ _, _ |- _ => destruct H as [? ?]
             end; try discriminate; try congruence; eauto 10.
    all: try (match goal with H : VNum _ = VNum _ |- _ => injection H as -> end; lia). }
  destruct (forallb _ shape) eqn:Hall.
  - assert (Hsome : is_Some (zparse shape input)).
    { apply zparse_accepts, Forall_forall. intros f Hf.
      rewrite forallb_forall in Hall. by apply Hall, list_elem_of_In. }
    destruct Hsome as [out Hout]. rewrite Hout. f_equal. apply map_eq. intros k.
    rewrite (zparse_lookup _ _ _ Hout), map_lookup_filter.
    destruct (input !! k) as [v|]; cbn; [|by case_decide].
    case_decide.
    + by rewrite option_guard_True.
    + by rewrite option_guard_False.
  - destruct (zparse shape input) as [out|] eqn:Hout; [|done].
    assert (Hacc : Forall (λ f, zfield_accepts f (prop input (fkey f)) = true) shape)
      by (apply zparse_accepts; by eexists).
    apply not_true_iff_false in Hall. destruct Hall. apply forallb_forall.
    intros f Hf. rewrite Forall_forall in Hacc. by apply Hacc, list_elem_of_In.
Qed.

(** X13. Validated data validates again, to itself: parsing the result of a
    successful parse with the same schema succeeds and changes nothing. *)
Theorem zparse_idempotent (shape : zschema) (input out : obj) :
  zparse shape input = Some out → zparse shape out = Some out.
Proof.
  intros Hout. pose proof (zparse_lookup _ _ _ Hout) as Hlook.
  assert (Hacc : Forall (λ f, zfield_accepts f (prop input (fkey f)) = true) shape)
    by (apply zparse_accepts; by eexists).
  assert (Hsome : is_Some (zparse shape out)).
  { apply zparse_accepts, Forall_forall. intros f Hf.
    rewrite Forall_forall in Hacc. rewrite <- (Hacc f Hf). f_equal.
    unfold prop. rewrite Hlook. rewrite decide_True; [done|].
    by apply list_elem_of_fmap_2. }
  destruct Hsome as [out' Hout']. rewrite Hout'. f_equal. apply map_eq. intros k.
  rewrite (zparse_lookup _ _ _ Hout'), Hlook. by case_decide.
Qed.

Lemma zparse_rejects (shape : zschema) (input : obj) (f : zfield) :
  f ∈ shape → zfield_accepts f (prop input (fkey f)) = false → zparse shape input = None.
Proof.
  intros Hf Hrej. destruct (zparse shape input) as [out|] eqn:Hout; [|done].
  assert (Hacc : Forall (λ f, zfield_accepts f (prop input (fkey f)) = true) shape)
    by (apply zparse_accepts; by eexists).
  rewrite Forall_forall in Hacc. specialize (Hacc f Hf). congruence.
Qed.

Lemma patch_body_absent kind (reqBody : obj) (k : string) :
  reqBody !! k = None → prop (patch_body kind reqBody) k = VUndef.
Proof.
  intros Hk. assert (Hp : prop reqBody k = VUndef) by (unfold prop; by rewrite Hk).
  destruct kind; cbn [patch_body]; unfold prop at 1; rewrite ?lookup_insert;
    repeat case_decide; subst; cbn; rewrite ?Hp; try done; by rewrite Hk.
Qed.

Lemma patch_body_other kind (reqBody : obj) (k : string) :
  k ∉ date_keys kind → patch_body kind reqBody !! k = reqBody !! k.
Proof.
  intros Hk.
  assert (Hne : ∀ key, key ∈ date_keys kind → key ≠ k) by (intros key Hin ->; done).
  destruct kind; cbn [patch_body date_keys] in *; try done.
  - rewrite lookup_insert_ne; [done|]. apply Hne. by_compute.
  - rewrite lookup_insert_ne; [done|]. apply Hne. by_compute.
  - rewrite !lookup_insert_ne; [done|apply Hne; by_compute..].
Qed.

Lemma store_delete_present kind id r s :
  store_get kind id s = Some r → (store_delete kind id s).1 = true.
Proof.
  intros Hget. destruct kind; cbn in *;
    unfold getProject, deleteProject, getTask, deleteTask, getContact, deleteContact,
      getBudgetItem, deleteBudgetItem, getCalendarEvent, deleteCalendarEvent,
      Map_delete, Map_has in *; by rewrite Hget.
Qed.

Section Boundary_posts.
Variable randomUUID : nat → string.
Variable clock : nat → Z.

Lemma post_unfold kind reqBody s :
  handle randomUUID clock (POST kind reqBody) s =
    match zparse (insert_schema kind) (patch_body kind reqBody) with
    | None => (invalid_response kind, s)
    | Some validatedData =>
        handle randomUUID clock (POST kind reqBody) s
    end.
Proof.
  destruct (zparse _ _) eqn:Hparse; [done|].
  destruct kind; cbn [handle insert_schema patch_body invalid_response] in *;
    unfold post_projects, post_tasks, post_contacts, post_budget_items,
      post_calendar_events; by rewrite Hparse.
Qed.

(** X14. A POST body that lacks a key its schema insists on is refused: the
    handler answers 400 and the store is the same store.  The keys insisted
    on are [name], [type] for a project; [projectId], [title] for a task;
    [projectId], [name], [role] for a contact; [projectId], [description]
    for a budget item; [projectId], [title], [type], [startDate] for a
    calendar event. *)
Theorem post_missing_required (kind : Kind) (reqBody : obj) (k : string)
    (s : MemStorage) :
  k ∈ required_keys (insert_schema kind) →
  reqBody !! k = None →
  handle randomUUID clock (POST kind reqBody) s = (invalid_response kind, s) ∧
  required_keys (insert_schema KProject) = ["name"; "type"] ∧
  required_keys (insert_schema KTask) = ["projectId"; "title"] ∧
  required_keys (insert_schema KContact) = ["projectId"; "name"; "role"] ∧
  required_keys (insert_schema KBudgetItem) = ["projectId"; "description"] ∧
  required_keys (insert_schema KCalendarEvent) =
    ["projectId"; "title"; "type"; "startDate"].
Proof.
  intros Hreq Hk. split; [|by vm_compute].
  unfold required_keys in Hreq.
  apply list_elem_of_fmap in Hreq as (f & -> & Hf).
  apply list_elem_of_filter in Hf as [Hopt Hf].
  rewrite post_unfold. rewrite (zparse_rejects _ _ f Hf); [done|].
  rewrite patch_body_absent by done. exact Hopt.
Qed.

(** X15. An answer with an error status means nothing happened: for every
    request other than the creation of a project, if the handler answers 400
    or 404 the store is the same store. *)
Theorem error_leaves_store (r : request) (s : MemStorage) :
  (∀ reqBody, r ≠ POST KProject reqBody) →
  is_error (handle randomUUID clock r s).1 →
  (handle randomUUID clock r s).2 = s.
Proof.
  intros Hnot Herr. destruct r as [kind b|kind id b|kind id].
  - revert Herr. destruct kind; [by destruct (Hnot b)|..]; cbn [handle];
      unfold post_tasks, post_contacts, post_budget_items, post_calendar_events;
      by destruct (zparse _ _).
  - revert Herr. cbn [handle]. rewrite patch_unfold.
    destruct (zparse _ _) as [validatedData|]; [|done].
    destruct (store_get kind id s) as [r|] eqn:Hget.
    + destruct (store_update_present kind id validatedData s r Hget) as (s' & -> & _).
      by intros [].
    + by rewrite store_update_absent.
  - revert Herr. destruct (store_get kind id s) as [r|] eqn:Hget.
    + pose proof (store_delete_present kind id r s Hget) as Hdel.
      destruct kind; cbn [handle store_delete] in *;
        unfold delete_projects, delete_tasks, delete_contacts, delete_budget_items,
          delete_calendar_events;
        match goal with |- context [match ?e with _ => _ end] =>
          destruct e as [[] ?] end; done.
    + pose proof (store_delete_absent kind id s Hget) as Hdel.
      destruct kind; cbn [handle store_delete] in *;
        unfold delete_projects, delete_tasks, delete_contacts, delete_budget_items,
          delete_calendar_events; by rewrite Hdel.
Qed.
End Boundary_posts.

Section Boundary_patches.
Variable randomUUID : nat → string.
Variable clock : nat → Z.

(** X16. A PATCH erases the dates its body does not carry.  For a key among
    the date keys of the kind ([shootDate] of a project, [dueDate] of a task,
    [startDate] and [endDate] of a calendar event) that the request body
    lacks, or binds to a falsy value, every valid PATCH of a stored record
    leaves the stored record with that key bound to [undefined], whatever it
    held, and the JSON answer has no such key. *)
Theorem patch_erases_absent_dates (kind : Kind) (id : string) (reqBody : obj)
    (s : MemStorage) (r validatedData : obj) (k : string) :
  store_get kind id s = Some r →
  k ∈ date_keys kind →
  truthy (prop reqBody k) = false →
  zparse (update_schema kind) (patch_body kind reqBody) = Some validatedData →
  ∃ s', handle randomUUID clock (PATCH kind id reqBody) s =
          (Json 200 (toJSON (spread r validatedData)), s') ∧
        store_get kind id s' = Some (spread r validatedData) ∧
        spread r validatedData !! k = Some VUndef ∧
        toJSON (spread r validatedData) !! k = None.
Proof.
  intros Hget Hk Hfalsy Hparse.
  assert (Hv : validatedData !! k = Some VUndef).
  { rewrite (zparse_lookup _ _ _ Hparse).
    assert (Hd : dateOrUndefined (prop reqBody k) = VUndef)
      by (unfold dateOrUndefined; by rewrite Hfalsy).
    destruct kind; cbn [date_keys] in Hk;
      repeat (apply elem_of_cons in Hk as [->|Hk]); try by apply elem_of_nil in Hk.
    - rewrite decide_True by by_compute. cbn [patch_body].
      by rewrite lookup_insert_eq, Hd.
    - rewrite decide_True by by_compute. cbn [patch_body].
      by rewrite lookup_insert_eq, Hd.
    - rewrite decide_True by by_compute. cbn [patch_body].
      rewrite lookup_insert_ne by done. by rewrite lookup_insert_eq, Hd.
    - rewrite decide_True by by_compute. cbn [patch_body].
      by rewrite lookup_insert_eq, Hd. }
  destruct (store_update_present kind id validatedData s r Hget) as (s' & Hs' & Hget' & _).
  exists s'. cbn [handle]. rewrite patch_unfold, Hparse, Hs'.
  split_and!; [done|done|by apply spread_lookup_Some|].
  by apply toJSON_lookup_undef, spread_lookup_Some.
Qed.

(** X17. A PATCH touches nothing else that its body does not carry.  Whatever
    the handler answers, a key that the request body lacks and that is not a
    date key of the kind is bound in the stored record as it was before; and
    every other record of the store is as it was. *)
Theorem patch_keeps_absent_keys (kind : Kind) (id : string) (reqBody : obj)
    (s : MemStorage) (r : obj) (k : string) :
  store_get kind id s = Some r →
  reqBody !! k = None →
  k ∉ date_keys kind →
  let s' := (handle randomUUID clock (PATCH kind id reqBody) s).2 in
  (∃ r', store_get kind id s' = Some r' ∧ r' !! k = r !! k) ∧
  (∀ kind' id', (kind', id') ≠ (kind, id) →
     store_get kind' id' s' = store_get kind' id' s).
Proof.
  intros Hget Hbody Hk. cbn [handle]. rewrite patch_unfold.
  destruct (zparse _ _) as [validatedData|] eqn:Hparse; cbn zeta.
  - destruct (store_update_present kind id validatedData s r Hget)
      as (s' & Hs' & Hget' & Hframe).
    rewrite Hs'. cbn [snd]. split; [|done].
    exists (spread r validatedData). split; [done|].
    apply spread_lookup_None. rewrite (zparse_lookup _ _ _ Hparse).
    case_decide; [|done]. by rewrite patch_body_other.
  - cbn [snd]. split; [by exists r|done].
Qed.

(** X18. The check box and the status select of the task list send
    [PATCH /api/tasks/:id] with the body [{ status }].  For a stored task the
    request always succeeds; the stored task then has the new status and
    [dueDate] bound to [undefined], and every other key as before. *)
Theorem task_status_patch (id status : string) (s : MemStorage) (r : obj) :
  getTask id s = Some r →
  ∃ s' r', handle randomUUID clock
             (PATCH KTask id {["status" := VStr status]}) s =
             (Json 200 (toJSON r'), s') ∧
    getTask id s' = Some r' ∧
    r' !! "status" = Some (VStr status) ∧
    r' !! "dueDate" = Some VUndef ∧
    toJSON r' !! "dueDate" = None ∧
    (∀ k, k ≠ "status" → k ≠ "dueDate" → r' !! k = r !! k).
Proof.
  intros Hget.
  assert (Hparse : zparse (update_schema KTask)
            (patch_body KTask {["status" := VStr status]}) =
          Some (<["dueDate" := VUndef]> {["status" := VStr status]}))
    by (vm_compute; reflexivity).
  destruct (store_update_present KTask id
              (<["dueDate" := VUndef]> {["status" := VStr status]}) s r Hget)
    as (s' & Hs' & Hget' & _).
  exists s', (spread r (<["dueDate" := VUndef]> {["status" := VStr status]})).
  cbn [handle]. rewrite patch_unfold, Hparse, Hs'.
  assert (Hdue : spread r (<["dueDate" := VUndef]> {["status" := VStr status]})
                   !! "dueDate" = Some VUndef)
    by (apply spread_lookup_Some; by rewrite lookup_insert_eq).
  split_and!; [done|done| |done|by apply toJSON_lookup_undef|].
  - apply spread_lookup_Some. rewrite lookup_insert_ne by done.
    by rewrite lookup_singleton_eq.
  - intros k Hs Hd. apply spread_lookup_None.
    rewrite lookup_insert_ne by done. by rewrite lookup_singleton_ne.
Qed.

(** X19. Requests on tasks, contacts, budget items and calendar events never
    look at the projects: with any other collection of projects in the store
    the handler gives the same answer and makes the same change, and the
    collection of projects is left as it was.  In particular a POST whose
    [projectId] names no project is accepted. *)
Theorem dependents_ignore_projects (d : Dependent) (r : request) (m : JsMap obj)
    (s : MemStorage) :
  (∃ reqBody, r = POST (kind_of d) reqBody) ∨
  (∃ id reqBody, r = PATCH (kind_of d) id reqBody) ∨
  (∃ id, r = DELETE (kind_of d) id) →
  handle randomUUID clock r (with_projects m s) =
    ((handle randomUUID clock r s).1,
     with_projects m (handle randomUUID clock r s).2).
Proof.
  intros [(b & ->)|[(id & b & ->)|(id & ->)]]; destruct d; cbn [kind_of handle].
  - unfold post_tasks. by destruct (zparse _ _).
  - unfold post_contacts. by destruct (zparse _ _).
  - unfold post_budget_items. by destruct (zparse _ _).
  - unfold post_calendar_events. by destruct (zparse _ _).
  - unfold patch, patch_tasks. destruct (zparse _ _); [|done].
    unfold updateTask. cbn. by destruct (Map_get _ _).
  - unfold patch, patch_contacts. destruct (zparse _ _); [|done].
    unfold updateContact. cbn. by destruct (Map_get _ _).
  - unfold patch, patch_budget_items. destruct (zparse _ _); [|done].
    unfold updateBudgetItem. cbn. by destruct (Map_get _ _).
  - unfold patch, patch_calendar_events. destruct (zparse _ _); [|done].
    unfold updateCalendarEvent. cbn. by destruct (Map_get _ _).
  - unfold delete_tasks, deleteTask, Map_delete. cbn. by destruct (Map_has _ _).
  - unfold delete_contacts, deleteContact, Map_delete. cbn. by destruct (Map_has _ _).
  - unfold delete_budget_items, deleteBudgetItem, Map_delete. cbn.
    by destruct (Map_has _ _).
  - unfold delete_calendar_events, deleteCalendarEvent, Map_delete. cbn.
    by destruct (Map_has _ _).
Qed.
End Boundary_patches.

(** ** The lists of the pages *)

Section Array_sort_facts.
Context {A : Type}.
Variable compareFn : A → A → Z.
Variable key : A → Z.
Hypothesis compare_key : ∀ a b, compareFn a b = key a - key b.

Lemma Array_insert_perm (a : A) (l : list A) : Array_insert compareFn a l ≡ₚ a :: l.
Proof.
  induction l as [|b l IH]; cbn [Array_insert]; [done|].
  destruct (compareFn a b <=? 0); [done|]. rewrite IH. apply Permutation_swap.
Qed.

Lemma Array_sort_perm (l : list A) : Array_sort compareFn l ≡ₚ l.
Proof.
  induction l as [|a l IH]; cbn; [done|]. by rewrite Array_insert_perm, IH.
Qed.

Lemma Array_insert_sorted (a : A) (l : list A) :
  StronglySorted (λ a b, key a ≤ key b) l →
  StronglySorted (λ a b, key a ≤ key b) (Array_insert compareFn a l).
Proof.
  induction 1 as [|b l Hsorted IH Hall]; cbn [Array_insert].
  - repeat constructor.
  - rewrite compare_key. destruct (key a - key b <=? 0) eqn:Hcmp.
    + apply Z.leb_le in Hcmp. constructor; [by constructor|].
      constructor; [lia|]. eapply Forall_impl; [exact Hall|]. cbn. intros; lia.
    + apply Z.leb_gt in Hcmp. constructor; [done|].
      rewrite Array_insert_perm. constructor; [lia|done].
Qed.

Lemma Array_sort_sorted (l : list A) :
  StronglySorted (λ a b, key a ≤ key b) (Array_sort compareFn l).
Proof.
  induction l as [|a l IH]; cbn; [constructor|]. by apply Array_insert_sorted.
Qed.

Lemma sorted_take_drop (R : A → A → Prop) (l : list A) (k : nat) (x y : A) :
  StronglySorted R l → x ∈ take k l → y ∈ drop k l → R x y.
Proof.
  intros Hsorted. revert k. induction Hsorted as [|a l Hsorted IH Hall]; intros k.
  - destruct k; cbn; by intros ?%elem_of_nil.
  - destruct k as [|k]; cbn [take drop]; [by intros ?%elem_of_nil|].
    intros [->|Hx]%elem_of_cons Hy; [|by eapply IH].
    rewrite Forall_forall in Hall. apply Hall. by apply (subseteq_drop k l).
Qed.

(** The first [k] elements of the sorted array are [k] elements of least
    key. *)
Lemma Array_sort_take (k : nat) (l : list A) :
  length (take k (Array_sort compareFn l)) = Nat.min k (length l) ∧
  take k (Array_sort compareFn l) ⊆+ l ∧
  StronglySorted (λ a b, key a ≤ key b) (take k (Array_sort compareFn l)) ∧
  (∀ x y, x ∈ take k (Array_sort compareFn l) → y ∈ l →
          y ∉ take k (Array_sort compareFn l) → key x ≤ key y).
Proof.
  split_and!.
  - rewrite length_take. by rewrite (Permutation_length (Array_sort_perm l)).
  - rewrite <- (Array_sort_perm l) at 2. apply sublist_submseteq, sublist_take.
  - pose proof (Array_sort_sorted l) as Hsorted.
    rewrite <- (take_drop k (Array_sort compareFn l)) in Hsorted.
    by apply StronglySorted_app_1_l in Hsorted.
  - intros x y Hx Hy Hny.
    apply (sorted_take_drop (λ a b, key a ≤ key b) (Array_sort compareFn l) k);
      [apply Array_sort_sorted|done|].
    rewrite <- (Array_sort_perm l) in Hy.
    rewrite <- (take_drop k (Array_sort compareFn l)) in Hy.
    apply elem_of_app in Hy as [Hy|Hy]; done.
Qed.
End Array_sort_facts.

(** X20. The "Upcoming Deadlines" lists of the dashboard (five entries) and
    of the project page (three entries) hold the open tasks of earliest due
    date: as many as the limit allows, each a task of the list that has a due
    date and is not completed, in ascending order of due date, and no open
    task left out is due before one that is shown.  A due date in the past
    does not keep a task out. *)
Theorem upcomingDeadlines_earliest (tasks : list Task) :
  let earliest (limit : nat) (shown : list Task) :=
    length shown = Nat.min limit (length (base.filter openDeadline tasks)) ∧
    shown ⊆+ base.filter openDeadline tasks ∧
    StronglySorted (λ a b, dueTime a ≤ dueTime b) shown ∧
    (∀ t u, t ∈ shown → u ∈ tasks → openDeadline u → u ∉ shown →
            dueTime t ≤ dueTime u) in
  earliest 5%nat (Dashboard.upcomingDeadlines tasks) ∧
  earliest 3%nat (ProjectDetail.upcomingDeadlines tasks).
Proof.
  cbn zeta. unfold Dashboard.upcomingDeadlines, ProjectDetail.upcomingDeadlines.
  split.
  - destruct (Array_sort_take (λ a b, dueTime a - dueTime b) dueTime
                (λ _ _, eq_refl) 5 (base.filter openDeadline tasks))
      as (Hlen & Hsub & Hsorted & Hleast).
    split_and!; [done..|]. intros t u Ht Hu Hopen Hnot.
    apply Hleast; [done| |done]. by apply list_elem_of_filter.
  - destruct (Array_sort_take (λ a b, dueTime a - dueTime b) dueTime
                (λ _ _, eq_refl) 3 (base.filter openDeadline tasks))
      as (Hlen & Hsub & Hsorted & Hleast).
    split_and!; [done..|]. intros t u Ht Hu Hopen Hnot.
    apply Hleast; [done| |done]. by apply list_elem_of_filter.
Qed.

(** X21. The number on the "Upcoming Events" card of the dashboard is the
    number of events that start after the time of rendering, capped at
    three.  The card's caption reads "Next 7 days", but no bound of seven
    days is applied: when at most three events lie ahead, each of them is
    listed, however far ahead it starts. *)
Theorem upcomingEvents_count (allEvents : list CalendarEvent) (now : Z) :
  let ahead := base.filter (λ e, now < event_startDate e) allEvents in
  Dashboard.upcomingEventsCount allEvents now = Nat.min 3 (length ahead) ∧
  StronglySorted (λ a b, event_startDate a ≤ event_startDate b)
    (Dashboard.upcomingEvents allEvents now) ∧
  (∀ e, e ∈ Dashboard.upcomingEvents allEvents now →
        e ∈ allEvents ∧ now < event_startDate e) ∧
  ((length ahead ≤ 3)%nat →
   ∀ e, e ∈ allEvents → now < event_startDate e →
        e ∈ Dashboard.upcomingEvents allEvents now).
Proof.
  cbn zeta. unfold Dashboard.upcomingEventsCount, Dashboard.upcomingEvents.
  destruct (Array_sort_take (λ a b, event_startDate a - event_startDate b)
              event_startDate (λ _ _, eq_refl) 3
              (base.filter (λ e, now < event_startDate e) allEvents))
    as (Hlen & Hsub & Hsorted & Hleast).
  split_and!; [done|done| |].
  - intros e He. apply (elem_of_submseteq _ _ _ He) in Hsub.
    apply list_elem_of_filter in Hsub. tauto.
  - intros Hfew e He Hahead. rewrite take_ge.
    + rewrite (Array_sort_perm _ _). by apply list_elem_of_filter.
    + by rewrite (Permutation_length (Array_sort_perm _ _)).
Qed.

Lemma StronglySorted_weaken {A} (R1 R2 : A → A → Prop) (l : list A) :
  (∀ a b, R1 a b → R2 a b) → StronglySorted R1 l → StronglySorted R2 l.
Proof.
  intros Himpl. induction 1 as [|a l Hsorted IH Hall]; constructor; [done|].
  eapply Forall_impl; [exact Hall|]. intros b. apply Himpl.
Qed.

(** X22. The "Recent Projects" of the dashboard are the projects created
    last: six of them at most, the newest first, and no project left out was
    created after one that is shown. *)
Theorem recentProjects_newest (projects : list Project) :
  length (Dashboard.recentProjects projects) = Nat.min 6 (length projects) ∧
  Dashboard.recentProjects projects ⊆+ projects ∧
  StronglySorted (λ a b, project_createdAt b ≤ project_createdAt a)
    (Dashboard.recentProjects projects) ∧
  (∀ p q, p ∈ Dashboard.recentProjects projects → q ∈ projects →
          q ∉ Dashboard.recentProjects projects →
          project_createdAt q ≤ project_createdAt p).
Proof.
  unfold Dashboard.recentProjects.
  assert (Hkey : ∀ a b : Project,
            project_createdAt b - project_createdAt a =
            - project_createdAt a - - project_createdAt b) by (intros; lia).
  destruct (Array_sort_take (λ a b, project_createdAt b - project_createdAt a)
              (λ p, - project_createdAt p) Hkey 6 projects)
    as (Hlen & Hsub & Hsorted & Hleast).
  split_and!; [done|done| |].
  - eapply StronglySorted_weaken; [|exact Hsorted]. cbn. intros; lia.
  - intros p q Hp Hq Hnot. specialize (Hleast p q Hp Hq Hnot). cbn in Hleast. lia.
Qed.

Lemma template_sections (type : val) (template : list (string * string)) :
  projectTemplates type = TplArray template →
  Forall (λ taskTemplate, taskTemplate.2 ∈ sections) template.
Proof.
  destruct type as [| | | |s| |]; cbn [projectTemplates]; try done.
  repeat (destruct (String.eqb s _); [intros [= <-]; by_compute|]).
  by destruct (bool_decide _).
Qed.

(** X23. The task list groups the tasks under four fixed headings, in the
    order of the headings, a group for each heading even when empty; a group
    holds the tasks of its section in the order of the list.  A task whose
    section is none of the four is in no group, while the header still counts
    it: the groups together with those tasks account for every task.  The
    tasks of every project template fall under the four headings. *)
Theorem tasksBySection_groups (tasks : list Task) :
  (tasksBySection tasks).*1 = sections ∧
  (∀ g, g ∈ tasksBySection tasks →
        g.2 = base.filter (λ task, task_section task = g.1) tasks) ∧
  (∀ task g, task_section task ∉ sections → g ∈ tasksBySection tasks → task ∉ g.2) ∧
  (length (concat (tasksBySection tasks).*2) +
     length (base.filter (λ task, task_section task ∉ sections) tasks))%nat
    = (completedOf tasks).2 ∧
  (∀ type template, projectTemplates type = TplArray template →
     Forall (λ taskTemplate, taskTemplate.2 ∈ sections) template).
Proof.
  split_and!.
  - done.
  - intros g Hg. unfold tasksBySection in Hg.
    apply list_elem_of_fmap in Hg as (section & -> & _). done.
  - intros task g Hno Hg. unfold tasksBySection in Hg.
    apply list_elem_of_fmap in Hg as (section & -> & Hsec). cbn.
    intros [Heq _]%list_elem_of_filter. by subst.
  - unfold completedOf, tasksBySection, sections. cbn [fmap list_fmap snd concat].
    rewrite !length_app. cbn [snd length].
    induction tasks as [|task tasks IH]; [done|].
    rewrite !filter_cons.
    assert (Hin : task_section task ∈
              ["Pre-Production"; "Shoot Day"; "Post-Production"; "General"] ↔
            task_section task = "Pre-Production" ∨ task_section task = "Shoot Day" ∨
            task_section task = "Post-Production" ∨ task_section task = "General").
    { rewrite !elem_of_cons, elem_of_nil. tauto. }
    repeat case_decide; cbn [length]; try lia; try congruence; exfalso; tauto.
  - apply template_sections.
Qed.

(** ** The week view *)

Section Week.
Variable LocalTZA : Z → Z.
Variable UTC : Z → Z.
(** What the theorems on the week view ask of the zone: a reading of the
    clock is turned into an instant of the date it names (also a reading
    that a clock change skips or repeats); the start of a local day is not
    after any instant of that day; and the local date never goes back. *)
Hypothesis UTC_localDay : ∀ l, localDay LocalTZA (UTC l) = l / msPerDay.
Hypothesis day_start_le : ∀ t, UTC (localDay LocalTZA t * msPerDay) ≤ t.
Hypothesis localDay_mono : ∀ t1 t2, t1 ≤ t2 → localDay LocalTZA t1 ≤ localDay LocalTZA t2.

Lemma localDay_day_start (d : Z) : localDay LocalTZA (UTC (d * msPerDay)) = d.
Proof. rewrite UTC_localDay. by apply Z.div_mul. Qed.

Lemma localDay_setDate_plus (t n : Z) :
  localDay LocalTZA (setDate_plus LocalTZA UTC t n) = localDay LocalTZA t + n.
Proof.
  unfold setDate_plus. rewrite UTC_localDay.
  rewrite Z.div_add_l by done. rewrite Z.div_small; [lia|].
  by apply Z.mod_pos_bound.
Qed.

Lemma localDay_setHours_first (t : Z) :
  localDay LocalTZA (setHours_first LocalTZA UTC t) = localDay LocalTZA t.
Proof. apply localDay_day_start. Qed.

Lemma localDay_setHours_last (t : Z) :
  localDay LocalTZA (setHours_last LocalTZA UTC t) = localDay LocalTZA t.
Proof.
  unfold setHours_last. rewrite UTC_localDay.
  rewrite Z.div_add_l by done. rewrite Z.div_small by done. lia.
Qed.

Lemma startOfWeek_eq (t : Z) :
  startOfWeek LocalTZA UTC t =
    UTC ((localDay LocalTZA t - getDay LocalTZA t) * msPerDay).
Proof.
  unfold startOfWeek, setHours_first. cbn zeta. rewrite localDay_setDate_plus.
  f_equal; lia.
Qed.

Lemma localDay_endOfWeek (t : Z) :
  localDay LocalTZA (endOfWeek LocalTZA UTC t) =
    localDay LocalTZA t - getDay LocalTZA t + 6.
Proof.
  unfold endOfWeek. cbn zeta. rewrite localDay_setHours_last, localDay_setDate_plus. lia.
Qed.

Lemma next_day_start (d : Z) :
  setHours_first LocalTZA UTC (setDate_plus LocalTZA UTC (UTC (d * msPerDay)) 1) =
    UTC ((d + 1) * msPerDay).
Proof.
  unfold setHours_first. by rewrite localDay_setDate_plus, localDay_day_start.
Qed.

(** An instant of an earlier day is before the start of a later day. *)
Lemma before_day_start (t d : Z) : localDay LocalTZA t < d → t < UTC (d * msPerDay).
Proof.
  intros Hlt. destruct (Z.lt_ge_cases t (UTC (d * msPerDay))) as [|Hge]; [done|].
  apply localDay_mono in Hge. rewrite localDay_day_start in Hge. lia.
Qed.

(** The start of a day is not after an instant of that day or of a later
    one. *)
Lemma day_start_before (t d : Z) : d ≤ localDay LocalTZA t → UTC (d * msPerDay) ≤ t.
Proof.
  intros Hle. destruct (decide (d = localDay LocalTZA t)) as [->|Hne].
  - apply day_start_le.
  - etrans; [|apply day_start_le]. apply Z.lt_le_incl, before_day_start.
    rewrite localDay_day_start. lia.
Qed.

(** The loop of [eachDayOfInterval], started at the start of day [d], with
    fuel for the days up to the one of the end. *)
Lemma eachDay_loop_days (n fuel : nat) (d endTime : Z) :
  Z.of_nat n = localDay LocalTZA endTime - d + 1 → (n ≤ fuel)%nat →
  eachDay_loop LocalTZA UTC fuel (UTC (d * msPerDay)) endTime =
    Some ((λ i, UTC ((d + i) * msPerDay)) <$> seqZ 0 (Z.of_nat n)).
Proof.
  revert fuel d. induction n as [|n IH]; intros fuel d Hn Hfuel.
  - destruct fuel; cbn [eachDay_loop];
      by rewrite (proj2 (Z.ltb_lt _ _)) by (apply before_day_start; lia).
  - destruct fuel as [|fuel]; [lia|]. cbn [eachDay_loop].
    rewrite (proj2 (Z.ltb_ge _ _)) by (apply day_start_before; lia).
    rewrite next_day_start, (IH fuel (d + 1)) by lia. cbn [fmap option_fmap option_map].
    f_equal. rewrite (seqZ_cons 0 (Z.of_nat (S n))) by lia.
    rewrite fmap_cons, Z.add_0_r. f_equal.
    replace (Z.pred (Z.of_nat (S n))) with (Z.of_nat n) by lia.
    rewrite <- (fmap_add_seqZ 1 0), <- list_fmap_compose.
    apply list_fmap_ext. intros _ i _. cbn. do 2 f_equal. lia.
Qed.

(** The cells of the week view. *)
Lemma renderWeekView_eq allEvents allTasks projects (fuel : nat) (t : Z) :
  (7 ≤ fuel)%nat →
  renderWeekView LocalTZA UTC allEvents allTasks projects fuel t =
    Some ((λ i, (UTC ((localDay LocalTZA t - getDay LocalTZA t + i) * msPerDay),
                 getAllEventsForDate LocalTZA allEvents allTasks projects
                   (UTC ((localDay LocalTZA t - getDay LocalTZA t + i) * msPerDay))))
            <$> seqZ 0 7).
Proof.
  intros Hfuel. unfold renderWeekView, eachDayOfInterval. cbn zeta.
  rewrite startOfWeek_eq.
  rewrite (proj2 (Z.ltb_ge _ _))
    by (apply day_start_before; rewrite localDay_endOfWeek; lia).
  unfold setHours_first at 1. rewrite localDay_day_start.
  rewrite (eachDay_loop_days 7 fuel) by (rewrite ?localDay_endOfWeek; lia).
  cbn [fmap option_fmap option_map]. by rewrite <- list_fmap_compose.
Qed.

Lemma getDay_bounds (t : Z) : 0 ≤ getDay LocalTZA t < 7.
Proof. unfold getDay. by apply Z.mod_pos_bound. Qed.

Lemma getAllEventsForDate_day allEvents allTasks projects (d1 d2 : Z) :
  localDay LocalTZA d1 = localDay LocalTZA d2 →
  getAllEventsForDate LocalTZA allEvents allTasks projects d1 =
  getAllEventsForDate LocalTZA allEvents allTasks projects d2.
Proof. intros Hday. unfold getAllEventsForDate, isSameDay. by rewrite Hday. Qed.

Lemma item_in_own_day allEvents allTasks projects (date : Z) (item : TimelineItem) :
  item ∈ getAllEventsForDate LocalTZA allEvents allTasks projects date →
  localDay LocalTZA (item_startDate item) = localDay LocalTZA date.
Proof.
  rewrite getAllEventsForDate_elem. unfold isSameDay.
  intros [(event & _ & Hday & ->)|[(task & dueDate & _ & _ & Hday & ->)|
          (project & shootDate & _ & _ & Hday & ->)]]; cbn; lia.
Qed.

(** X24. The week view, in a zone whose clock readings are turned into
    instants of the date they name, whose days start no later than any of
    their instants and whose local date never goes back.  The view has seven
    cells, one for each local day from the Sunday on or before the current
    date to the Saturday after it, each at the start of its day; the day of
    the current date is one of them.  A timeline item (an event, a task
    deadline, a photo shoot) is in a cell of the week exactly when it is an
    item of the day it starts on and that day is one of the seven. *)
Theorem renderWeekView_cells (allEvents : list CalendarEvent) (allTasks : list Task)
    (projects : list Project) (fuel : nat) (currentDate : Z) :
  (7 ≤ fuel)%nat →
  let sunday := localDay LocalTZA currentDate - getDay LocalTZA currentDate in
  let items := getAllEventsForDate LocalTZA allEvents allTasks projects in
  let day i := UTC ((sunday + i) * msPerDay) in
  renderWeekView LocalTZA UTC allEvents allTasks projects fuel currentDate =
    Some ((λ i, (day i, items (day i))) <$> seqZ 0 7) ∧
  (∀ i, 0 ≤ i < 7 →
     (day i + LocalTZA (day i)) / 86400000 = sunday + i ∧ getDay LocalTZA (day i) = i) ∧
  sunday ≤ localDay LocalTZA currentDate ≤ sunday + 6 ∧
  (∀ item, (∃ i, 0 ≤ i < 7 ∧ item ∈ items (day i)) ↔
     item ∈ items (item_startDate item) ∧
     sunday ≤ localDay LocalTZA (item_startDate item) ≤ sunday + 6).
Proof.
  intros Hfuel sunday items day.
  pose proof (getDay_bounds currentDate) as Hday.
  assert (Hlocal : ∀ i, localDay LocalTZA (day i) = sunday + i)
    by (intros i; apply localDay_day_start).
  split; [|split; [|split]].
  - by apply renderWeekView_eq.
  - intros i Hi. split; [apply Hlocal|].
    unfold getDay. rewrite Hlocal. unfold sunday, getDay.
    replace (localDay LocalTZA currentDate - (localDay LocalTZA currentDate + 4) mod 7 + i + 4)
      with (i + ((localDay LocalTZA currentDate + 4)
                 - (localDay LocalTZA currentDate + 4) mod 7)) by lia.
    rewrite Zplus_mod, (Zminus_mod (_ + 4)), Zmod_mod, Z.sub_diag, Zmod_0_l, Z.add_0_r.
    rewrite Zmod_mod. by apply Z.mod_small.
  - unfold sunday. lia.
  - intros item. split.
    + intros (i & Hi & Hitem).
      pose proof (item_in_own_day _ _ _ _ _ Hitem) as Hown. rewrite Hlocal in Hown.
      split; [|lia]. unfold items.
      rewrite (getAllEventsForDate_day _ _ _ (item_startDate item) (day i)); [done|].
      by rewrite Hlocal.
    + intros [Hitem Hrange].
      exists (localDay LocalTZA (item_startDate item) - sunday). split; [lia|].
      unfold items. rewrite (getAllEventsForDate_day _ _ _ _ (item_startDate item)); [done|].
      rewrite Hlocal. lia.
Qed.

(** X25. Moving by a week or by a day, in such a zone.  The week view after
    "next" has the cells of the seven local days that follow the seven shown
    before, and after "prev" of the seven that precede them; the day view
    moves to the next or to the previous local day; "prev" after "next"
    brings back the same week and the same day. *)
Theorem navigateDate_week_day (allEvents : list CalendarEvent) (allTasks : list Task)
    (projects : list Project) (addMonths : Z → Z → Z) (fuel : nat) (currentDate : Z) :
  (7 ≤ fuel)%nat →
  let sunday := localDay LocalTZA currentDate - getDay LocalTZA currentDate in
  let days t := fmap (M := list) fst <$>
                  renderWeekView LocalTZA UTC allEvents allTasks projects fuel t in
  let go := navigateDate LocalTZA UTC addMonths in
  days (go ViewWeek Next currentDate) =
    Some ((λ i, UTC ((sunday + 7 + i) * msPerDay)) <$> seqZ 0 7) ∧
  days (go ViewWeek Prev currentDate) =
    Some ((λ i, UTC ((sunday - 7 + i) * msPerDay)) <$> seqZ 0 7) ∧
  localDay LocalTZA (go ViewDay Next currentDate) = localDay LocalTZA currentDate + 1 ∧
  localDay LocalTZA (go ViewDay Prev currentDate) = localDay LocalTZA currentDate - 1 ∧
  renderWeekView LocalTZA UTC allEvents allTasks projects fuel
      (go ViewWeek Prev (go ViewWeek Next currentDate)) =
    renderWeekView LocalTZA UTC allEvents allTasks projects fuel currentDate ∧
  localDay LocalTZA (go ViewDay Prev (go ViewDay Next currentDate)) =
    localDay LocalTZA currentDate.
Proof.
  intros Hfuel sunday days go.
  assert (Hdays : ∀ t, days t =
            Some ((λ i, UTC ((localDay LocalTZA t - getDay LocalTZA t + i) * msPerDay))
                    <$> seqZ 0 7)).
  { intros t. unfold days. rewrite renderWeekView_eq by done.
    cbn [fmap option_fmap option_map]. by rewrite <- list_fmap_compose. }
  assert (Hplus : ∀ t n, n ≠ 0 →
            localDay LocalTZA (addDays LocalTZA UTC t n) = localDay LocalTZA t + n).
  { intros t n Hn. unfold addDays. rewrite (proj2 (Z.eqb_neq _ _)) by done.
    apply localDay_setDate_plus. }
  assert (Hweek : ∀ t n, n ≠ 0 →
            getDay LocalTZA (addDays LocalTZA UTC t (n * 7)) = getDay LocalTZA t).
  { intros t n Hn. unfold getDay. rewrite Hplus by lia.
    replace (localDay LocalTZA t + n * 7 + 4) with (localDay LocalTZA t + 4 + n * 7) by lia.
    by rewrite Z.mod_add. }
  unfold go. cbn [navigateDate]. unfold subWeeks, addWeeks, subDays.
  split_and!.
  - rewrite Hdays, Hweek, Hplus by lia. f_equal.
    apply list_fmap_ext. intros _ i _. do 2 f_equal. unfold sunday. lia.
  - rewrite Hdays, Hweek, Hplus by lia. f_equal.
    apply list_fmap_ext. intros _ i _. do 2 f_equal. unfold sunday. lia.
  - rewrite Hplus; lia.
  - rewrite Hplus; lia.
  - rewrite !renderWeekView_eq by done. rewrite !Hweek, !Hplus by lia. f_equal.
    apply list_fmap_ext. intros _ i _.
    match goal with
    | |- (UTC (?a * _), _) = (UTC (?b * _), _) => replace a with b by lia
    end.
    done.
  - rewrite !Hplus; lia.
Qed.
End Week.

(** ** The further theorems at work on the running store *)

(** Creating a contact in the running store. *)
Lemma insert_appends_witness :
  keys_issued sample_uuid sample_store ∧
  store_list (kind_of DContact)
    (store_insert sample_uuid sample_clock DContact sample_insertContact sample_store).2 =
  store_list (kind_of DContact) sample_store ++
    [(store_insert sample_uuid sample_clock DContact sample_insertContact sample_store).1].
Proof.
  assert (Hkeys : keys_issued sample_uuid sample_store) by by_compute.
  split; [exact Hkeys|].
  exact (proj1 (insert_appends sample_uuid sample_clock sample_uuid_inj DContact
                  sample_insertContact sample_store Hkeys)).
Defined.

(** Deleting the task "15" of the running store. *)
Lemma delete_present_dependent_witness :
  store_get (kind_of DTask) "15" sample_store = Some sample_task ∧
  ∃ s', store_delete (kind_of DTask) "15" sample_store = (true, s') ∧
        store_get (kind_of DTask) "15" s' = None.
Proof.
  assert (Hget : store_get (kind_of DTask) "15" sample_store = Some sample_task)
    by (vm_compute; reflexivity).
  split; [exact Hget|].
  destruct (delete_present_dependent DTask "15" sample_task sample_store Hget)
    as (s' & Hdel & Hnone & _).
  exists s'. split; [exact Hdel|exact Hnone].
Defined.

(** Updating the task "15" with the status it has. *)
Lemma update_without_change_witness :
  store_get KTask "15" sample_store = Some sample_task ∧
  store_update KTask "15" {[ "status" := VStr "To Do" ]} sample_store =
    (Some sample_task, sample_store).
Proof.
  assert (Hget : store_get KTask "15" sample_store = Some sample_task)
    by (vm_compute; reflexivity).
  split; [exact Hget|].
  apply (update_without_change KTask "15" {[ "status" := VStr "To Do" ]} sample_task
           sample_store Hget).
  intros k v Hk. apply lookup_singleton_Some in Hk as [<- <-]. vm_compute. reflexivity.
Defined.

(** Creating a budget item in the running store and deleting it again. *)
Lemma insert_then_delete_witness :
  keys_issued sample_uuid sample_store ∧
  store_delete (kind_of DBudgetItem) (sample_uuid (uuidCalls sample_store))
    (store_insert sample_uuid sample_clock DBudgetItem sample_insertBudgetItem
       sample_store).2 =
  (true, next_uuid sample_store).
Proof.
  assert (Hkeys : keys_issued sample_uuid sample_store) by by_compute.
  split; [exact Hkeys|].
  exact (insert_then_delete sample_uuid sample_clock sample_uuid_inj DBudgetItem
           sample_insertBudgetItem sample_store Hkeys).
Defined.

(** Creating a second wedding in the running store and deleting it again. *)
Lemma createProject_then_deleteProject_witness :
  storage_wf sample_store ∧ keys_issued sample_uuid sample_store ∧
  (deleteProject (sample_uuid (uuidCalls sample_store))
     (createProject sample_uuid sample_clock sample_insertProject sample_store).2).1
    = true ∧
  ∀ kind, collection kind
            (deleteProject (sample_uuid (uuidCalls sample_store))
               (createProject sample_uuid sample_clock sample_insertProject
                  sample_store).2).2 =
          collection kind sample_store.
Proof.
  assert (Hwf : storage_wf sample_store) by by_compute.
  assert (Hkeys : keys_issued sample_uuid sample_store) by by_compute.
  assert (Hfree : unreferenced (sample_uuid (uuidCalls sample_store)) sample_store).
  { intros d r Hin.
    assert (Hall : Forall (λ r, prop r "projectId" ≠ VStr "19")
                     (store_list (kind_of d) sample_store))
      by (destruct d; by_compute).
    rewrite Forall_forall in Hall. exact (Hall r Hin). }
  split; [exact Hwf|]. split; [exact Hkeys|].
  exact (createProject_then_deleteProject sample_uuid sample_clock sample_uuid_inj
           sample_insertProject sample_store Hwf Hkeys Hfree).
Defined.

(** Creating a portrait project in the running store. *)
Lemma createProject_any_template_witness :
  keys_issued sample_uuid sample_store ∧
  projectTemplates (prop {[ "name" := VStr "Eve"; "type" := VStr "Portrait" ]} "type") =
    TplArray Portrait_template ∧
  uuidCalls (createProject sample_uuid sample_clock
               {[ "name" := VStr "Eve"; "type" := VStr "Portrait" ]} sample_store).2 =
    (S (uuidCalls sample_store) + length Portrait_template)%nat.
Proof.
  assert (Hkeys : keys_issued sample_uuid sample_store) by by_compute.
  assert (Htpl : projectTemplates
                   (prop {[ "name" := VStr "Eve"; "type" := VStr "Portrait" ]} "type") =
                 TplArray Portrait_template) by (vm_compute; reflexivity).
  split; [exact Hkeys|]. split; [exact Htpl|].
  pose proof (createProject_any_template sample_uuid sample_clock sample_uuid_inj
                {[ "name" := VStr "Eve"; "type" := VStr "Portrait" ]} sample_store
                Portrait_template Hkeys Htpl) as Hcreate.
  cbv zeta in Hcreate. destruct Hcreate as (_ & _ & _ & Hcalls & _).
  exact Hcalls.
Defined.

(** Posting a project of type "constructor" to the running store. *)
Lemma post_projects_inherited_type_witness :
  "constructor" ∈ Object_prototype_keys ∧
  ∃ s', post_projects sample_uuid sample_clock sample_odd_project sample_store =
          (JsonError 400 "Invalid project data", s') ∧
        uuidCalls s' = S (uuidCalls sample_store).
Proof.
  assert (Hin : "constructor" ∈ Object_prototype_keys) by by_compute.
  assert (Hparse : zparse insertProjectSchema
            (<["shootDate" := dateOrUndefined (prop sample_odd_project "shootDate")]>
               sample_odd_project) =
          Some (<["shootDate" := VUndef]> sample_odd_project))
    by (vm_compute; reflexivity).
  assert (Htype : prop (<["shootDate" := VUndef]> sample_odd_project) "type" =
                  VStr "constructor") by (vm_compute; reflexivity).
  split; [exact Hin|].
  destruct (post_projects_inherited_type sample_uuid sample_clock sample_odd_project
              (<["shootDate" := VUndef]> sample_odd_project) "constructor" sample_store
              Hparse Htype Hin) as (s' & Hpost & _ & _ & Hcalls).
  exists s'. split; [exact Hpost|exact Hcalls].
Defined.

(** Six requests on the running store. *)
Lemma handlers_keep_invariants_witness :
  storage_wf sample_store ∧ keys_issued sample_uuid sample_store ∧
  storage_wf (serve sample_uuid sample_clock sample_requests sample_store) ∧
  keys_issued sample_uuid (serve sample_uuid sample_clock sample_requests sample_store).
Proof.
  assert (Hwf : storage_wf sample_store) by by_compute.
  assert (Hkeys : keys_issued sample_uuid sample_store) by by_compute.
  split; [exact Hwf|]. split; [exact Hkeys|].
  exact (handlers_keep_invariants sample_uuid sample_clock sample_requests sample_store
           Hwf Hkeys).
Defined.

(** Validating a PATCH body for a task that also carries an [id]. *)
Lemma zparse_idempotent_witness :
  zparse updateTaskSchema {[ "status" := VStr "Completed"; "id" := VStr "15" ]} =
    Some {[ "status" := VStr "Completed" ]} ∧
  zparse updateTaskSchema {[ "status" := VStr "Completed" ]} =
    Some {[ "status" := VStr "Completed" ]}.
Proof.
  assert (Hparse : zparse updateTaskSchema
                     {[ "status" := VStr "Completed"; "id" := VStr "15" ]} =
                   Some {[ "status" := VStr "Completed" ]}) by (vm_compute; reflexivity).
  split; [exact Hparse|].
  exact (zparse_idempotent updateTaskSchema _ _ Hparse).
Defined.

(** Posting a task without a title to the running store. *)
Lemma post_missing_required_witness :
  "title" ∈ required_keys (insert_schema KTask) ∧
  handle sample_uuid sample_clock (POST KTask {[ "projectId" := VStr "0" ]}) sample_store =
    (invalid_response KTask, sample_store).
Proof.
  assert (Hreq : "title" ∈ required_keys (insert_schema KTask)) by by_compute.
  assert (Hnone : ({[ "projectId" := VStr "0" ]} : obj) !! "title" = None)
    by (vm_compute; reflexivity).
  split; [exact Hreq|].
  exact (proj1 (post_missing_required sample_uuid sample_clock KTask
                  {[ "projectId" := VStr "0" ]} "title" sample_store Hreq Hnone)).
Defined.

(** Deleting a task that is not in the running store. *)
Lemma error_leaves_store_witness :
  is_error (handle sample_uuid sample_clock (DELETE KTask "nowhere") sample_store).1 ∧
  (handle sample_uuid sample_clock (DELETE KTask "nowhere") sample_store).2 = sample_store.
Proof.
  assert (Herr : is_error (handle sample_uuid sample_clock (DELETE KTask "nowhere")
                             sample_store).1) by (vm_compute; exact I).
  split; [exact Herr|].
  apply (error_leaves_store sample_uuid sample_clock (DELETE KTask "nowhere") sample_store);
    [intros reqBody; discriminate|exact Herr].
Defined.

(** Renaming the calendar event "18" of the running store. *)
Lemma patch_erases_absent_dates_witness :
  store_get KCalendarEvent "18" sample_store = Some sample_event ∧
  prop sample_event "startDate" = VDate 1749000000000 ∧
  ∃ s' r', handle sample_uuid sample_clock
             (PATCH KCalendarEvent "18" {[ "title" := VStr "Moved" ]}) sample_store =
             (Json 200 (toJSON r'), s') ∧
           store_get KCalendarEvent "18" s' = Some r' ∧
           r' !! "startDate" = Some VUndef.
Proof.
  assert (Hget : store_get KCalendarEvent "18" sample_store = Some sample_event)
    by (vm_compute; reflexivity).
  assert (Hkey : "startDate" ∈ date_keys KCalendarEvent) by by_compute.
  assert (Hfalsy : truthy (prop ({[ "title" := VStr "Moved" ]} : obj) "startDate") = false)
    by (vm_compute; reflexivity).
  assert (Hparse : zparse (update_schema KCalendarEvent)
                     (patch_body KCalendarEvent {[ "title" := VStr "Moved" ]}) =
                   Some {[ "title" := VStr "Moved"; "startDate" := VUndef;
                           "endDate" := VUndef ]}) by (vm_compute; reflexivity).
  split; [exact Hget|]. split; [vm_compute; reflexivity|].
  destruct (patch_erases_absent_dates sample_uuid sample_clock KCalendarEvent "18"
              {[ "title" := VStr "Moved" ]} sample_store sample_event _ "startDate"
              Hget Hkey Hfalsy Hparse) as (s' & Hpatch & Hget' & Hundef & _).
  exists s'. eexists. split; [exact Hpatch|]. split; [exact Hget'|exact Hundef].
Defined.

(** Marking the budget item "17" of the running store as paid. *)
Lemma patch_keeps_absent_keys_witness :
  store_get KBudgetItem "17" sample_store = Some sample_budget_item ∧
  ∃ r', store_get KBudgetItem "17"
          (handle sample_uuid sample_clock
             (PATCH KBudgetItem "17" {[ "paymentStatus" := VStr "Paid" ]})
             sample_store).2 = Some r' ∧
        r' !! "plannedCost" = sample_budget_item !! "plannedCost".
Proof.
  assert (Hget : store_get KBudgetItem "17" sample_store = Some sample_budget_item)
    by (vm_compute; reflexivity).
  assert (Hnone : ({[ "paymentStatus" := VStr "Paid" ]} : obj) !! "plannedCost" = None)
    by (vm_compute; reflexivity).
  assert (Hkey : "plannedCost" ∉ date_keys KBudgetItem) by by_compute.
  split; [exact Hget|].
  exact (proj1 (patch_keeps_absent_keys sample_uuid sample_clock KBudgetItem "17"
                  {[ "paymentStatus" := VStr "Paid" ]} sample_store sample_budget_item
                  "plannedCost" Hget Hnone Hkey)).
Defined.

(** Ticking the check box of the task "15" of the running store. *)
Lemma task_status_patch_witness :
  getTask "15" sample_store = Some sample_task ∧
  ∃ s' r', handle sample_uuid sample_clock
             (PATCH KTask "15" {[ "status" := VStr "Completed" ]}) sample_store =
             (Json 200 (toJSON r'), s') ∧
           getTask "15" s' = Some r' ∧
           r' !! "status" = Some (VStr "Completed").
Proof.
  assert (Hget : getTask "15" sample_store = Some sample_task)
    by (vm_compute; reflexivity).
  split; [exact Hget|].
  destruct (task_status_patch sample_uuid sample_clock "15" "Completed" sample_store
              sample_task Hget) as (s' & r' & Hpatch & Hget' & Hstatus & _).
  exists s', r'. split; [exact Hpatch|]. split; [exact Hget'|exact Hstatus].
Defined.

(** Posting a contact to the running store with its projects taken away. *)
Lemma dependents_ignore_projects_witness :
  handle sample_uuid sample_clock (POST (kind_of DContact) sample_insertContact)
    (with_projects [] sample_store) =
  ((handle sample_uuid sample_clock (POST (kind_of DContact) sample_insertContact)
      sample_store).1,
   with_projects []
     (handle sample_uuid sample_clock (POST (kind_of DContact) sample_insertContact)
        sample_store).2).
Proof.
  apply (dependents_ignore_projects sample_uuid sample_clock DContact).
  left. exists sample_insertContact. reflexivity.
Defined.

(** *** New York is a zone as the week view needs it *)

Lemma newYork_UTC_localDay (l : Z) : localDay newYork (newYork_UTC l) = l / msPerDay.
Proof.
  unfold localDay, LocalTime, newYork, newYork_UTC, msPerDay.
  repeat match goal with |- context [?a <? ?b] => destruct (Z.ltb_spec a b) end;
    Z.div_mod_to_equations; lia.
Qed.

Lemma newYork_day_start_le (t : Z) : newYork_UTC (localDay newYork t * msPerDay) ≤ t.
Proof.
  unfold localDay, LocalTime, newYork, newYork_UTC, msPerDay.
  repeat match goal with |- context [?a <? ?b] => destruct (Z.ltb_spec a b) end;
    Z.div_mod_to_equations; lia.
Qed.

Lemma newYork_localDay_mono (t1 t2 : Z) :
  t1 ≤ t2 → localDay newYork t1 ≤ localDay newYork t2.
Proof.
  intros Hle. unfold localDay, LocalTime, newYork, msPerDay.
  repeat match goal with |- context [?a <? ?b] => destruct (Z.ltb_spec a b) end;
    Z.div_mod_to_equations; lia.
Qed.

(** The week of Wednesday 2025-03-12 in New York, whose Sunday has 23 hours:
    the cells are the starts of the seven days, the second one 23 hours
    after the first; the events of 00:30 and 23:30 on Sunday are in the
    first cell, the one of 00:30 on Monday in the second. *)
Lemma renderWeekView_cells_witness :
  renderWeekView newYork newYork_UTC clock_change_events [] [] 7 1741806000000 =
    Some ((λ i, (newYork_UTC ((localDay newYork 1741806000000
                                - getDay newYork 1741806000000 + i) * msPerDay),
                 getAllEventsForDate newYork clock_change_events [] []
                   (newYork_UTC ((localDay newYork 1741806000000
                                  - getDay newYork 1741806000000 + i) * msPerDay))))
            <$> seqZ 0 7) ∧
  (λ cell : Z * list TimelineItem, (cell.1, item_id <$> cell.2)) <$>
    default [] (renderWeekView newYork newYork_UTC clock_change_events [] [] 7
                  1741806000000) =
    [ (1741496400000, ["b"; "c"]); (1741579200000, ["d"]); (1741665600000, []);
      (1741752000000, []); (1741838400000, []); (1741924800000, []);
      (1742011200000, []) ].
Proof.
  split; [|by vm_compute].
  exact (proj1 (renderWeekView_cells newYork newYork_UTC newYork_UTC_localDay
                  newYork_day_start_le newYork_localDay_mono clock_change_events [] []
                  7 1741806000000 (le_n 7))).
Defined.

(** From Wednesday 2025-03-05 in New York, "next" leads to the week of the
    clock change. *)
Lemma navigateDate_week_day_witness :
  fmap (M := list) fst <$>
    renderWeekView newYork newYork_UTC clock_change_events [] [] 7
      (navigateDate newYork newYork_UTC (λ t _, t) ViewWeek Next 1741204800000) =
    Some ((λ i, newYork_UTC ((localDay newYork 1741204800000
                                - getDay newYork 1741204800000 + 7 + i) * msPerDay))
            <$> seqZ 0 7) ∧
  navigateDate newYork newYork_UTC (λ t _, t) ViewWeek Next 1741204800000 =
    1741806000000 ∧
  navigateDate newYork newYork_UTC (λ t _, t) ViewDay Next 1741494600000 =
    1741577400000.
Proof.
  split; [|by vm_compute].
  exact (proj1 (navigateDate_week_day newYork newYork_UTC newYork_UTC_localDay
                  newYork_day_start_le newYork_localDay_mono clock_change_events [] []
                  (λ t _, t) 7 1741204800000 (le_n 7))).
Defined.

(** The figures of the example of the specification. *)
Lemma budget_arithmetic_witness :
  totalPlanned
    [ mkBudgetItem "b1" "p" "studio" (Some 1000) (Some 1200) (Some "Paid") None;
      mkBudgetItem "b2" "p" "assistant" (Some 500) (Some 300) (Some "Unpaid") None ] =
    num (foldr Z.add 0 [1000; 500]) ∧
  totalActual
    [ mkBudgetItem "b1" "p" "studio" (Some 1000) (Some 1200) (Some "Paid") None;
      mkBudgetItem "b2" "p" "assistant" (Some 500) (Some 300) (Some "Unpaid") None ] =
    num (foldr Z.add 0 [1200; 300]) ∧
  profitLoss 5000
    [ mkBudgetItem "b1" "p" "studio" (Some 1000) (Some 1200) (Some "Paid") None;
      mkBudgetItem "b2" "p" "assistant" (Some 500) (Some 300) (Some "Unpaid") None ] =
    num (5000 - foldr Z.add 0 [1200; 300]).
Proof.
  assert (Hplanned : foldr Z.add 0 (Z.abs <$> [1000; 500]) < 2 ^ 53) by by vm_compute.
  assert (Hactual : Z.abs 5000 + foldr Z.add 0 (Z.abs <$> [1200; 300]) < 2 ^ 53)
    by by vm_compute.
  destruct (budget_arithmetic (λ _, "") 5000
              [ mkBudgetItem "b1" "p" "studio" (Some 1000) (Some 1200) (Some "Paid") None;
                mkBudgetItem "b2" "p" "assistant" (Some 500) (Some 300) (Some "Unpaid") None ]
              [1000; 500] [1200; 300] eq_refl eq_refl Hplanned Hactual)
    as (Hp & Ha & Hpl & _).
  split; [exact Hp|]. split; [exact Ha|exact Hpl].
Defined.
